(** * Technical indicators (skills/technical-indicators/scripts): a shallow embedding

    The scripts compute price-action indicators with Python floats and
    pandas/numpy columns.  The embedding keeps the control flow, the
    column-by-column structure and the error behaviour of each script and
    models numbers as follows.

    - A Python/numpy float is a [num]: an exact rational, or one of the
      three IEEE special values [PInf], [NInf], [NaN].  Arithmetic on finite
      values is exact (no rounding error, no overflow); the special values
      follow the IEEE rules that numpy applies silently (x/0 is an infinity
      with the sign of x, 0/0 and inf-inf are NaN, every ordered comparison
      with NaN is false).  Zero carries no sign.  The scripts divide by a
      negative zero in one place: the [loss] column of rsi.py is -0.0 on a
      rising series, so that RS is -inf where the model has +inf; the
      output is the same, 100 - 100/(1 + RS) being 100 for both.
    - JSON numbers (prices, candle fields) are finite, hence [Q].
    - A Python [int] parameter (period, threshold) is a [Z].
    - A [pandas.Series] / DataFrame column is a [list num] indexed from 0.
      Rolling aggregates are computed window by window (pandas updates
      them incrementally, which is the same in exact arithmetic).
    - A candle (a JSON object) and the [levels] dict of pivot_points.py are
      association lists in insertion order.
    - Exceptions are values of [exn]; a function that may raise returns
      [result A].  A frame built from an empty list of candles has no
      columns: the first column a script reads raises KeyError
      ([frame_column]).

    The scripts compute in double precision, the model in exact rationals.
    A property that gives the value of a rounded output is therefore
    stated up to a tolerance (0.01 for one value rounded to two decimals,
    0.02 between two such values) and on a range of inputs (at most 1000
    entries, magnitudes up to 10^6) in which the accumulated rounding error
    of the doubles is orders of magnitude below the tolerance and no
    conversion of a Python integer to a float can overflow.  The proofs do
    not use the range; the lemmas named [_exact] give the value in exact
    arithmetic.  Properties whose conclusion is a NaN, 0, 100, a label, an
    exception, or an order among values that are rounded in the same way
    are stated as they are. *)

From Stdlib Require Import QArith Qround Qabs ZArith String Ascii List Bool Lia Lqa DecimalString.
Import ListNotations.
Local Open Scope Q_scope.

(* ================================================================== *)
(** ** Numbers *)

Module Num.

Inductive num : Type :=
| Fin (q : Q)
| PInf
| NInf
| NaN.

Definition is_nan (x : num) : bool :=
  match x with NaN => true | _ => false end.

Definition is_finite (x : num) : bool :=
  match x with Fin _ => true | _ => false end.

Definition nneg (x : num) : num :=
  match x with
  | Fin q => Fin (- q)
  | PInf => NInf
  | NInf => PInf
  | NaN => NaN
  end.

Definition nadd (x y : num) : num :=
  match x, y with
  | NaN, _ | _, NaN => NaN
  | Fin a, Fin b => Fin (a + b)
  | PInf, NInf | NInf, PInf => NaN
  | PInf, _ | _, PInf => PInf
  | NInf, _ | _, NInf => NInf
  end.

Definition nsub (x y : num) : num := nadd x (nneg y).

Definition nmul (x y : num) : num :=
  match x, y with
  | NaN, _ | _, NaN => NaN
  | Fin a, Fin b => Fin (a * b)
  | Fin a, PInf | PInf, Fin a =>
      match a ?= 0 with Eq => NaN | Gt => PInf | Lt => NInf end
  | Fin a, NInf | NInf, Fin a =>
      match a ?= 0 with Eq => NaN | Gt => NInf | Lt => PInf end
  | PInf, PInf | NInf, NInf => PInf
  | PInf, NInf | NInf, PInf => NInf
  end.

(** numpy division: never raises. *)
Definition ndiv (x y : num) : num :=
  match x, y with
  | NaN, _ | _, NaN => NaN
  | Fin a, Fin b =>
      if Qeq_bool b 0
      then match a ?= 0 with Eq => NaN | Gt => PInf | Lt => NInf end
      else Fin (a / b)
  | Fin _, PInf | Fin _, NInf => Fin 0
  | PInf, Fin b => if Qle_bool 0 b then PInf else NInf
  | NInf, Fin b => if Qle_bool 0 b then NInf else PInf
  | _, _ => NaN
  end.

Definition nabs (x : num) : num :=
  match x with
  | Fin q => Fin (Qabs q)
  | PInf | NInf => PInf
  | NaN => NaN
  end.

(** Ordered comparison; [None] when an operand is NaN. *)
Definition ncmp (x y : num) : option comparison :=
  match x, y with
  | NaN, _ | _, NaN => None
  | Fin a, Fin b => Some (a ?= b)
  | PInf, PInf | NInf, NInf => Some Eq
  | PInf, _ | _, NInf => Some Gt
  | NInf, _ | _, PInf => Some Lt
  end.

Definition nlt (x y : num) : bool :=
  match ncmp x y with Some Lt => true | _ => false end.
Definition ngt (x y : num) : bool :=
  match ncmp x y with Some Gt => true | _ => false end.
Definition nle (x y : num) : bool :=
  match ncmp x y with Some Lt | Some Eq => true | _ => false end.
Definition nge (x y : num) : bool :=
  match ncmp x y with Some Gt | Some Eq => true | _ => false end.
Definition neqb (x y : num) : bool :=
  match ncmp x y with Some Eq => true | _ => false end.
(** Python [!=]: true as soon as an operand is NaN. *)
Definition nne (x y : num) : bool := negb (neqb x y).

Definition of_Z (z : Z) : num := Fin (inject_Z z).
Definition of_nat (n : nat) : num := of_Z (Z.of_nat n).

(** Square root.  Exact on squares of rationals; other values are
    truncated to a fixed precision, as a float square root is rounded. *)
Definition sqrt_scale : Z := 1000000000.

Definition Qsqrt (q : Q) : Q :=
  let n := Qnum q in
  let d := Zpos (Qden q) in
  match (d * sqrt_scale)%Z with
  | Zpos p => Z.sqrt (n * d * sqrt_scale * sqrt_scale) # p
  | _ => 0
  end.

Definition nsqrt (x : num) : num :=
  match x with
  | Fin q => if Qle_bool 0 q then Fin (Qsqrt q) else NaN
  | PInf => PInf
  | NInf => NaN
  | NaN => NaN
  end.

(** [x ** 0.5] on a numpy float: like the square root, except that C's
    [pow] sends minus infinity to plus infinity. *)
Definition pow_half (x : num) : num :=
  match x with
  | NInf => PInf
  | _ => nsqrt x
  end.

(** Setoid equality of numbers: rationals up to [Qeq]. *)
Definition num_eq (x y : num) : Prop :=
  match x, y with
  | Fin a, Fin b => a == b
  | PInf, PInf | NInf, NInf | NaN, NaN => True
  | _, _ => False
  end.

End Num.
Export Num.

Declare Scope num_scope.
Delimit Scope num_scope with num.
Bind Scope num_scope with num.
Infix "+" := nadd : num_scope.
Infix "-" := nsub : num_scope.
Infix "*" := nmul : num_scope.
Infix "/" := ndiv : num_scope.
Notation "- x" := (nneg x) : num_scope.
Infix "<?" := nlt : num_scope.
Infix ">?" := ngt : num_scope.
Infix "<=?" := nle : num_scope.
Infix ">=?" := nge : num_scope.

(* ================================================================== *)
(** ** Python: exceptions, [str], [round] *)

Inductive exn : Type :=
| ValueError (msg : string)
| IndexError (msg : string)
| OverflowError (msg : string)
| KeyError (key : string).

Definition result (A : Type) : Type := (exn + A)%type.

Definition ret {A} (a : A) : result A := inr a.
Definition raise {A} (e : exn) : result A := inl e.
Definition bind {A B} (c : result A) (k : A -> result B) : result B :=
  match c with
  | inl e => inl e
  | inr a => k a
  end.

Notation "x <- c ;; k" := (bind c (fun x => k))
  (at level 61, c at next level, right associativity).
Notation "' p <- c ;; k" := (bind c (fun x => let 'p := x in k))
  (at level 61, p pattern, c at next level, right associativity).

(** [str(n)] for an int. *)
Definition str (z : Z) : string := NilZero.string_of_int (Z.to_int z).

(** [len(xs)] as a Python int. *)
Definition len {A} (l : list A) : Z := Z.of_nat (length l).

(** [", ".join(xs)]. *)
Fixpoint join (sep : string) (xs : list string) : string :=
  match xs with
  | [] => EmptyString
  | [x] => x
  | x :: rest => (x ++ sep ++ join sep rest)%string
  end.

(** Round half to even. *)
Definition round_half_even (q : Q) : Z :=
  let f := Qfloor q in
  match ((q - inject_Z f) ?= (1 # 2))%Q with
  | Lt => f
  | Gt => (f + 1)%Z
  | Eq => if Z.even f then f else (f + 1)%Z
  end.

Fixpoint pow10 (ndigits : nat) : positive :=
  match ndigits with
  | O => 1%positive
  | S n => (10 * pow10 n)%positive
  end.

(** [round(x, ndigits)] on the exact value: half-even at [ndigits]
    decimals, in lowest terms; NaN and the infinities are returned
    unchanged.  On doubles, Python's [round] rounds the exact value of the
    double and numpy's computes rint(x * 10^n) / 10^n: both are monotone
    and differ from this one only where the double is within its rounding
    error of a tie. *)
Definition round_q (q : Q) (ndigits : nat) : Q :=
  Qred (round_half_even (q * inject_Z (Zpos (pow10 ndigits))) # pow10 ndigits).

Definition round (x : num) (ndigits : nat) : num :=
  match x with
  | Fin q => Fin (round_q q ndigits)
  | _ => x
  end.

(** [xs[-k]] on a Python list, k >= 1. *)
Definition list_neg {A} (k : nat) (l : list A) : result A :=
  match nth_error (rev l) (k - 1) with
  | Some a => ret a
  | None => raise (IndexError "list index out of range")
  end.

(* ================================================================== *)
(** ** pandas / numpy columns *)

Module Pandas.

Definition Series := list num.

Definition of_prices (prices : list Q) : Series := map Fin prices.

Definition map2 {A B C} (f : A -> B -> C) (xs : list A) (ys : list B) : list C :=
  map (fun p => f (fst p) (snd p)) (combine xs ys).

(** Position [i] of a column; out of range never happens where it is used. *)
Definition at_ (s : Series) (i : nat) : num := nth i s NaN.

(** [s.iloc[-k]], k >= 1. *)
Definition iloc_neg {A} (k : nat) (s : list A) : result A :=
  match nth_error (rev s) (k - 1) with
  | Some a => ret a
  | None => raise (IndexError "single positional indexer is out-of-bounds")
  end.

(** [s.shift(1)]. *)
Definition shift1 (s : Series) : Series :=
  match s with
  | [] => []
  | _ => NaN :: removelast s
  end.

(** [s.diff()]. *)
Definition diff (s : Series) : Series := map2 nsub s (shift1 s).

(** [s.where(cond, other)]. *)
Definition where_ (s : Series) (cond : list bool) (other : num) : Series :=
  map2 (fun x (c : bool) => if c then x else other) s cond.

(** [s.dropna()]. *)
Definition dropna (s : Series) : Series := filter (fun x => negb (is_nan x)) s.

Definition nsum (l : list num) : num := fold_left nadd l (Fin 0).

(** [s.sum()], [s.mean()], [s.min()], [s.max()]: NaN entries are skipped. *)
Definition sum (s : Series) : num := nsum (dropna s).

Definition mean_all (l : list num) : num := (nsum l / of_nat (length l))%num.

Definition mean (s : Series) : num := mean_all (dropna s).

Definition nmin2 (x y : num) : num := if (y <? x)%num then y else x.
Definition nmax2 (x y : num) : num := if (y >? x)%num then y else x.

Definition min_all (l : list num) : num :=
  match l with
  | [] => NaN
  | x :: rest => fold_left nmin2 rest x
  end.

Definition max_all (l : list num) : num :=
  match l with
  | [] => NaN
  | x :: rest => fold_left nmax2 rest x
  end.

Definition min (s : Series) : num := min_all (dropna s).
Definition max (s : Series) : num := max_all (dropna s).

(** Sample standard deviation (ddof = 1). *)
Definition std_all (l : list num) : num :=
  match length l with
  | O | S O => NaN
  | S n =>
      let m := mean_all l in
      nsqrt (nsum (map (fun x => ((x - m) * (x - m))%num) l) / of_nat n)%num
  end.

(** [df[[a, b, c]].max(axis=1)] and [pd.concat([a, b, c], axis=1).max(axis=1)]:
    the row-wise maximum, NaN cells skipped. *)
Definition row_max3 (a b c : Series) : Series :=
  map2 (fun x yz => max [x; fst yz; snd yz]) a (combine b c).

(** [s.cumsum()] (the columns it is applied to hold no NaN). *)
Fixpoint cumsum_from (acc : num) (s : Series) : Series :=
  match s with
  | [] => []
  | x :: rest => let acc' := (acc + x)%num in acc' :: cumsum_from acc' rest
  end.

Definition cumsum (s : Series) : Series :=
  match s with
  | [] => []
  | x :: rest => x :: cumsum_from x rest
  end.

(** [s.rolling(window=w)]: a negative window is refused. *)
Definition rolling_window (window : Z) : result nat :=
  if (window <? 0)%Z
  then raise (ValueError "window must be an integer 0 or greater")
  else ret (Z.to_nat window).

(** The [w] entries ending at position [i]. *)
Definition window_at (s : Series) (w i : nat) : list num :=
  firstn w (skipn (i + 1 - w) s).

(** [.rolling(window=w).agg()] with the default [min_periods = w]: NaN
    until the window is full and whenever the window holds a NaN.  pandas
    replaces the infinities of the column by NaN before it aggregates. *)
Definition rolling_apply (agg : list num -> num) (w : nat) (s : Series) : Series :=
  map (fun i =>
         if (i + 1 <? w)%nat then NaN
         else let win := window_at s w i in
              if forallb is_finite win then agg win else NaN)
      (seq 0 (length s)).

Definition rolling_mean (window : Z) (s : Series) : result Series :=
  w <- rolling_window window ;; ret (rolling_apply mean_all w s).
Definition rolling_std (window : Z) (s : Series) : result Series :=
  w <- rolling_window window ;; ret (rolling_apply std_all w s).
Definition rolling_min (window : Z) (s : Series) : result Series :=
  w <- rolling_window window ;; ret (rolling_apply min_all w s).
Definition rolling_max (window : Z) (s : Series) : result Series :=
  w <- rolling_window window ;; ret (rolling_apply max_all w s).

(** [s.ewm(span=span, adjust=False).mean()] on a column of finite values:
    y_0 = x_0, y_t = (1 - alpha) y_{t-1} + alpha x_t, alpha = 2/(span+1). *)
Fixpoint ewm_from (alpha : Q) (prev : Q) (xs : list Q) : list Q :=
  match xs with
  | [] => []
  | x :: rest =>
      let y := (1 - alpha) * prev + alpha * x in
      y :: ewm_from alpha y rest
  end.

Definition ewm_mean (span : Z) (xs : list Q) : result (list Q) :=
  if (span <? 1)%Z
  then raise (ValueError "span must satisfy: span >= 1")
  else
    let alpha := 2 / (inject_Z span + 1) in
    ret (match xs with
         | [] => []
         | x :: rest => x :: ewm_from alpha x rest
         end).

(** [s.tail(n)]. *)
Definition tail (n : Z) (s : Series) : Series :=
  if (n =? 0)%Z then []
  else if (0 <? n)%Z then skipn (length s - Z.to_nat n) s
  else skipn (Z.to_nat (- n)) s.

End Pandas.

(** A candle: a JSON object with numeric fields. *)
Definition candle : Type := list (string * Q).

Fixpoint lookup {V} (k : string) (d : list (string * V)) : option V :=
  match d with
  | [] => None
  | (k', v) :: rest => if String.eqb k k' then Some v else lookup k rest
  end.

(** [k in d]. *)
Definition has_key {V} (k : string) (d : list (string * V)) : bool :=
  match lookup k d with Some _ => true | None => false end.

(** [pd.DataFrame(candles)[field]]: a missing cell is NaN. *)
Definition column (field : string) (candles : list candle) : Pandas.Series :=
  map (fun c => match lookup field c with Some q => Fin q | None => NaN end) candles.

(** [df[field]] on [df = pd.DataFrame(candles)], as a script reads its
    first column: a frame built from no candle has no columns, and the
    access raises KeyError. *)
Definition frame_column (field : string) (candles : list candle)
  : result Pandas.Series :=
  match candles with
  | [] => raise (KeyError field)
  | _ :: _ => ret (column field candles)
  end.

(** The loop that every candle script runs after its length check:
    [for i, candle in enumerate(candles): missing = [...]; if missing: raise]. *)
Fixpoint check_fields_from (i : nat) (required_fields : list string)
         (candles : list candle) : result unit :=
  match candles with
  | [] => ret tt
  | c :: rest =>
      match filter (fun f => negb (has_key f c)) required_fields with
      | [] => check_fields_from (S i) required_fields rest
      | missing =>
          raise (ValueError ("Candle " ++ str (Z.of_nat i) ++ " missing fields: "
                             ++ join ", " missing))
      end
  end.

Definition check_fields := check_fields_from 0.

(** Float comparisons between finite values. *)
Definition Qltb (a b : Q) : bool := match a ?= b with Lt => true | _ => false end.
Definition Qgtb (a b : Q) : bool := match a ?= b with Gt => true | _ => false end.
Definition Qleb (a b : Q) : bool := negb (Qgtb a b).
Definition Qgeb (a b : Q) : bool := negb (Qltb a b).

(** The message of every length check but VWAP's:
    [f"Need at least {min_required} {noun}, got {len(data)}"]. *)
Definition need_at_least (min_required : Z) (noun : string) (got : Z) : string :=
  ("Need at least " ++ str min_required ++ " " ++ noun ++ ", got " ++ str got)%string.

(* ================================================================== *)
(** ** sma.py *)

Module Sma.

Record output := { sma : num; period : Z }.

Definition calculate_sma (prices : list Q) (period : Z) : result output :=
  if (len prices <? period)%Z
  then raise (ValueError (need_at_least period "prices" (len prices)))
  else
    means <- Pandas.rolling_mean period (Pandas.of_prices prices) ;;
    sma_value <- Pandas.iloc_neg 1 means ;;
    ret {| sma := round sma_value 2; period := period |}.

End Sma.

(* ================================================================== *)
(** ** ema.py *)

Module Ema.

Record output :=
  { ema : num; period : Z; current_price : num; price_trend : string }.

Definition calculate_ema (prices : list Q) (period : Z) (smoothing : Q)
  : result output :=
  if (len prices <? period)%Z
  then raise (ValueError (need_at_least period "prices" (len prices)))
  else
    emas <- Pandas.ewm_mean period prices ;;
    ema_value <- Pandas.iloc_neg 1 emas ;;
    current_price <- list_neg 1 prices ;;
    let trend :=
      if Qgtb current_price ema_value then "above_ema"%string
      else if Qltb current_price ema_value then "below_ema"%string
      else "at_ema"%string in
    ret {| ema := round (Fin ema_value) 2;
           period := period;
           current_price := round (Fin current_price) 2;
           price_trend := trend |}.

(** [main]: argparse supplies [--period] (default 12) and [--smoothing]
    (default 2.0) and hands both to [calculate_ema]. *)
Definition default_period : Z := 12.
Definition default_smoothing : Q := 2.0.

Definition main (prices : list Q) (period : option Z) (smoothing : option Q)
  : result output :=
  calculate_ema prices
    (match period with Some p => p | None => default_period end)
    (match smoothing with Some s => s | None => default_smoothing end).

End Ema.

(* ================================================================== *)
(** ** rsi.py *)

Module Rsi.

Definition RSI_OVERBOUGHT : Z := 70.
Definition RSI_OVERSOLD : Z := 30.

Definition get_rsi_signal (rsi_value : num) (overbought oversold : Z) : string :=
  if (rsi_value >? of_Z overbought)%num then "overbought"
  else if (rsi_value <? of_Z oversold)%num then "oversold"
  else "neutral".

Record output := { rsi : num; period : Z; signal : string }.

Definition calculate_rsi (prices : list Q) (period overbought oversold : Z)
  : result output :=
  if (len prices <? period + 1)%Z
  then raise (ValueError (need_at_least (period + 1) "prices" (len prices)))
  else
    let series := Pandas.of_prices prices in
    let delta := Pandas.diff series in
    let gain := Pandas.where_ delta (map (fun d => (d >? Fin 0)%num) delta) (Fin 0) in
    let loss :=
      map nneg (Pandas.where_ delta (map (fun d => (d <? Fin 0)%num) delta) (Fin 0)) in
    avg_gain <- Pandas.rolling_mean period gain ;;
    avg_loss <- Pandas.rolling_mean period loss ;;
    let rs := Pandas.map2 ndiv avg_gain avg_loss in
    let rsi_series := map (fun r => (Fin 100 - Fin 100 / (Fin 1 + r))%num) rs in
    rsi_value <- Pandas.iloc_neg 1 rsi_series ;;
    ret {| rsi := round rsi_value 2;
           period := period;
           signal := get_rsi_signal rsi_value overbought oversold |}.

End Rsi.

(* ================================================================== *)
(** ** macd.py *)

Module Macd.

Record output :=
  { macd : num; signal : num; histogram : num; crossover_signal : string;
    fast_period : Z; slow_period : Z; signal_period : Z }.

(** The [if]/[elif] chain of [calculate_macd] (lines 63-79). *)
Definition crossover_label
  (prev_macd prev_signal prev_histogram macd_value signal_value histogram_value : Q)
  : string :=
  if Qleb prev_macd prev_signal && Qgtb macd_value signal_value
  then "bullish_crossover"
  else if Qgeb prev_macd prev_signal && Qltb macd_value signal_value
  then "bearish_crossover"
  else if Qgtb histogram_value 0 && Qgtb histogram_value prev_histogram
  then "bullish_momentum"
  else if Qltb histogram_value 0 && Qltb histogram_value prev_histogram
  then "bearish_momentum"
  else if Qgtb histogram_value 0 then "bullish"
  else if Qltb histogram_value 0 then "bearish"
  else "neutral".

Definition calculate_macd (prices : list Q) (fast_period slow_period signal_period : Z)
  : result output :=
  let min_required := (slow_period + signal_period)%Z in
  if (len prices <? min_required)%Z
  then raise (ValueError (need_at_least min_required "prices" (len prices)))
  else
    ema_fast <- Pandas.ewm_mean fast_period prices ;;
    ema_slow <- Pandas.ewm_mean slow_period prices ;;
    let macd_line := Pandas.map2 Qminus ema_fast ema_slow in
    signal_line <- Pandas.ewm_mean signal_period macd_line ;;
    let histogram := Pandas.map2 Qminus macd_line signal_line in
    macd_value <- Pandas.iloc_neg 1 macd_line ;;
    signal_value <- Pandas.iloc_neg 1 signal_line ;;
    histogram_value <- Pandas.iloc_neg 1 histogram ;;
    prev_macd <- Pandas.iloc_neg 2 macd_line ;;
    prev_signal <- Pandas.iloc_neg 2 signal_line ;;
    prev_histogram <- Pandas.iloc_neg 2 histogram ;;
    ret {| macd := round (Fin macd_value) 3;
           signal := round (Fin signal_value) 3;
           histogram := round (Fin histogram_value) 3;
           crossover_signal :=
             crossover_label prev_macd prev_signal prev_histogram
                             macd_value signal_value histogram_value;
           fast_period := fast_period;
           slow_period := slow_period;
           signal_period := signal_period |}.

End Macd.

(* ================================================================== *)
(** ** bollinger_bands.py *)

Module BollingerBands.

Record output :=
  { upper_band : num; middle_band : num; lower_band : num; bandwidth : num;
    percent_b : num; current_price : num; signal : string;
    period : Z; std_dev : Q }.

(** The unrounded quantities of lines 39-52. *)
Record bands :=
  { b_middle : num; b_upper : num; b_lower : num; b_price : Q; b_bandwidth : num }.

Definition compute_bands (prices : list Q) (period : Z) (std_dev : Q) : result bands :=
  let series := Pandas.of_prices prices in
  means <- Pandas.rolling_mean period series ;;
  middle_band <- Pandas.iloc_neg 1 means ;;
  stds <- Pandas.rolling_std period series ;;
  std <- Pandas.iloc_neg 1 stds ;;
  let upper_band := (middle_band + Fin std_dev * std)%num in
  let lower_band := (middle_band - Fin std_dev * std)%num in
  current_price <- list_neg 1 prices ;;
  let bandwidth := (upper_band - lower_band)%num in
  ret {| b_middle := middle_band; b_upper := upper_band; b_lower := lower_band;
         b_price := current_price; b_bandwidth := bandwidth |}.

Definition percent_b_of (b : bands) : num :=
  if nne (b_bandwidth b) (Fin 0)
  then ((Fin (b_price b) - b_lower b) / b_bandwidth b)%num
  else Fin 0.5.

Definition signal_of (percent_b : num) : string :=
  if (percent_b >? Fin 1)%num then "overbought"
  else if (percent_b <? Fin 0)%num then "oversold"
  else if (percent_b >? Fin 0.8)%num then "near_upper"
  else if (percent_b <? Fin 0.2)%num then "near_lower"
  else "neutral".

Definition calculate_bollinger_bands (prices : list Q) (period : Z) (std_dev : Q)
  : result output :=
  if (len prices <? period)%Z
  then raise (ValueError (need_at_least period "prices" (len prices)))
  else
    b <- compute_bands prices period std_dev ;;
    let percent_b := percent_b_of b in
    ret {| upper_band := round (b_upper b) 2;
           middle_band := round (b_middle b) 2;
           lower_band := round (b_lower b) 2;
           bandwidth := round (b_bandwidth b) 2;
           percent_b := round percent_b 3;
           current_price := round (Fin (b_price b)) 2;
           signal := signal_of percent_b;
           period := period;
           std_dev := std_dev |}.

End BollingerBands.

(* ================================================================== *)
(** ** stochastic.py *)

Module Stochastic.

Record output :=
  { k_percent : num; d_percent : num; signal : string;
    k_period : Z; d_period : Z; overbought : Z; oversold : Z }.

(** The [if]/[elif] chain of lines 68-90. *)
Definition signal_of (prev_k prev_d k_value d_value : num) (overbought oversold : Z)
  : string :=
  if (prev_k <=? prev_d)%num && (k_value >? d_value)%num
  then (if (k_value <? of_Z oversold)%num
        then "bullish_crossover_oversold" else "bullish_crossover")
  else if (prev_k >=? prev_d)%num && (k_value <? d_value)%num
  then (if (k_value >? of_Z overbought)%num
        then "bearish_crossover_overbought" else "bearish_crossover")
  else if (k_value >? of_Z overbought)%num && (d_value >? of_Z overbought)%num
  then "overbought"
  else if (k_value <? of_Z oversold)%num && (d_value <? of_Z oversold)%num
  then "oversold"
  else if (k_value >? of_Z overbought)%num then "near_overbought"
  else if (k_value <? of_Z oversold)%num then "near_oversold"
  else "neutral".

(** Lines 51-55: the %K column. *)
Definition k_percent_column (candles : list candle) (k_period : Z)
  : result Pandas.Series :=
  low <- frame_column "low" candles ;;
  low_min <- Pandas.rolling_min k_period low ;;
  high_max <- Pandas.rolling_max k_period (column "high" candles) ;;
  ret (map (fun x => (Fin 100 * x)%num)
           (Pandas.map2 ndiv
              (Pandas.map2 nsub (column "close" candles) low_min)
              (Pandas.map2 nsub high_max low_min))).

Definition calculate_stochastic (candles : list candle)
  (k_period d_period overbought oversold : Z) : result output :=
  let min_required := (k_period + d_period - 1)%Z in
  if (len candles <? min_required)%Z
  then raise (ValueError (need_at_least min_required "candles" (len candles)))
  else
    _ <- check_fields ["high"; "low"; "close"]%string candles ;;
    k_col <- k_percent_column candles k_period ;;
    d_col <- Pandas.rolling_mean d_period k_col ;;
    k_value <- Pandas.iloc_neg 1 k_col ;;
    d_value <- Pandas.iloc_neg 1 d_col ;;
    prev_k <- Pandas.iloc_neg 2 k_col ;;
    prev_d <- Pandas.iloc_neg 2 d_col ;;
    ret {| k_percent := round k_value 2;
           d_percent := round d_value 2;
           signal := signal_of prev_k prev_d k_value d_value overbought oversold;
           k_period := k_period;
           d_period := d_period;
           overbought := overbought;
           oversold := oversold |}.

End Stochastic.

(* ================================================================== *)
(** ** atr.py *)

Module Atr.

Record output := { atr : num; half_atr : num; double_atr : num; period : Z }.

Definition calculate_atr (candles : list candle) (period : Z) : result output :=
  if (len candles <? period + 1)%Z
  then raise (ValueError (need_at_least (period + 1) "candles" (len candles)))
  else
    _ <- check_fields ["open"; "high"; "low"; "close"]%string candles ;;
    close <- frame_column "close" candles ;;
    let prev_close := Pandas.shift1 close in
    let high_low := Pandas.map2 nsub (column "high" candles) (column "low" candles) in
    let high_close := map nabs (Pandas.map2 nsub (column "high" candles) prev_close) in
    let low_close := map nabs (Pandas.map2 nsub (column "low" candles) prev_close) in
    let tr := Pandas.row_max3 high_low high_close low_close in
    let tr_clean := Pandas.dropna tr in
    let atr_value := Pandas.mean (Pandas.tail period tr_clean) in
    ret {| atr := round atr_value 2;
           half_atr := round (atr_value * Fin 0.5)%num 2;
           double_atr := round (atr_value * Fin 2.0)%num 2;
           period := period |}.

End Atr.

(* ================================================================== *)
(** ** adx.py *)

Module Adx.

Record output :=
  { adx : num; plus_di : num; minus_di : num; trend_strength : string;
    trend_direction : string; signal : string; period : Z }.

(** [np.where(cond, a, 0)]. *)
Definition np_where (cond : list bool) (a : Pandas.Series) (other : num) : Pandas.Series :=
  Pandas.map2 (fun (c : bool) x => if c then x else other) cond a.

(** [df.loc[i, col] = v] on the default integer index. *)
Fixpoint set_at (i : nat) (v : num) (s : Pandas.Series) : Pandas.Series :=
  match s, i with
  | [], _ => []
  | _ :: rest, O => v :: rest
  | x :: rest, S j => x :: set_at j v rest
  end.

(** One assignment of Wilder's recurrence (lines 74-76, 92):
    [col[i] = (col[i-1] * (period - 1) + raw[i]) / period]. *)
Definition wilder_update (period : Z) (raw : Pandas.Series) (i : nat)
  (col : Pandas.Series) : Pandas.Series :=
  set_at i ((Pandas.at_ col (i - 1) * of_Z (period - 1) + Pandas.at_ raw i)
            / of_Z period)%num col.

(** Lines 49-62: true range and directional movement. *)
Record raw_columns :=
  { tr : Pandas.Series; plus_dm : Pandas.Series; minus_dm : Pandas.Series }.

Definition raw_of (candles : list candle) : raw_columns :=
  let high := column "high" candles in
  let low := column "low" candles in
  let close := column "close" candles in
  let prev_close := Pandas.shift1 close in
  let hl := Pandas.map2 nsub high low in
  let hc := map nabs (Pandas.map2 nsub high prev_close) in
  let lc := map nabs (Pandas.map2 nsub low prev_close) in
  let high_diff := Pandas.map2 nsub high (Pandas.shift1 high) in
  let low_diff := Pandas.map2 nsub (Pandas.shift1 low) low in
  {| tr := Pandas.row_max3 hl hc lc;
     plus_dm :=
       np_where (Pandas.map2 (fun h l => (h >? l)%num && (h >? Fin 0)%num)
                             high_diff low_diff) high_diff (Fin 0);
     minus_dm :=
       np_where (Pandas.map2 (fun l h => (l >? h)%num && (l >? Fin 0)%num)
                             low_diff high_diff) low_diff (Fin 0) |}.

(** Lines 64-76: the three smoothed columns. *)
Record smoothed_columns :=
  { atr : Pandas.Series; plus_dm_smooth : Pandas.Series;
    minus_dm_smooth : Pandas.Series }.

(** The body of [for i in range(period, len(df))] at index [i]. *)
Definition smooth_body (period : Z) (raw : raw_columns) (df : smoothed_columns)
  (i : nat) : smoothed_columns :=
  if (Z.of_nat i =? period)%Z then df
  else
    {| atr := wilder_update period (tr raw) i (atr df);
       plus_dm_smooth := wilder_update period (plus_dm raw) i (plus_dm_smooth df);
       minus_dm_smooth := wilder_update period (minus_dm raw) i (minus_dm_smooth df) |}.

(** [range(start, stop)] for a start that is not negative. *)
Definition range (start : Z) (stop : nat) : list nat :=
  seq (Z.to_nat start) (stop - Z.to_nat start).

(** [n] is [len(df)], the number of candles. *)
Definition smooth (period : Z) (n : nat) (raw : raw_columns) : result smoothed_columns :=
  atr0 <- Pandas.rolling_mean period (tr raw) ;;
  plus0 <- Pandas.rolling_mean period (plus_dm raw) ;;
  minus0 <- Pandas.rolling_mean period (minus_dm raw) ;;
  ret (fold_left (smooth_body period raw)
                 (range period n)
                 {| atr := atr0; plus_dm_smooth := plus0; minus_dm_smooth := minus0 |}).

Definition strength_of (adx_value : num) : string :=
  if (adx_value <? Fin 20)%num then "no_trend"
  else if (adx_value <? Fin 25)%num then "weak_trend"
  else if (adx_value <? Fin 50)%num then "strong_trend"
  else if (adx_value <? Fin 75)%num then "very_strong_trend"
  else "extremely_strong_trend".

Definition direction_of (plus_di minus_di : num) : string :=
  if (plus_di >? minus_di)%num then "bullish"
  else if (minus_di >? plus_di)%num then "bearish"
  else "neutral".

Definition signal_of (strength : string)
  (prev_adx prev_plus_di prev_minus_di adx_value plus_di minus_di : num) : string :=
  if (prev_plus_di <=? prev_minus_di)%num && (plus_di >? minus_di)%num
  then "bullish_crossover"
  else if (prev_plus_di >=? prev_minus_di)%num && (plus_di <? minus_di)%num
  then "bearish_crossover"
  else if (adx_value >? prev_adx)%num && (adx_value >? Fin 25)%num
  then "trend_strengthening"
  else if (adx_value <? prev_adx)%num && (adx_value >? Fin 25)%num
  then "trend_weakening"
  else strength.

Definition calculate_adx (candles : list candle) (period : Z) : result output :=
  let min_required := (period * 2 + 1)%Z in
  if (len candles <? min_required)%Z
  then raise (ValueError (need_at_least min_required "candles" (len candles)))
  else
    _ <- check_fields ["high"; "low"; "close"]%string candles ;;
    _ <- frame_column "close" candles ;;
    let raw := raw_of candles in
    df <- smooth period (length candles) raw ;;
    let plus_di_col :=
      Pandas.map2 ndiv (map (nmul (Fin 100)) (plus_dm_smooth df)) (atr df) in
    let minus_di_col :=
      Pandas.map2 ndiv (map (nmul (Fin 100)) (minus_dm_smooth df)) (atr df) in
    let di_sum := Pandas.map2 nadd plus_di_col minus_di_col in
    let di_diff := map nabs (Pandas.map2 nsub plus_di_col minus_di_col) in
    let dx := Pandas.map2 ndiv (map (nmul (Fin 100)) di_diff) di_sum in
    adx0 <- Pandas.rolling_mean period dx ;;
    let adx_col :=
      fold_left (fun col i => wilder_update period dx i col)
                (range (period * 2) (length candles)) adx0 in
    adx_value <- Pandas.iloc_neg 1 adx_col ;;
    plus_di <- Pandas.iloc_neg 1 plus_di_col ;;
    minus_di <- Pandas.iloc_neg 1 minus_di_col ;;
    prev_adx <- Pandas.iloc_neg 2 adx_col ;;
    prev_plus_di <- Pandas.iloc_neg 2 plus_di_col ;;
    prev_minus_di <- Pandas.iloc_neg 2 minus_di_col ;;
    let strength := strength_of adx_value in
    ret {| adx := round adx_value 2;
           plus_di := round plus_di 2;
           minus_di := round minus_di 2;
           trend_strength := strength;
           trend_direction := direction_of plus_di minus_di;
           signal := signal_of strength prev_adx prev_plus_di prev_minus_di
                               adx_value plus_di minus_di;
           period := period |}.

End Adx.

(* ================================================================== *)
(** ** vwap.py *)

Module Vwap.

Record output :=
  { vwap : num; current_price : num; deviation_pct : num; upper_band : num;
    lower_band : num; signal : string; total_volume : Z }.

(** [int(x)] on a float: truncation toward zero; NaN and the infinities
    raise. *)
Definition int_of (x : num) : result Z :=
  match x with
  | Fin q => ret (Z.quot (Qnum q) (Zpos (Qden q)))
  | NaN => raise (ValueError "cannot convert float NaN to integer")
  | _ => raise (OverflowError "cannot convert float infinity to integer")
  end.

Definition signal_of (deviation : num) : string :=
  if (deviation >? Fin 2)%num then "significantly_above"
  else if (deviation >? Fin 0.5)%num then "above"
  else if (deviation <? Fin (-2))%num then "significantly_below"
  else if (deviation <? Fin (-0.5))%num then "below"
  else "near_vwap".

Definition calculate_vwap (candles : list candle) : result output :=
  if (len candles <? 1)%Z
  then raise (ValueError "Need at least 1 candle")
  else
    _ <- check_fields ["high"; "low"; "close"; "volume"]%string candles ;;
    let high := column "high" candles in
    let low := column "low" candles in
    let close := column "close" candles in
    let volume := column "volume" candles in
    let typical_price :=
      map (fun x => (x / Fin 3)%num)
          (Pandas.map2 nadd (Pandas.map2 nadd high low) close) in
    let pv := Pandas.map2 nmul typical_price volume in
    let cumulative_pv := Pandas.cumsum pv in
    let cumulative_volume := Pandas.cumsum volume in
    cpv <- Pandas.iloc_neg 1 cumulative_pv ;;
    cvol <- Pandas.iloc_neg 1 cumulative_volume ;;
    let vwap_value := (cpv / cvol)%num in
    current_price <- Pandas.iloc_neg 1 close ;;
    let deviation := ((current_price - vwap_value) / vwap_value * Fin 100)%num in
    let signal := signal_of deviation in
    let squared_diff :=
      map (fun tp => ((tp - vwap_value) * (tp - vwap_value))%num) typical_price in
    let variance :=
      (Pandas.sum (Pandas.map2 nmul squared_diff volume) / Pandas.sum volume)%num in
    let std_dev := pow_half variance in
    total <- int_of (Pandas.sum volume) ;;
    ret {| vwap := round vwap_value 2;
           current_price := round current_price 2;
           deviation_pct := round deviation 2;
           upper_band := round (vwap_value + std_dev)%num 2;
           lower_band := round (vwap_value - std_dev)%num 2;
           signal := signal;
           total_volume := total |}.

End Vwap.

(* ================================================================== *)
(** ** historical_volatility.py *)

Module HistoricalVolatility.

Record output :=
  { daily_vol : num; weekly_vol : num; monthly_vol : num; annualized_vol : num;
    percentile_rank : num; regime : string; min_vol : num; max_vol : num;
    mean_vol : num; period : Z; annualize_factor : Z }.

Definition regime_of (annualized_vol_pct : num) : string :=
  if (annualized_vol_pct <? Fin 10)%num then "very_low"
  else if (annualized_vol_pct <? Fin 15)%num then "low"
  else if (annualized_vol_pct <? Fin 20)%num then "normal"
  else if (annualized_vol_pct <? Fin 30)%num then "elevated"
  else if (annualized_vol_pct <? Fin 50)%num then "high"
  else "extreme".

Section WithLog.

(** [numpy.log], which the rationals cannot express, is a parameter. *)
Variable np_log : num -> num.

Definition calculate_historical_volatility (prices : list Q)
  (period annualize_factor : Z) (method : string) : result output :=
  if (len prices <? period + 1)%Z
  then raise (ValueError (need_at_least (period + 1) "prices" (len prices)))
  else
    let series := Pandas.of_prices prices in
    let ratio := Pandas.map2 ndiv series (Pandas.shift1 series) in
    let returns :=
      if String.eqb method "log_returns"
      then map np_log ratio
      else map (fun r => (r - Fin 1)%num) ratio in
    let returns := Pandas.dropna returns in
    rolling_std <- Pandas.rolling_std period returns ;;
    daily_vol <- Pandas.iloc_neg 1 rolling_std ;;
    let sqrt_af := nsqrt (of_Z annualize_factor) in
    let annualized_vol := (daily_vol * sqrt_af)%num in
    let daily_vol_pct := (daily_vol * Fin 100)%num in
    let annualized_vol_pct := (annualized_vol * Fin 100)%num in
    let weekly_vol := (daily_vol * nsqrt (Fin 5) * Fin 100)%num in
    let monthly_vol := (daily_vol * nsqrt (Fin 21) * Fin 100)%num in
    let all_vols := Pandas.dropna rolling_std in
    let nonempty := (0 <? length all_vols)%nat in
    let percentile_rank :=
      if nonempty
      then (of_nat (length (filter (fun v => (v <? daily_vol)%num) all_vols))
            / of_nat (length all_vols) * Fin 100)%num
      else Fin 50 in
    let scaled (v : num) := if nonempty then (v * sqrt_af * Fin 100)%num else Fin 0 in
    ret {| daily_vol := round daily_vol_pct 2;
           weekly_vol := round weekly_vol 2;
           monthly_vol := round monthly_vol 2;
           annualized_vol := round annualized_vol_pct 2;
           percentile_rank := round percentile_rank 1;
           regime := regime_of annualized_vol_pct;
           min_vol := round (scaled (Pandas.min all_vols)) 2;
           max_vol := round (scaled (Pandas.max all_vols)) 2;
           mean_vol := round (scaled (Pandas.mean all_vols)) 2;
           period := period;
           annualize_factor := annualize_factor |}.

End WithLog.

End HistoricalVolatility.

(* ================================================================== *)
(** ** pivot_points.py *)

Module PivotPoints.

(** The [levels] dict: keys in insertion order, prices rounded to 2 places. *)
Definition levels_t : Type := list (string * Q).

Definition calculate_standard_pivots (high low close : Q) : levels_t :=
  let pivot := (high + low + close) / 3 in
  let r1 := (2 * pivot) - low in
  let r2 := pivot + (high - low) in
  let r3 := high + 2 * (pivot - low) in
  let s1 := (2 * pivot) - high in
  let s2 := pivot - (high - low) in
  let s3 := low - 2 * (high - pivot) in
  [ ("r3", round_q r3 2); ("r2", round_q r2 2); ("r1", round_q r1 2);
    ("pivot", round_q pivot 2);
    ("s1", round_q s1 2); ("s2", round_q s2 2); ("s3", round_q s3 2) ]%string.

Definition calculate_fibonacci_pivots (high low close : Q) : levels_t :=
  let pivot := (high + low + close) / 3 in
  let range_hl := high - low in
  let r1 := pivot + (0.382 * range_hl) in
  let r2 := pivot + (0.618 * range_hl) in
  let r3 := pivot + (1.000 * range_hl) in
  let s1 := pivot - (0.382 * range_hl) in
  let s2 := pivot - (0.618 * range_hl) in
  let s3 := pivot - (1.000 * range_hl) in
  [ ("r3", round_q r3 2); ("r2", round_q r2 2); ("r1", round_q r1 2);
    ("pivot", round_q pivot 2);
    ("s1", round_q s1 2); ("s2", round_q s2 2); ("s3", round_q s3 2) ]%string.

Definition calculate_camarilla_pivots (high low close : Q) : levels_t :=
  let range_hl := high - low in
  let r4 := close + (range_hl * 1.1 / 2) in
  let r3 := close + (range_hl * 1.1 / 4) in
  let r2 := close + (range_hl * 1.1 / 6) in
  let r1 := close + (range_hl * 1.1 / 12) in
  let s1 := close - (range_hl * 1.1 / 12) in
  let s2 := close - (range_hl * 1.1 / 6) in
  let s3 := close - (range_hl * 1.1 / 4) in
  let s4 := close - (range_hl * 1.1 / 2) in
  let pivot := close in
  [ ("r4", round_q r4 2); ("r3", round_q r3 2); ("r2", round_q r2 2);
    ("r1", round_q r1 2); ("pivot", round_q pivot 2);
    ("s1", round_q s1 2); ("s2", round_q s2 2); ("s3", round_q s3 2);
    ("s4", round_q s4 2) ]%string.

(** [{"level": k, "price": v}]. *)
Record level_ref := { level : string; price : Q }.

Record output :=
  { type : string;
    levels : levels_t;
    current_price : option Q;
    nearest_resistance : option level_ref;
    nearest_support : option level_ref;
    position : option string }.

(** [min(items, key=lambda x: x[1])]: the first item of least price. *)
Definition min_by_price (items : list (string * Q)) : option (string * Q) :=
  match items with
  | [] => None
  | x :: rest =>
      Some (fold_left (fun best y => if Qltb (snd y) (snd best) then y else best) rest x)
  end.

(** [max(items, key=lambda x: x[1])]: the first item of greatest price. *)
Definition max_by_price (items : list (string * Q)) : option (string * Q) :=
  match items with
  | [] => None
  | x :: rest =>
      Some (fold_left (fun best y => if Qgtb (snd y) (snd best) then y else best) rest x)
  end.

Definition to_ref (item : option (string * Q)) : option level_ref :=
  match item with
  | Some (k, v) => Some {| level := k; price := v |}
  | None => None
  end.

Definition startswith (pre : string) (k : string) : bool := String.prefix pre k.

Definition calculate_pivot_points (prev_candle : candle) (pivot_type : string)
  (current_price : option Q) : result output :=
  match filter (fun f => negb (has_key f prev_candle)) ["high"; "low"; "close"]%string with
  | (_ :: _) as missing =>
      raise (ValueError ("Previous candle missing fields: " ++ join ", " missing))
  | [] =>
      let field f := match lookup f prev_candle with Some q => q | None => 0 end in
      let high := field "high"%string in
      let low := field "low"%string in
      let close := field "close"%string in
      let levels :=
        if String.eqb pivot_type "fibonacci" then calculate_fibonacci_pivots high low close
        else if String.eqb pivot_type "camarilla" then calculate_camarilla_pivots high low close
        else calculate_standard_pivots high low close in
      match current_price with
      | None =>
          ret {| type := pivot_type; levels := levels; current_price := None;
                 nearest_resistance := None; nearest_support := None;
                 position := None |}
      | Some current_price =>
          let pivot := match lookup "pivot"%string levels with Some v => v | None => 0 end in
          if Qgtb current_price pivot
          then
            let resistances :=
              filter (fun kv => startswith "r" (fst kv) && Qgtb (snd kv) current_price)
                     levels in
            let supports :=
              filter (fun kv => startswith "s" (fst kv) || String.eqb (fst kv) "pivot")
                     levels in
            ret {| type := pivot_type; levels := levels;
                   current_price := Some (round_q current_price 2);
                   nearest_resistance := to_ref (min_by_price resistances);
                   nearest_support := to_ref (max_by_price supports);
                   position := Some "above_pivot"%string |}
          else
            let supports :=
              filter (fun kv => startswith "s" (fst kv) && Qltb (snd kv) current_price)
                     levels in
            let resistances :=
              filter (fun kv => startswith "r" (fst kv) || String.eqb (fst kv) "pivot")
                     levels in
            ret {| type := pivot_type; levels := levels;
                   current_price := Some (round_q current_price 2);
                   nearest_resistance := to_ref (min_by_price resistances);
                   nearest_support := to_ref (max_by_price supports);
                   position := Some "below_pivot"%string |}
      end
  end.

End PivotPoints.


(* ================================================================== *)
(** ** expected_move.py *)

Module ExpectedMove.

(** What a call can raise: one of the exceptions above, or the
    ZeroDivisionError of a division of Python floats. *)
Inductive raised : Type :=
| Raised (e : exn)
| ZeroDivisionError.

Definition outcome (A : Type) : Type := (raised + A)%type.

(** [a / b] on Python floats. *)
Definition float_div (a b : Q) : outcome Q :=
  if Qeq_bool b 0 then inl ZeroDivisionError else inr (a / b).

Record move := { raw : Q; adjusted : Q; percentage : Q; raw_percentage : Q }.

Record boundaries := { upper_1x : Q; lower_1x : Q; upper_2x : Q; lower_2x : Q }.

Record strikes :=
  { short_call : Q; short_put : Q; long_call : Q; long_put : Q; description : string }.

Record iron_condor := { conservative : strikes; aggressive : strikes }.

Record probabilities :=
  { stay_within_1x : Z; stay_within_2x : Z; touch_1x_boundary : Z }.

Record output :=
  { spot_price : Q; straddle_price : Q; expected_move : move;
    move_boundaries : boundaries; iron_condor_strikes : iron_condor;
    probability_estimates : probabilities; multiplier_used : Q }.

Definition calculate_expected_move (spot_price : Q)
  (atm_call atm_put straddle_price : option Q) (multiplier : Q) : outcome output :=
  match
    match straddle_price, atm_call, atm_put with
    | Some s, _, _ => inr s
    | None, Some c, Some p => inr (c + p)
    | None, _, _ =>
        inl (Raised (ValueError
               "Must provide either straddle_price or both atm_call and atm_put"))
    end
  with
  | inl e => inl e
  | inr straddle =>
      let raw_expected_move := straddle in
      let adjusted_move := raw_expected_move * multiplier in
      let move_up := spot_price + adjusted_move in
      let move_down := spot_price - adjusted_move in
      match float_div adjusted_move spot_price with
      | inl e => inl e
      | inr q1 =>
          let move_pct := q1 * 100 in
          match float_div raw_expected_move spot_price with
          | inl e => inl e
          | inr q2 =>
              let raw_move_pct := q2 * 100 in
              let two_x_move_up := spot_price + (adjusted_move * 2) in
              let two_x_move_down := spot_price - (adjusted_move * 2) in
              let short_call_strike := round_q (spot_price + (adjusted_move * 0.5)) 1 in
              let short_put_strike := round_q (spot_price - (adjusted_move * 0.5)) 1 in
              let long_call_strike := round_q move_up 1 in
              let long_put_strike := round_q move_down 1 in
              let wide_short_call := round_q move_up 1 in
              let wide_short_put := round_q move_down 1 in
              let wide_long_call := round_q (spot_price + (adjusted_move * 1.5)) 1 in
              let wide_long_put := round_q (spot_price - (adjusted_move * 1.5)) 1 in
              let prob_within_1x := 68%Z in
              let prob_within_2x := 95%Z in
              let prob_touch_1x := (100 - prob_within_1x)%Z in
              inr {| spot_price := round_q spot_price 2;
                     straddle_price := round_q straddle 2;
                     expected_move :=
                       {| raw := round_q raw_expected_move 2;
                          adjusted := round_q adjusted_move 2;
                          percentage := round_q move_pct 2;
                          raw_percentage := round_q raw_move_pct 2 |};
                     move_boundaries :=
                       {| upper_1x := round_q move_up 2;
                          lower_1x := round_q move_down 2;
                          upper_2x := round_q two_x_move_up 2;
                          lower_2x := round_q two_x_move_down 2 |};
                     iron_condor_strikes :=
                       {| conservative :=
                            {| short_call := short_call_strike;
                               short_put := short_put_strike;
                               long_call := long_call_strike;
                               long_put := long_put_strike;
                               description := "Short at 0.5x, Long at 1x move" |};
                          aggressive :=
                            {| short_call := wide_short_call;
                               short_put := wide_short_put;
                               long_call := wide_long_call;
                               long_put := wide_long_put;
                               description := "Short at 1x, Long at 1.5x move" |} |};
                     probability_estimates :=
                       {| stay_within_1x := prob_within_1x;
                          stay_within_2x := prob_within_2x;
                          touch_1x_boundary := prob_touch_1x |};
                     multiplier_used := multiplier |}
          end
      end
  end.

Record iv_move := { one_std : num; iv_percentage : num }.

Record iv_boundaries :=
  { upper_1std : num; lower_1std : num; upper_2std : num; lower_2std : num }.

Record iv_output :=
  { iv_spot_price : Q; implied_volatility : Q; days_to_expiry : Q;
    iv_expected_move : iv_move; iv_move_boundaries : iv_boundaries;
    stay_within_1std : Z; stay_within_2std : Z }.

(** [np.sqrt] turns the product into a numpy float: from there on the
    arithmetic is numpy's and never raises. *)
Definition calculate_expected_move_from_iv (spot_price iv days_to_expiry : Q)
  : iv_output :=
  let time_to_expiry := days_to_expiry / 365 in
  let one_std_move := (Fin (spot_price * iv) * nsqrt (Fin time_to_expiry))%num in
  let move_pct := (one_std_move / Fin spot_price * Fin 100)%num in
  let upper_1std := (Fin spot_price + one_std_move)%num in
  let lower_1std := (Fin spot_price - one_std_move)%num in
  let upper_2std := (Fin spot_price + Fin 2 * one_std_move)%num in
  let lower_2std := (Fin spot_price - Fin 2 * one_std_move)%num in
  {| iv_spot_price := round_q spot_price 2;
     implied_volatility := round_q (iv * 100) 2;
     days_to_expiry := days_to_expiry;
     iv_expected_move :=
       {| one_std := round one_std_move 2; iv_percentage := round move_pct 2 |};
     iv_move_boundaries :=
       {| upper_1std := round upper_1std 2; lower_1std := round lower_1std 2;
          upper_2std := round upper_2std 2; lower_2std := round lower_2std 2 |};
     stay_within_1std := 68;
     stay_within_2std := 95 |}.

(** The parsed command line of [main]. *)
Record args :=
  { arg_spot : Q; arg_atm_call : option Q; arg_atm_put : option Q;
    arg_straddle : option Q; arg_multiplier : option Q;
    arg_iv : option Q; arg_days : option Q }.

Definition default_multiplier : Q := 0.85.

(** How [main] ends: it prints a result, or prints "Error: ..." and exits
    with status 3 on a ValueError; any other exception escapes. *)
Inductive ending : Type :=
| PrintedMove (r : output)
| PrintedIvMove (r : iv_output)
| Exit3 (msg : string)
| Escaped (e : raised).

Definition main (a : args) : ending :=
  match arg_iv a, arg_days a with
  | Some iv, Some days =>
      PrintedIvMove (calculate_expected_move_from_iv (arg_spot a) iv days)
  | _, _ =>
      match calculate_expected_move (arg_spot a) (arg_atm_call a) (arg_atm_put a)
                                    (arg_straddle a)
              (match arg_multiplier a with Some m => m | None => default_multiplier end)
      with
      | inr r => PrintedMove r
      | inl (Raised (ValueError msg)) => Exit3 msg
      | inl e => Escaped e
      end
  end.

End ExpectedMove.

(* ================================================================== *)
(** ** The statements of the specification, as definitions *)

Module Spec.

(** Wilder's recurrence at index [i]:
    smoothed_i = (smoothed_{i-1} * (period - 1) + raw_i) / period. *)
Definition wilder_at (period : Z) (raw col : Pandas.Series) (i : nat) : num :=
  ((Pandas.at_ col (i - 1) * of_Z (period - 1) + Pandas.at_ raw i) / of_Z period)%num.

(** The simple mean of the [w] raw values at positions [from .. from+w-1],
    as the rolling mean yields it. *)
Definition simple_mean (raw : Pandas.Series) (from w : nat) : num :=
  let win := firstn w (skipn from raw) in
  if forallb is_finite win then Pandas.mean_all win else NaN.

(** A smoothed column as the specification describes it: seed at
    [period-1], the recurrence at every later index. *)
Definition smoothed_as_specified (period : Z) (raw col : Pandas.Series) : Prop :=
  let w := Z.to_nat period in
  Pandas.at_ col (w - 1) = simple_mean raw 0 w /\
  forall i, (w - 1 < i < length raw)%nat ->
            num_eq (Pandas.at_ col i) (wilder_at period raw col i).

(** A smoothed column as adx.py builds it: rolling means up to and
    including index [period], the recurrence from [period+1] on. *)
Definition smoothed_as_coded (period : Z) (raw col : Pandas.Series) : Prop :=
  let w := Z.to_nat period in
  length col = length raw /\
  ((1 <= w <= length raw)%nat -> Pandas.at_ col (w - 1) = simple_mean raw 0 w) /\
  ((1 <= w < length raw)%nat -> Pandas.at_ col w = simple_mean raw 1 w) /\
  forall i, (w < i < length raw)%nat ->
            Pandas.at_ col i = wilder_at period raw col i.



(** The MACD label in the words of the specification: [d_prev] and [d]
    are (MACD line - signal line) at the second-to-last and last points,
    [h_prev] and [h] the histogram there. *)
Definition macd_label_specified (d_prev d h_prev h : Q) : string :=
  if Qleb d_prev 0 && Qgtb d 0 then "bullish_crossover"
  else if Qgeb d_prev 0 && Qltb d 0 then "bearish_crossover"
  else if Qgtb h 0 && Qgtb h h_prev then "bullish_momentum"
  else if Qltb h 0 && Qltb h h_prev then "bearish_momentum"
  else if Qgtb h 0 then "bullish"
  else if Qltb h 0 then "bearish"
  else "neutral".

(** Pivot points.  The specification's nearest support: the greatest of
    the support levels at or below the price; its nearest resistance: the
    least of the resistance levels above the price. *)
Definition nearest_support_specified (levels : PivotPoints.levels_t) (current_price : Q)
  : option PivotPoints.level_ref :=
  PivotPoints.to_ref
    (PivotPoints.max_by_price
       (filter (fun kv => PivotPoints.startswith "s" (fst kv) && Qleb (snd kv) current_price)
               levels)).

Definition nearest_resistance_specified (levels : PivotPoints.levels_t) (current_price : Q)
  : option PivotPoints.level_ref :=
  PivotPoints.to_ref
    (PivotPoints.min_by_price
       (filter (fun kv => PivotPoints.startswith "r" (fst kv) && Qgtb (snd kv) current_price)
               levels)).

(** [x] is an entry of least (greatest) price among the candidates; no
    entry when there is no candidate. *)
Definition is_lowest (candidates : list (string * Q)) (x : option PivotPoints.level_ref)
  : Prop :=
  match x with
  | None => candidates = []
  | Some x =>
      In (PivotPoints.level x, PivotPoints.price x) candidates /\
      forall kv, In kv candidates -> PivotPoints.price x <= snd kv
  end.

Definition is_highest (candidates : list (string * Q)) (x : option PivotPoints.level_ref)
  : Prop :=
  match x with
  | None => candidates = []
  | Some x =>
      In (PivotPoints.level x, PivotPoints.price x) candidates /\
      forall kv, In kv candidates -> snd kv <= PivotPoints.price x
  end.

(** The candidate levels by name and by side of the price. *)
Definition r_levels (levels : PivotPoints.levels_t) : list (string * Q) :=
  filter (fun kv => PivotPoints.startswith "r" (fst kv)) levels.
Definition s_levels (levels : PivotPoints.levels_t) : list (string * Q) :=
  filter (fun kv => PivotPoints.startswith "s" (fst kv)) levels.
Definition s_levels_and_pivot (levels : PivotPoints.levels_t) : list (string * Q) :=
  filter (fun kv => PivotPoints.startswith "s" (fst kv) || String.eqb (fst kv) "pivot")
         levels.
Definition r_levels_and_pivot (levels : PivotPoints.levels_t) : list (string * Q) :=
  filter (fun kv => PivotPoints.startswith "r" (fst kv) || String.eqb (fst kv) "pivot")
         levels.

(** A call of one of the ten indicators with a documented minimum. *)
Inductive call : Type :=
| CallSma (prices : list Q) (period : Z)
| CallEma (prices : list Q) (period : Z) (smoothing : Q)
| CallBollinger (prices : list Q) (period : Z) (std_dev : Q)
| CallRsi (prices : list Q) (period overbought oversold : Z)
| CallAtr (candles : list candle) (period : Z)
| CallHistoricalVolatility (prices : list Q) (period annualize_factor : Z) (method : string)
| CallMacd (prices : list Q) (fast_period slow_period signal_period : Z)
| CallStochastic (candles : list candle) (k_period d_period overbought oversold : Z)
| CallAdx (candles : list candle) (period : Z)
| CallVwap (candles : list candle).

(** The documented minimum number of data points. *)
Definition documented_minimum (c : call) : Z :=
  match c with
  | CallSma _ period | CallEma _ period _ | CallBollinger _ period _ => period
  | CallRsi _ period _ _ | CallAtr _ period
  | CallHistoricalVolatility _ period _ _ => period + 1
  | CallMacd _ _ slow_period signal_period => slow_period + signal_period
  | CallStochastic _ k_period d_period _ _ => k_period + d_period - 1
  | CallAdx _ period => 2 * period + 1
  | CallVwap _ => 1
  end%Z.

(** The number of data points supplied. *)
Definition supplied (c : call) : Z :=
  match c with
  | CallSma prices _ | CallEma prices _ _ | CallBollinger prices _ _
  | CallRsi prices _ _ _ | CallHistoricalVolatility prices _ _ _
  | CallMacd prices _ _ _ => len prices
  | CallAtr candles _ | CallStochastic candles _ _ _ _ | CallAdx candles _
  | CallVwap candles => len candles
  end.

(** What the data points are called in the message. *)
Definition noun (c : call) : string :=
  match c with
  | CallAtr _ _ | CallStochastic _ _ _ _ _ | CallAdx _ _ | CallVwap _ => "candles"
  | _ => "prices"
  end.

Definition is_vwap (c : call) : bool :=
  match c with CallVwap _ => true | _ => false end.

(** The exception a call raises, if any. *)
Definition raised_by {A} (r : result A) : option exn :=
  match r with inl e => Some e | inr _ => None end.

Definition raised (np_log : num -> num) (c : call) : option exn :=
  match c with
  | CallSma prices period => raised_by (Sma.calculate_sma prices period)
  | CallEma prices period smoothing => raised_by (Ema.calculate_ema prices period smoothing)
  | CallBollinger prices period std_dev =>
      raised_by (BollingerBands.calculate_bollinger_bands prices period std_dev)
  | CallRsi prices period overbought oversold =>
      raised_by (Rsi.calculate_rsi prices period overbought oversold)
  | CallAtr candles period => raised_by (Atr.calculate_atr candles period)
  | CallHistoricalVolatility prices period annualize_factor method =>
      raised_by (HistoricalVolatility.calculate_historical_volatility
                   np_log prices period annualize_factor method)
  | CallMacd prices fast_period slow_period signal_period =>
      raised_by (Macd.calculate_macd prices fast_period slow_period signal_period)
  | CallStochastic candles k_period d_period overbought oversold =>
      raised_by (Stochastic.calculate_stochastic candles k_period d_period
                                                 overbought oversold)
  | CallAdx candles period => raised_by (Adx.calculate_adx candles period)
  | CallVwap candles => raised_by (Vwap.calculate_vwap candles)
  end.

(** [needle in hay]. *)
Fixpoint contains (needle hay : string) : bool :=
  String.prefix needle hay ||
  match hay with
  | EmptyString => false
  | String _ rest => contains needle rest
  end.

(** A message states a count when the decimal numeral occurs in it. *)
Definition states_count (msg : string) (n : Z) : bool := contains (str n) msg.

(** Stochastic oscillator: the hypotheses of the zero-range property. *)
Definition last_n {A} (k : nat) (l : list A) : list A := skipn (length l - k) l.

Definition has_ohlc (c : candle) : Prop :=
  has_key "high" c = true /\ has_key "low" c = true /\ has_key "close" c = true.

(** The highest high equals the lowest low over the last [k_period] candles. *)
Definition zero_range (candles : list candle) (k_period : Z) : Prop :=
  let k := Z.to_nat k_period in
  neqb (Pandas.max_all (last_n k (column "high" candles)))
       (Pandas.min_all (last_n k (column "low" candles))) = true.

(** The last close is that lowest low. *)
Definition closes_at_low (candles : list candle) (k_period : Z) : Prop :=
  let k := Z.to_nat k_period in
  neqb (Pandas.at_ (column "close" candles) (length candles - 1))
       (Pandas.min_all (last_n k (column "low" candles))) = true.

End Spec.

(* ================================================================== *)
(** ** Concrete inputs *)

Module Examples.

Local Open Scope string_scope.

Definition ohlc (high low close : Q) : candle :=
  [("high", high); ("low", low); ("close", close)].

Definition ohlcv (high low close volume : Q) : candle :=
  [("high", high); ("low", low); ("close", close); ("volume", volume)].

(** Five candles of a rising market, for ADX with period 2. *)
Definition adx_candles : list candle :=
  [ ohlc 10 9 10; ohlc 12 10 11; ohlc 15 12 14; ohlc 16 14 15; ohlc 18 15 17 ].

(** One candle closing at its high. *)
Definition closing_high : candle := ohlcv 3 1 3 1.

(** One candle closing at its typical price. *)
Definition closing_typical : candle := ohlcv 3 1 2 10.

(** The previous-period candle of the specification's pivot scenario. *)
Definition prev_candle : candle := ohlc 100 95 98.

(** Three candles, the last two of them flat at 10. *)
Definition flat_tail : list candle :=
  [ ohlc 10 8 9; ohlc 10 10 10; ohlc 10 10 10 ].

(** The same, with a last close above the flat range. *)
Definition flat_tail_close_outside : list candle :=
  [ ohlc 10 8 9; ohlc 10 10 10; ohlc 10 10 11 ].

End Examples.

(* ================================================================== *)
(** ** Auxiliary definitions of the proofs *)

(** What [Adx.smooth_body] does to a single column. *)
Definition column_body (period : Z) (raw : Pandas.Series) (col : Pandas.Series)
  (i : nat) : Pandas.Series :=
  if (Z.of_nat i =? period)%Z then col else Adx.wilder_update period raw i col.

Definition fin_zero (x : num) : Prop := exists q, x = Fin q /\ q == 0.

(** The gain and loss columns of [Rsi.calculate_rsi]. *)
Definition gain_col (prices : list Q) : Pandas.Series :=
  let delta := Pandas.diff (Pandas.of_prices prices) in
  Pandas.where_ delta (map (fun d => (d >? Fin 0)%num) delta) (Fin 0).

Definition loss_col (prices : list Q) : Pandas.Series :=
  let delta := Pandas.diff (Pandas.of_prices prices) in
  map nneg (Pandas.where_ delta (map (fun d => (d <? Fin 0)%num) delta) (Fin 0)).

(* ================================================================== *)
(** ** Further statements about the scripts *)

Module Props.

(** A list of prices that never increases from one entry to the next. *)
Fixpoint descending (l : list Q) : Prop :=
  match l with
  | a :: ((b :: _) as rest) => b <= a /\ descending rest
  | _ => True
  end.

(** The same up to a tolerance: no entry exceeds the one before it by more
    than [tol]. *)
Fixpoint descending_within (tol : Q) (l : list Q) : Prop :=
  match l with
  | a :: ((b :: _) as rest) => b <= a + tol /\ descending_within tol rest
  | _ => True
  end.

(** The levels that [calculate_pivot_points] computes for a pivot type. *)
Definition levels_of (pivot_type : string) (high low close : Q) : PivotPoints.levels_t :=
  if String.eqb pivot_type "fibonacci" then PivotPoints.calculate_fibonacci_pivots high low close
  else if String.eqb pivot_type "camarilla"
       then PivotPoints.calculate_camarilla_pivots high low close
       else PivotPoints.calculate_standard_pivots high low close.

(** The sum and the arithmetic mean of a list of prices. *)
Definition total (l : list Q) : Q := fold_left Qplus l 0.

Definition average (l : list Q) : Q := total l / inject_Z (Z.of_nat (length l)).

(** The fields of [required] that a candle lacks, in the order of
    [required]. *)
Definition missing_fields (required : list string) (c : candle) : list string :=
  filter (fun f => negb (has_key f c)) required.

Definition complete (required : list string) (c : candle) : Prop :=
  missing_fields required c = [].

(** The true range column of atr.py (lines 43-48) and adx.py (lines 49-54). *)
Definition true_range (candles : list candle) : Pandas.Series :=
  let prev_close := Pandas.shift1 (column "close" candles) in
  Pandas.row_max3
    (Pandas.map2 nsub (column "high" candles) (column "low" candles))
    (map nabs (Pandas.map2 nsub (column "high" candles) prev_close))
    (map nabs (Pandas.map2 nsub (column "low" candles) prev_close)).

(** The number a candle holds in a field (0 where the field is absent). *)
Definition value (f : string) (c : candle) : Q :=
  match lookup f c with Some q => q | None => 0 end.

(** A candle whose high, low and close are at most [bound] in magnitude. *)
Definition prices_within (bound : Q) (c : candle) : Prop :=
  Qabs (value "high" c) <= bound /\ Qabs (value "low" c) <= bound /\
  Qabs (value "close" c) <= bound.

Definition typical (c : candle) : Q :=
  (value "high" c + value "low" c + value "close" c) / 3.

(** The volume-weighted mean of the typical prices. *)
Definition vwap_of (candles : list candle) : Q :=
  total (map (fun c => typical c * value "volume" c) candles)
  / total (map (value "volume") candles).

(** The simple returns x_i / x_(i-1) - 1 of a series of prices. *)
Fixpoint returns_from (prev : Q) (rest : list Q) : list Q :=
  match rest with
  | [] => []
  | x :: rest' => (x / prev - 1) :: returns_from x rest'
  end.

Definition simple_returns (prices : list Q) : list Q :=
  match prices with
  | [] => []
  | x :: rest => returns_from x rest
  end.

End Props.

(** A finite number that is not negative. *)
Definition fin_nonneg (x : num) : Prop := exists q, x = Fin q /\ 0 <= q.

(** A percentage: a finite number between 0 and 100. *)
Definition fin_percent (x : num) : Prop := exists q, x = Fin q /\ 0 <= q /\ q <= 100.

(** NaN, or a finite number equal to zero. *)
Definition nan_or_zero (x : num) : Prop := x = NaN \/ fin_zero x.

(* ================================================================== *)
(** ** Lists and columns *)

Section ListFacts.

Context {A B C : Type}.

Lemma map2_length (f : A -> B -> C) xs ys :
  length (Pandas.map2 f xs ys) = Nat.min (length xs) (length ys).
Proof.
  unfold Pandas.map2. now rewrite length_map, length_combine.
Qed.

Lemma combine_nth_both (xs : list A) (ys : list B) i da db :
  (i < length xs)%nat -> (i < length ys)%nat ->
  nth i (combine xs ys) (da, db) = (nth i xs da, nth i ys db).
Proof.
  revert ys i; induction xs as [|x xs IH]; intros [|y ys] [|i] Hx Hy; simpl in *;
    try lia; auto. apply IH; lia.
Qed.

Lemma map2_nth (f : A -> B -> C) xs ys i da db dc :
  (i < length xs)%nat -> (i < length ys)%nat ->
  nth i (Pandas.map2 f xs ys) dc = f (nth i xs da) (nth i ys db).
Proof.
  intros Hx Hy. unfold Pandas.map2.
  rewrite (nth_indep _ dc (f da db)).
  - change (f da db) with ((fun p => f (fst p) (snd p)) (da, db)).
    rewrite map_nth, combine_nth_both by assumption. reflexivity.
  - rewrite length_map, length_combine. lia.
Qed.

Lemma iloc_neg_last (s : list A) n d :
  length s = S n -> Pandas.iloc_neg 1 s = inr (nth n s d).
Proof.
  intros Hl. unfold Pandas.iloc_neg.
  destruct (nth_error (rev s) (1 - 1)) eqn:E.
  - apply nth_error_nth with (d := d) in E.
    rewrite rev_nth in E by lia. rewrite Hl in E.
    replace (S n - S (1 - 1))%nat with n in E by lia. rewrite E. reflexivity.
  - apply nth_error_None in E. rewrite length_rev in E. lia.
Qed.

Lemma iloc_neg_prev (s : list A) n d :
  length s = S (S n) -> Pandas.iloc_neg 2 s = inr (nth n s d).
Proof.
  intros Hl. unfold Pandas.iloc_neg.
  destruct (nth_error (rev s) (2 - 1)) eqn:E.
  - apply nth_error_nth with (d := d) in E.
    rewrite rev_nth in E by lia. rewrite Hl in E.
    replace (S (S n) - S (2 - 1))%nat with n in E by lia. rewrite E. reflexivity.
  - apply nth_error_None in E. rewrite length_rev in E. lia.
Qed.

Lemma list_neg_last (s : list A) n d :
  length s = S n -> list_neg 1 s = inr (nth n s d).
Proof.
  intros Hl. unfold list_neg.
  destruct (nth_error (rev s) (1 - 1)) eqn:E.
  - apply nth_error_nth with (d := d) in E.
    rewrite rev_nth in E by lia. rewrite Hl in E.
    replace (S n - S (1 - 1))%nat with n in E by lia. rewrite E. reflexivity.
  - apply nth_error_None in E. rewrite length_rev in E. lia.
Qed.

End ListFacts.

Lemma rolling_apply_length agg w s :
  length (Pandas.rolling_apply agg w s) = length s.
Proof. unfold Pandas.rolling_apply. now rewrite length_map, length_seq. Qed.

Lemma nth_map_seq {X} (f : nat -> X) n i d :
  (i < n)%nat -> nth i (map f (seq 0 n)) d = f i.
Proof.
  intros Hi.
  rewrite (nth_indep _ d (f 0%nat)) by (rewrite length_map, length_seq; lia).
  rewrite (map_nth f), seq_nth by lia. reflexivity.
Qed.

Lemma rolling_apply_nth agg w s i :
  (i < length s)%nat ->
  Pandas.at_ (Pandas.rolling_apply agg w s) i =
  if (i + 1 <? w)%nat then NaN
  else if forallb is_finite (Pandas.window_at s w i)
       then agg (Pandas.window_at s w i) else NaN.
Proof.
  intros Hi. unfold Pandas.at_, Pandas.rolling_apply.
  now rewrite nth_map_seq.
Qed.

(** A window that is not negative is accepted. *)
Ltac rolling_accepts :=
  intros;
  unfold Pandas.rolling_mean, Pandas.rolling_std, Pandas.rolling_min,
    Pandas.rolling_max, Pandas.rolling_window;
  match goal with
  | |- context [(?w <? 0)%Z] => destruct (w <? 0)%Z eqn:?; [lia | reflexivity]
  end.

Lemma rolling_mean_ok period s :
  (0 <= period)%Z ->
  Pandas.rolling_mean period s =
  inr (Pandas.rolling_apply Pandas.mean_all (Z.to_nat period) s).
Proof. rolling_accepts. Qed.

Lemma rolling_std_ok period s :
  (0 <= period)%Z ->
  Pandas.rolling_std period s =
  inr (Pandas.rolling_apply Pandas.std_all (Z.to_nat period) s).
Proof. rolling_accepts. Qed.

Lemma rolling_min_ok period s :
  (0 <= period)%Z ->
  Pandas.rolling_min period s =
  inr (Pandas.rolling_apply Pandas.min_all (Z.to_nat period) s).
Proof. rolling_accepts. Qed.

Lemma rolling_max_ok period s :
  (0 <= period)%Z ->
  Pandas.rolling_max period s =
  inr (Pandas.rolling_apply Pandas.max_all (Z.to_nat period) s).
Proof. rolling_accepts. Qed.

(** *** In-place updates *)

Lemma set_at_length i v s : length (Adx.set_at i v s) = length s.
Proof.
  revert i; induction s as [|x s IH]; intros [|i]; simpl; auto.
Qed.

Lemma set_at_same i v s :
  (i < length s)%nat -> Pandas.at_ (Adx.set_at i v s) i = v.
Proof.
  unfold Pandas.at_. revert i; induction s as [|x s IH]; intros [|i] H; simpl in *;
    try lia; auto. apply IH. lia.
Qed.

Lemma set_at_other i j v s :
  i <> j -> Pandas.at_ (Adx.set_at i v s) j = Pandas.at_ s j.
Proof.
  unfold Pandas.at_. revert i j; induction s as [|x s IH]; intros [|i] [|j] H; simpl;
    try congruence; auto.
Qed.

(** *** The smoothing loop of adx.py, one column at a time *)

(** [Adx.smooth_body] acts on each of its three columns as [column_body]. *)
Ltac project_smooth_fold :=
  match goal with
  | |- forall period raw (l : list nat) df, _ =>
      intros period raw l; induction l as [|i l IH]; intros df; simpl; auto;
      rewrite IH; unfold Adx.smooth_body, column_body;
      destruct (Z.of_nat i =? period)%Z; reflexivity
  end.

Lemma smooth_fold_atr :
  forall period raw l df,
    Adx.atr (fold_left (Adx.smooth_body period raw) l df) =
    fold_left (column_body period (Adx.tr raw)) l (Adx.atr df).
Proof. project_smooth_fold. Qed.

Lemma smooth_fold_plus :
  forall period raw l df,
    Adx.plus_dm_smooth (fold_left (Adx.smooth_body period raw) l df) =
    fold_left (column_body period (Adx.plus_dm raw)) l (Adx.plus_dm_smooth df).
Proof. project_smooth_fold. Qed.

Lemma smooth_fold_minus :
  forall period raw l df,
    Adx.minus_dm_smooth (fold_left (Adx.smooth_body period raw) l df) =
    fold_left (column_body period (Adx.minus_dm raw)) l (Adx.minus_dm_smooth df).
Proof. project_smooth_fold. Qed.

Lemma column_body_length period raw col i :
  length (column_body period raw col i) = length col.
Proof.
  unfold column_body, Adx.wilder_update.
  destruct (Z.of_nat i =? period)%Z; auto using set_at_length.
Qed.

(** Invariant of the loop after the indices [a .. a+k-1] have been visited. *)
Lemma column_loop_invariant period raw col0 a k :
  let col := fold_left (column_body period raw) (seq a k) col0 in
  length col = length col0 /\
  (forall j, (j < a)%nat \/ (a + k <= j)%nat \/ Z.of_nat j = period ->
             Pandas.at_ col j = Pandas.at_ col0 j) /\
  (forall j, (a <= j < a + k)%nat -> (1 <= j < length col0)%nat ->
             Z.of_nat j <> period ->
             Pandas.at_ col j = Spec.wilder_at period raw col j).
Proof.
  cbv zeta. induction k as [|k IH].
  - simpl. repeat split; auto. intros; lia.
  - rewrite seq_S, fold_left_app. simpl fold_left.
    set (col := fold_left (column_body period raw) (seq a k) col0) in *.
    destruct IH as (Hlen & Hkeep & Hrec).
    split; [now rewrite column_body_length|]. split.
    + intros j Hj. unfold column_body.
      destruct (Z.of_nat (a + k) =? period)%Z eqn:E; [apply Hkeep; lia|].
      unfold Adx.wilder_update.
      destruct (Nat.eq_dec (a + k) j) as [<-|Hne].
      * apply Z.eqb_neq in E. lia.
      * rewrite set_at_other by assumption. apply Hkeep. lia.
    + intros j Hj Hin Hp. unfold column_body.
      destruct (Z.of_nat (a + k) =? period)%Z eqn:E.
      * apply Z.eqb_eq in E.
        assert (j <> a + k)%nat by lia. apply Hrec; auto. lia.
      * unfold Adx.wilder_update at 1.
        destruct (Nat.eq_dec (a + k) j) as [<-|Hne].
        -- rewrite set_at_same by lia. unfold Spec.wilder_at, Adx.wilder_update.
           rewrite set_at_other by lia. reflexivity.
        -- rewrite set_at_other by assumption.
           rewrite Hrec by (auto; lia).
           unfold Spec.wilder_at, Adx.wilder_update.
           rewrite set_at_other by lia. reflexivity.
Qed.

(** *** Lengths of the raw ADX columns *)

Lemma column_length f candles : length (column f candles) = length candles.
Proof. unfold column. apply length_map. Qed.

Lemma shift1_length s : length (Pandas.shift1 s) = length s.
Proof.
  destruct s as [|x s]; [reflexivity|].
  unfold Pandas.shift1. cbn [length]. rewrite removelast_firstn_len, length_firstn.
  cbn [length]. lia.
Qed.

Lemma row_max3_length a b c :
  length a = length b -> length b = length c ->
  length (Pandas.row_max3 a b c) = length a.
Proof.
  intros H1 H2. unfold Pandas.row_max3.
  rewrite map2_length, length_combine. lia.
Qed.

Lemma np_where_length cond a other :
  length cond = length a -> length (Adx.np_where cond a other) = length a.
Proof. intros H. unfold Adx.np_where. rewrite map2_length. lia. Qed.

(** Lengths of derived columns, by rewriting. *)
Create Rewrite HintDb col_lengths.
#[global] Hint Rewrite @map2_length @length_map rolling_apply_length column_length
  shift1_length : col_lengths.

Ltac col_lengths := autorewrite with col_lengths; try lia.

Lemma raw_of_lengths candles :
  length (Adx.tr (Adx.raw_of candles)) = length candles /\
  length (Adx.plus_dm (Adx.raw_of candles)) = length candles /\
  length (Adx.minus_dm (Adx.raw_of candles)) = length candles.
Proof.
  unfold Adx.raw_of; cbn [Adx.tr Adx.plus_dm Adx.minus_dm].
  repeat split.
  - rewrite row_max3_length; col_lengths.
  - rewrite np_where_length; col_lengths.
  - rewrite np_where_length; col_lengths.
Qed.

Lemma smoothed_column_as_coded period raw :
  (0 <= period)%Z ->
  Spec.smoothed_as_coded period raw
    (fold_left (column_body period raw)
               (Adx.range period (length raw))
               (Pandas.rolling_apply Pandas.mean_all (Z.to_nat period) raw)).
Proof.
  intros Hp. unfold Spec.smoothed_as_coded, Adx.range. cbv zeta.
  set (w := Z.to_nat period).
  set (col0 := Pandas.rolling_apply Pandas.mean_all w raw).
  destruct (column_loop_invariant period raw col0 w (length raw - w))
    as (Hlen & Hkeep & Hrec).
  assert (Hl0 : length col0 = length raw) by apply rolling_apply_length.
  split; [congruence|]. split; [|split].
  - intros Hw. rewrite Hkeep by lia. unfold col0.
    rewrite rolling_apply_nth by lia.
    replace (w - 1 + 1 <? w)%nat with false by (symmetry; apply Nat.ltb_ge; lia).
    unfold Pandas.window_at, Spec.simple_mean.
    replace (w - 1 + 1 - w)%nat with 0%nat by lia. reflexivity.
  - intros Hw. rewrite Hkeep by lia. unfold col0.
    rewrite rolling_apply_nth by lia.
    replace (w + 1 <? w)%nat with false by (symmetry; apply Nat.ltb_ge; lia).
    unfold Pandas.window_at, Spec.simple_mean.
    replace (w + 1 - w)%nat with 1%nat by lia. reflexivity.
  - intros i Hi. apply Hrec; lia.
Qed.

(** C1 (as the code has it): for period >= 1, each of the three smoothed
    columns of [calculate_adx] holds the simple mean of the first [period]
    raw values at index [period-1], the simple mean of the raw values at
    indices [1..period] at index [period] (the loop skips that index), and
    follows Wilder's recurrence at every index greater than [period]. *)
Theorem adx_smoothing_as_coded (candles : list candle) (period : Z) :
  (1 <= period)%Z ->
  exists df,
    Adx.smooth period (length candles) (Adx.raw_of candles) = inr df /\
    Spec.smoothed_as_coded period (Adx.tr (Adx.raw_of candles)) (Adx.atr df) /\
    Spec.smoothed_as_coded period (Adx.plus_dm (Adx.raw_of candles))
                           (Adx.plus_dm_smooth df) /\
    Spec.smoothed_as_coded period (Adx.minus_dm (Adx.raw_of candles))
                           (Adx.minus_dm_smooth df).
Proof.
  intros Hp. assert (Hp0 : (0 <= period)%Z) by lia.
  destruct (raw_of_lengths candles) as (Ht & Hpl & Hmi).
  unfold Adx.smooth. rewrite !rolling_mean_ok by assumption. cbn [bind ret].
  eexists; split; [reflexivity|].
  rewrite smooth_fold_atr, smooth_fold_plus, smooth_fold_minus.
  cbn [Adx.atr Adx.plus_dm_smooth Adx.minus_dm_smooth].
  split; [|split].
  - rewrite <- Ht. now apply smoothed_column_as_coded.
  - rewrite <- Hpl. now apply smoothed_column_as_coded.
  - rewrite <- Hmi. now apply smoothed_column_as_coded.
Qed.

Lemma adx_smoothing_as_coded_witness :
  exists df,
    Adx.smooth 2 (length Examples.adx_candles) (Adx.raw_of Examples.adx_candles) = inr df /\
    Spec.smoothed_as_coded 2 (Adx.tr (Adx.raw_of Examples.adx_candles)) (Adx.atr df) /\
    Spec.smoothed_as_coded 2 (Adx.plus_dm (Adx.raw_of Examples.adx_candles))
                           (Adx.plus_dm_smooth df) /\
    Spec.smoothed_as_coded 2 (Adx.minus_dm (Adx.raw_of Examples.adx_candles))
                           (Adx.minus_dm_smooth df).
Proof.
  apply (adx_smoothing_as_coded Examples.adx_candles 2). lia.
Defined.

(** C1 as stated fails: with period 2 the smoothed TR at index 2
    (= period, which is greater than period-1) is the plain mean of the raw
    values at indices 1 and 2 (that is 3), not Wilder's recurrence from the
    seed (which gives 11/4). *)
Lemma adx_recurrence_not_at_period :
  exists df,
    Adx.smooth 2 (length Examples.adx_candles) (Adx.raw_of Examples.adx_candles) = inr df /\
    num_eq (Pandas.at_ (Adx.atr df) 2) (Fin 3) /\
    num_eq (Spec.wilder_at 2 (Adx.tr (Adx.raw_of Examples.adx_candles)) (Adx.atr df) 2)
           (Fin (11 # 4)) /\
    ~ Spec.smoothed_as_specified 2 (Adx.tr (Adx.raw_of Examples.adx_candles)) (Adx.atr df).
Proof.
  eexists. split; [vm_compute; reflexivity|].
  split; [vm_compute; reflexivity|].
  split; [vm_compute; reflexivity|].
  intros [_ H]. specialize (H 2%nat ltac:(vm_compute; lia)).
  vm_compute in H. discriminate H.
Qed.

(* ================================================================== *)
(** ** Numbers: comparisons, rounding and equality up to [Qeq] *)

Lemma Qltb_lt a b : Qltb a b = true <-> a < b.
Proof.
  unfold Qltb. rewrite Qlt_alt. destruct (a ?= b); split; congruence.
Qed.

Lemma Qgtb_gt a b : Qgtb a b = true <-> b < a.
Proof.
  unfold Qgtb. rewrite Qgt_alt. destruct (a ?= b); split; congruence.
Qed.

Lemma Qleb_le a b : Qleb a b = true <-> a <= b.
Proof.
  unfold Qleb. rewrite negb_true_iff, <- not_true_iff_false, Qgtb_gt.
  split; [apply Qnot_lt_le | apply Qle_not_lt].
Qed.

Lemma Qgeb_ge a b : Qgeb a b = true <-> b <= a.
Proof.
  unfold Qgeb. rewrite negb_true_iff, <- not_true_iff_false, Qltb_lt.
  split; [apply Qnot_lt_le | apply Qle_not_lt].
Qed.

Lemma Qeq_bool_false a b : ~ a == b -> Qeq_bool a b = false.
Proof.
  intros H. destruct (Qeq_bool a b) eqn:E; auto.
  apply Qeq_bool_eq in E. contradiction.
Qed.

Lemma Qeq_bool_true a b : a == b -> Qeq_bool a b = true.
Proof. apply Qeq_eq_bool. Qed.

Lemma round_half_even_proper a b : a == b -> round_half_even a = round_half_even b.
Proof.
  intros H. unfold round_half_even.
  assert (Hf : Qfloor a = Qfloor b) by now rewrite H.
  rewrite Hf.
  assert (Hc : (a - inject_Z (Qfloor b) ?= 1 # 2) = (b - inject_Z (Qfloor b) ?= 1 # 2))
    by now rewrite H.
  now rewrite Hc.
Qed.

Lemma round_q_proper a b n : a == b -> round_q a n = round_q b n.
Proof.
  intros H. unfold round_q.
  rewrite (round_half_even_proper (a * _) (b * inject_Z (Z.pos (pow10 n)))); auto.
  now rewrite H.
Qed.

Lemma num_eq_refl x : num_eq x x.
Proof. destruct x; simpl; auto. reflexivity. Qed.

Lemma num_eq_sym x y : num_eq x y -> num_eq y x.
Proof. destruct x, y; simpl; auto. intros; now symmetry. Qed.

Lemma num_eq_trans x y z : num_eq x y -> num_eq y z -> num_eq x z.
Proof. destruct x, y, z; simpl; auto; try tauto. intros; etransitivity; eauto. Qed.

Lemma num_eq_Fin_l q y : num_eq (Fin q) y -> exists q', y = Fin q' /\ q == q'.
Proof. destruct y; simpl; try tauto. eauto. Qed.

Lemma round_proper x y n : num_eq x y -> round x n = round y n.
Proof.
  destruct x, y; simpl; try tauto. intros H. f_equal. now apply round_q_proper.
Qed.

Lemma nneg_proper x y : num_eq x y -> num_eq (nneg x) (nneg y).
Proof. destruct x, y; simpl; auto. intros H; now rewrite H. Qed.

Lemma nadd_proper x x' y y' :
  num_eq x x' -> num_eq y y' -> num_eq (nadd x y) (nadd x' y').
Proof.
  destruct x, x'; simpl; try tauto; destruct y, y'; simpl; try tauto.
  intros H1 H2; now rewrite H1, H2.
Qed.

Lemma nsub_proper x x' y y' :
  num_eq x x' -> num_eq y y' -> num_eq (nsub x y) (nsub x' y').
Proof. intros. unfold nsub. auto using nadd_proper, nneg_proper. Qed.

Lemma nmul_proper x x' y y' :
  num_eq x x' -> num_eq y y' -> num_eq (nmul x y) (nmul x' y').
Proof.
  destruct x, x'; simpl; try tauto; destruct y, y'; simpl; try tauto;
    intros H1 H2;
    try (now rewrite H1, H2);
    try (rewrite H1; destruct (q0 ?= 0); simpl; tauto);
    try (rewrite H2; destruct (q0 ?= 0); simpl; tauto).
Qed.

Lemma ndiv_proper x x' y y' :
  num_eq x x' -> num_eq y y' -> num_eq (ndiv x y) (ndiv x' y').
Proof.
  destruct x, x'; simpl; try tauto; destruct y, y'; simpl; try tauto;
    intros H1 H2; try reflexivity.
  - rewrite H1, H2. destruct (Qeq_bool q2 0).
    + destruct (q0 ?= 0); simpl; tauto.
    + simpl. now rewrite H1, H2.
  - assert (E : Qle_bool 0 q = Qle_bool 0 q0).
    { apply eq_true_iff_eq. rewrite !Qle_bool_iff. now rewrite H2. }
    rewrite E. destruct (Qle_bool 0 q0); simpl; tauto.
  - assert (E : Qle_bool 0 q = Qle_bool 0 q0).
    { apply eq_true_iff_eq. rewrite !Qle_bool_iff. now rewrite H2. }
    rewrite E. destruct (Qle_bool 0 q0); simpl; tauto.
Qed.

Lemma Qsqrt_zero q : q == 0 -> Qsqrt q == 0.
Proof.
  intros H. unfold Qsqrt.
  assert (Hn : Qnum q = 0%Z).
  { unfold Qeq in H. simpl in H. lia. }
  rewrite Hn. simpl. reflexivity.
Qed.

Lemma round_half_even_bounds q :
  (Qfloor q <= round_half_even q <= Qfloor q + 1)%Z.
Proof.
  unfold round_half_even.
  destruct (q - inject_Z (Qfloor q) ?= 1 # 2); try destruct (Z.even (Qfloor q)); lia.
Qed.

Lemma round_half_even_monotone a b : a <= b -> (round_half_even a <= round_half_even b)%Z.
Proof.
  intros Hab.
  pose proof (Qfloor_resp_le _ _ Hab) as Hf.
  destruct (Z.eq_dec (Qfloor a) (Qfloor b)) as [E|N].
  - unfold round_half_even. rewrite E.
    destruct (a - inject_Z (Qfloor b) ?= 1 # 2) eqn:Ca;
      destruct (b - inject_Z (Qfloor b) ?= 1 # 2) eqn:Cb;
      try destruct (Z.even (Qfloor b)); try lia;
      repeat match goal with
             | H : (_ ?= _) = Eq |- _ => apply Qeq_alt in H
             | H : (_ ?= _) = Lt |- _ => apply Qlt_alt in H
             | H : (_ ?= _) = Gt |- _ => apply Qgt_alt in H
             end; lra.
  - pose proof (round_half_even_bounds a). pose proof (round_half_even_bounds b). lia.
Qed.

Lemma round_q_value q n :
  round_q q n == round_half_even (q * inject_Z (Zpos (pow10 n))) # pow10 n.
Proof. unfold round_q. apply Qred_correct. Qed.

Lemma round_q_monotone a b n : a <= b -> round_q a n <= round_q b n.
Proof.
  intros Hab. rewrite !round_q_value.
  unfold Qle. cbn [Qnum Qden].
  apply Z.mul_le_mono_nonneg_r; [lia|].
  apply round_half_even_monotone.
  apply Qmult_le_compat_r; [exact Hab|].
  unfold Qle. simpl. lia.
Qed.

Lemma Qgtb_false a b : a <= b -> Qgtb a b = false.
Proof.
  intros H. destruct (Qgtb a b) eqn:E; auto. apply Qgtb_gt in E. lra.
Qed.

Lemma Qltb_false a b : b <= a -> Qltb a b = false.
Proof.
  intros H. destruct (Qltb a b) eqn:E; auto. apply Qltb_lt in E. lra.
Qed.

(** Rounding moves a number by at most half a unit of the last place. *)
Lemma round_half_even_error y :
  inject_Z (round_half_even y) - y <= 1 # 2 /\ y - inject_Z (round_half_even y) <= 1 # 2.
Proof.
  pose proof (Qfloor_le y) as Hlo. pose proof (Qlt_floor y) as Hhi.
  rewrite inject_Z_plus in Hhi. change (inject_Z 1) with 1 in Hhi.
  unfold round_half_even. cbv zeta.
  destruct (y - inject_Z (Qfloor y) ?= 1 # 2) eqn:E.
  - apply Qeq_alt in E. destruct (Z.even (Qfloor y)).
    + split; lra.
    + rewrite inject_Z_plus. change (inject_Z 1) with 1. split; lra.
  - apply Qlt_alt in E. split; lra.
  - apply Qgt_alt in E. rewrite inject_Z_plus. change (inject_Z 1) with 1. split; lra.
Qed.

Lemma round_q_error q :
  round_q q 2 - q <= 1 # 200 /\ q - round_q q 2 <= 1 # 200.
Proof.
  destruct (round_half_even_error (q * inject_Z (Zpos (pow10 2)))) as [H1 H2].
  rewrite round_q_value.
  set (z := round_half_even (q * inject_Z (Zpos (pow10 2)))) in *.
  assert (E : z # pow10 2 == inject_Z z / 100).
  { rewrite (Qmake_Qdiv z (pow10 2)). reflexivity. }
  rewrite E. change (inject_Z (Zpos (pow10 2))) with 100 in H1, H2.
  unfold Qdiv. setoid_replace (/ 100) with (1 # 100) by reflexivity.
  split; lra.
Qed.

(** The same, as a distance. *)
Lemma round_q_near q : Qabs (round_q q 2 - q) <= 1 # 200.
Proof.
  destruct (round_q_error q). apply Qabs_Qle_condition. split; lra.
Qed.

Lemma Qabs_le_iff x y : Qabs x <= y <-> - y <= x /\ x <= y.
Proof. apply Qabs_Qle_condition. Qed.

(* ================================================================== *)
(** ** VWAP of a single candle *)

Lemma ndiv_Fin_nz a b : ~ b == 0 -> ndiv (Fin a) (Fin b) = Fin (a / b).
Proof. intros H. simpl. now rewrite Qeq_bool_false. Qed.

Lemma has_key_lookup {V} k (d : list (string * V)) v :
  lookup k d = Some v -> has_key k d = true.
Proof. unfold has_key. now intros ->. Qed.

Lemma pow_half_zero q : q == 0 -> num_eq (pow_half (Fin q)) (Fin 0).
Proof.
  intros H. unfold pow_half, nsqrt.
  assert (E : Qle_bool 0 q = true) by (apply Qle_bool_iff; rewrite H; apply Qle_refl).
  rewrite E. simpl. now apply Qsqrt_zero.
Qed.

(** In exact arithmetic: for one candle with positive volume the
    returned [vwap] is the typical price (high+low+close)/3 rounded to two
    decimals, [deviation_pct] is (close - typical)/typical*100 rounded to
    two decimals, and both bands coincide with [vwap]. *)
Lemma vwap_single_candle_exact (cd : candle) (h l c v : Q) :
  lookup "high" cd = Some h -> lookup "low" cd = Some l ->
  lookup "close" cd = Some c -> lookup "volume" cd = Some v ->
  0 < v ->
  let tp := (h + l + c) / 3 in
  exists r,
    Vwap.calculate_vwap [cd] = inr r /\
    Vwap.vwap r = Fin (round_q tp 2) /\
    Vwap.deviation_pct r = round ((Fin c - Fin tp) / Fin tp * Fin 100)%num 2 /\
    (c == tp -> ~ tp == 0 -> Vwap.deviation_pct r = Fin 0) /\
    Vwap.upper_band r = Vwap.vwap r /\
    Vwap.lower_band r = Vwap.vwap r.
Proof.
  intros Hh Hl Hc Hv Hpos tp.
  unfold Vwap.calculate_vwap.
  change (len [cd] <? 1)%Z with false. cbv iota.
  unfold check_fields, check_fields_from.
  cbn [filter].
  rewrite (has_key_lookup _ _ _ Hh), (has_key_lookup _ _ _ Hl),
    (has_key_lookup _ _ _ Hc), (has_key_lookup _ _ _ Hv).
  cbn [negb bind ret].
  unfold column. cbn [map]. rewrite Hh, Hl, Hc, Hv.
  cbn [Pandas.map2 combine map fst snd Pandas.cumsum Pandas.cumsum_from
       Pandas.iloc_neg rev app Nat.sub nth_error bind ret].
  assert (Etp : ((Fin h + Fin l + Fin c) / Fin 3)%num = Fin tp).
  { cbn [nadd]. apply ndiv_Fin_nz. discriminate. }
  rewrite Etp. cbn [nmul].
  assert (Hv0 : ~ v == 0) by lra.
  rewrite (ndiv_Fin_nz _ v Hv0).
  set (vw := tp * v / v).
  assert (Hvw : vw == tp) by (unfold vw; field; exact Hv0).
  unfold Pandas.sum, Pandas.dropna, Pandas.nsum.
  cbn [filter is_nan negb fold_left nadd nsub nneg nmul Vwap.int_of bind ret].
  assert (Hv1 : ~ 0 + v == 0) by lra.
  rewrite (ndiv_Fin_nz _ (0 + v) Hv1).
  set (var := (0 + (tp + - vw) * (tp + - vw) * v) / (0 + v)).
  assert (Hvar : var == 0).
  { unfold var. rewrite Hvw. field. exact Hv0. }
  destruct (num_eq_Fin_l 0 (pow_half (Fin var))) as (sd & Esd & Hsd).
  { apply num_eq_sym. now apply pow_half_zero. }
  rewrite Esd. cbn [nadd nneg].
  eexists; split; [reflexivity|]. cbn [Vwap.vwap Vwap.deviation_pct Vwap.upper_band
                                          Vwap.lower_band round].
  split; [|split; [|split; [|split]]].
  - f_equal. now apply round_q_proper.
  - apply round_proper.
    apply nmul_proper; [|apply num_eq_refl].
    apply ndiv_proper; [|exact Hvw].
    simpl. now rewrite Hvw.
  - intros Hct Htp0.
    assert (Hvw0 : ~ vw == 0) by (rewrite Hvw; exact Htp0).
    rewrite (ndiv_Fin_nz _ vw Hvw0). cbn [nmul round].
    f_equal. rewrite (round_q_proper _ 0); [reflexivity|].
    rewrite Hvw, Hct. field. exact Htp0.
  - f_equal. apply round_q_proper. rewrite <- Hsd. ring.
  - f_equal. apply round_q_proper. rewrite <- Hsd. ring.
Qed.

(** C2 (as the code has it): the outputs are rounded to two decimals and
    the deviation is that of the close from the VWAP.  For one candle with
    0.01 <= low <= close <= high <= 10^6 and a volume between 10^-6 and
    10^12 (a range in which the rounding errors of double precision stay
    far below the tolerance; the exact arithmetic of the model does not
    need it), the call returns, [vwap] is within 0.01 of the typical price
    (high+low+close)/3, [deviation_pct] is within 0.01 of
    (close - typical)/typical*100 and is 0 when the close is the typical
    price, and both bands are within 0.02 of [vwap]. *)
Theorem vwap_single_candle (cd : candle) (h l c v : Q) :
  lookup "high" cd = Some h -> lookup "low" cd = Some l ->
  lookup "close" cd = Some c -> lookup "volume" cd = Some v ->
  1 # 100 <= l -> l <= c -> c <= h -> h <= 1000000 ->
  1 # 1000000 <= v -> v <= 1000000000000 ->
  let tp := (h + l + c) / 3 in
  let dev := (c - tp) / tp * 100 in
  exists r vw d up lo,
    Vwap.calculate_vwap [cd] = inr r /\
    Vwap.vwap r = Fin vw /\ Vwap.deviation_pct r = Fin d /\
    Vwap.upper_band r = Fin up /\ Vwap.lower_band r = Fin lo /\
    Qabs (vw - tp) <= 1 # 100 /\
    Qabs (d - dev) <= 1 # 100 /\
    (c == tp -> d == 0) /\
    Qabs (up - vw) <= 2 # 100 /\
    Qabs (lo - vw) <= 2 # 100.
Proof.
  intros Hh Hl Hc Hv Hl0 Hlc Hch Hh1 Hv0 Hv1 tp dev.
  assert (Htp : 1 # 100 <= tp).
  { unfold tp, Qdiv. setoid_replace (/ 3) with (1 # 3) by reflexivity. lra. }
  assert (Htp0 : ~ tp == 0) by lra.
  destruct (vwap_single_candle_exact cd h l c v Hh Hl Hc Hv ltac:(lra))
    as (r & Hr & Evw & Ed & _ & Eup & Elo).
  fold tp in Evw, Ed.
  assert (Ed' : Vwap.deviation_pct r = Fin (round_q dev 2)).
  { rewrite Ed. cbn [nsub nneg nadd]. rewrite ndiv_Fin_nz by exact Htp0. reflexivity. }
  exists r, (round_q tp 2), (round_q dev 2), (round_q tp 2), (round_q tp 2).
  split; [exact Hr|]. split; [exact Evw|]. split; [exact Ed'|].
  split; [now rewrite Eup|]. split; [now rewrite Elo|].
  pose proof (round_q_near tp) as Ntp. pose proof (round_q_near dev) as Ndev.
  split; [apply Qle_trans with (1 # 200); [exact Ntp | discriminate]|].
  split; [apply Qle_trans with (1 # 200); [exact Ndev | discriminate]|].
  split.
  - intros E. rewrite (round_q_proper dev 0 2); [reflexivity|].
    unfold dev. rewrite E. field. exact Htp0.
  - assert (Z0 : round_q tp 2 - round_q tp 2 == 0) by ring.
    rewrite Z0. split; discriminate.
Qed.

Lemma vwap_single_candle_witness :
  exists r vw d up lo,
    Vwap.calculate_vwap [Examples.closing_typical] = inr r /\
    Vwap.vwap r = Fin vw /\ Vwap.deviation_pct r = Fin d /\
    Vwap.upper_band r = Fin up /\ Vwap.lower_band r = Fin lo /\
    Qabs (vw - (3 + 1 + 2) / 3) <= 1 # 100 /\
    Qabs (d - (2 - (3 + 1 + 2) / 3) / ((3 + 1 + 2) / 3) * 100) <= 1 # 100 /\
    (2 == (3 + 1 + 2) / 3 -> d == 0) /\
    Qabs (up - vw) <= 2 # 100 /\
    Qabs (lo - vw) <= 2 # 100.
Proof.
  apply (vwap_single_candle Examples.closing_typical 3 1 2 10);
    try reflexivity; discriminate.
Defined.

(** C2 as stated fails: for the single candle high 3, low 1, close 3,
    volume 1 the typical price is 7/3; the returned vwap is 2.33, not
    7/3, and deviation_pct is 28.57, not 0. *)
Lemma vwap_single_candle_not_exact :
  exists r,
    Vwap.calculate_vwap [Examples.closing_high] = inr r /\
    Vwap.vwap r = Fin 2.33 /\
    ~ num_eq (Vwap.vwap r) (Fin ((3 + 1 + 3) / 3)) /\
    Vwap.deviation_pct r = Fin 28.57 /\
    ~ num_eq (Vwap.deviation_pct r) (Fin 0).
Proof.
  eexists. split; [vm_compute; reflexivity|].
  cbn [Vwap.vwap Vwap.deviation_pct].
  split; [reflexivity|]. split; [intros H; vm_compute in H; discriminate H|].
  split; [reflexivity|]. intros H; vm_compute in H; discriminate H.
Qed.

(* ================================================================== *)
(** ** RSI on monotone series *)

Lemma map_nth_lt {X Y} (f : X -> Y) l i dx dy :
  (i < length l)%nat -> nth i (map f l) dy = f (nth i l dx).
Proof.
  intros Hi. rewrite (nth_indep _ dy (f dx)) by now rewrite length_map.
  apply map_nth.
Qed.

Lemma shift1_nth s i :
  (1 <= i < length s)%nat -> nth i (Pandas.shift1 s) NaN = nth (i - 1) s NaN.
Proof.
  intros Hi. destruct s as [|x s]; [simpl in Hi; lia|].
  unfold Pandas.shift1. destruct i as [|i]; [lia|].
  cbn [nth]. rewrite removelast_firstn_len, nth_firstn.
  replace (S i - 1)%nat with i by lia.
  cbn [length] in *. destruct (i <? Nat.pred (S (length s)))%nat eqn:E; auto.
  apply Nat.ltb_ge in E. lia.
Qed.

Lemma diff_length s : length (Pandas.diff s) = length s.
Proof. unfold Pandas.diff. rewrite map2_length, shift1_length. lia. Qed.

Lemma diff_prices_nth prices i :
  (1 <= i < length prices)%nat ->
  nth i (Pandas.diff (Pandas.of_prices prices)) NaN =
  Fin (nth i prices 0 - nth (i - 1) prices 0).
Proof.
  intros Hi. unfold Pandas.diff, Pandas.of_prices.
  rewrite (map2_nth _ _ _ _ NaN NaN) by (rewrite ?shift1_length, length_map; lia).
  rewrite shift1_nth by (rewrite length_map; lia).
  rewrite !(map_nth_lt Fin _ _ 0) by lia. reflexivity.
Qed.

Lemma where_length s cond other :
  length cond = length s -> length (Pandas.where_ s cond other) = length s.
Proof. intros H. unfold Pandas.where_. rewrite map2_length. lia. Qed.

Lemma where_nth s (test : num -> bool) other i :
  (i < length s)%nat ->
  nth i (Pandas.where_ s (map test s) other) NaN =
  if test (nth i s NaN) then nth i s NaN else other.
Proof.
  intros Hi. unfold Pandas.where_.
  rewrite (map2_nth _ _ _ _ NaN false) by (rewrite ?length_map; lia).
  now rewrite (map_nth_lt test _ _ NaN) by lia.
Qed.

(** *** Windows *)

Lemma window_at_length s w i :
  (w <= i + 1)%nat -> (i < length s)%nat -> length (Pandas.window_at s w i) = w.
Proof.
  intros Hw Hi. unfold Pandas.window_at. rewrite length_firstn, length_skipn. lia.
Qed.

Lemma window_at_Forall (P : num -> Prop) s w i :
  (w <= i + 1)%nat -> (i < length s)%nat ->
  (forall j, (i + 1 - w <= j <= i)%nat -> P (nth j s NaN)) ->
  Forall P (Pandas.window_at s w i).
Proof.
  intros Hw Hi H. apply Forall_forall. intros x Hx.
  apply (In_nth _ _ NaN) in Hx. destruct Hx as (j & Hj & <-).
  rewrite window_at_length in Hj by assumption.
  unfold Pandas.window_at. rewrite nth_firstn.
  replace (j <? w)%nat with true by (symmetry; apply Nat.ltb_lt; lia).
  rewrite nth_skipn. apply H. lia.
Qed.

Lemma Forall_finite (P : num -> Prop) l :
  (forall x, P x -> is_finite x = true) -> Forall P l -> forallb is_finite l = true.
Proof.
  intros HP H. apply forallb_forall. intros x Hx.
  apply HP. eapply Forall_forall; eauto.
Qed.


Lemma fin_zero_finite x : fin_zero x -> is_finite x = true.
Proof. now intros (q & -> & _). Qed.


Lemma fold_nadd_zero l a :
  a == 0 -> Forall fin_zero l ->
  exists q, fold_left nadd l (Fin a) = Fin q /\ q == 0.
Proof.
  revert a; induction l as [|x l IH]; intros a Ha H.
  - exists a. simpl. auto.
  - inversion H as [|? ? (q & -> & Hq) Hl]; subst.
    destruct (IH (a + q)) as (r & Er & Hr); auto; [lra|].
    exists r. simpl. now rewrite Er.
Qed.

Lemma of_nat_nonzero n : (1 <= n)%nat -> 0 < inject_Z (Z.of_nat n).
Proof.
  intros H. change 0 with (inject_Z 0). rewrite <- Zlt_Qlt. lia.
Qed.


Lemma mean_all_zero l : l <> [] -> Forall fin_zero l -> fin_zero (Pandas.mean_all l).
Proof.
  intros Hne H. unfold Pandas.mean_all, Pandas.nsum.
  destruct (fold_nadd_zero l 0 (Qeq_refl 0) H) as (q & -> & Hq).
  assert (Hn : 0 < inject_Z (Z.of_nat (length l))).
  { apply of_nat_nonzero. destruct l; [congruence|simpl; lia]. }
  unfold of_nat, of_Z. rewrite ndiv_Fin_nz by lra.
  eexists; split; [reflexivity|]. rewrite Hq. field. lra.
Qed.

(** The rolling mean at the last position of a column whose last [w]
    entries satisfy [P]. *)
Lemma rolling_mean_last (P : num -> Prop) s w n :
  (forall x, P x -> is_finite x = true) ->
  (forall l, l <> [] -> Forall P l -> P (Pandas.mean_all l)) ->
  length s = S n -> (1 <= w <= S n)%nat ->
  (forall j, (S n - w <= j <= n)%nat -> P (nth j s NaN)) ->
  P (Pandas.at_ (Pandas.rolling_apply Pandas.mean_all w s) n).
Proof.
  intros Hfin Hmean Hl Hw H.
  rewrite rolling_apply_nth by lia.
  replace (n + 1 <? w)%nat with false by (symmetry; apply Nat.ltb_ge; lia).
  assert (HF : Forall P (Pandas.window_at s w n)).
  { apply window_at_Forall; try lia. intros j Hj. apply H. lia. }
  rewrite (Forall_finite P) by assumption.
  apply Hmean; auto.
  intros E. apply (f_equal (@length num)) in E.
  rewrite window_at_length in E by lia. simpl in E. lia.
Qed.

Lemma gain_col_length prices : length (gain_col prices) = length prices.
Proof.
  unfold gain_col. cbv zeta.
  rewrite where_length; rewrite ?length_map, ?diff_length; unfold Pandas.of_prices;
    now rewrite ?length_map.
Qed.

Lemma loss_col_length prices : length (loss_col prices) = length prices.
Proof.
  unfold loss_col. cbv zeta. rewrite length_map.
  rewrite where_length; rewrite ?length_map, ?diff_length; unfold Pandas.of_prices;
    now rewrite ?length_map.
Qed.

Lemma gain_col_nth prices i :
  (1 <= i < length prices)%nat ->
  let d := nth i prices 0 - nth (i - 1) prices 0 in
  nth i (gain_col prices) NaN = if Qgtb d 0 then Fin d else Fin 0.
Proof.
  intros Hi d. unfold gain_col. cbv zeta.
  rewrite where_nth by (rewrite diff_length; unfold Pandas.of_prices; now rewrite length_map).
  rewrite diff_prices_nth by assumption. reflexivity.
Qed.

Lemma loss_col_nth prices i :
  (1 <= i < length prices)%nat ->
  let d := nth i prices 0 - nth (i - 1) prices 0 in
  nth i (loss_col prices) NaN = if Qltb d 0 then Fin (- d) else Fin (- 0).
Proof.
  intros Hi d. unfold loss_col. cbv zeta.
  rewrite (map_nth_lt nneg _ _ NaN)
    by (rewrite where_length; rewrite ?length_map, diff_length;
        unfold Pandas.of_prices; now rewrite ?length_map).
  rewrite where_nth by (rewrite diff_length; unfold Pandas.of_prices; now rewrite length_map).
  rewrite diff_prices_nth by assumption.
  change (Fin (nth i prices 0 - nth (i - 1) prices 0) <? Fin 0)%num with (Qltb d 0).
  now destruct (Qltb d 0).
Qed.

Lemma calculate_rsi_last prices period overbought oversold n :
  (0 <= period)%Z -> length prices = S n -> (period + 1 <= Z.of_nat (S n))%Z ->
  let w := Z.to_nat period in
  let avg_gain := Pandas.at_ (Pandas.rolling_apply Pandas.mean_all w (gain_col prices)) n in
  let avg_loss := Pandas.at_ (Pandas.rolling_apply Pandas.mean_all w (loss_col prices)) n in
  let rsi_value := (Fin 100 - Fin 100 / (Fin 1 + avg_gain / avg_loss))%num in
  Rsi.calculate_rsi prices period overbought oversold =
  inr {| Rsi.rsi := round rsi_value 2;
         Rsi.period := period;
         Rsi.signal := Rsi.get_rsi_signal rsi_value overbought oversold |}.
Proof.
  intros Hp Hl Hn w avg_gain avg_loss rsi_value.
  unfold Rsi.calculate_rsi.
  replace (len prices <? period + 1)%Z with false
    by (symmetry; apply Z.ltb_ge; unfold len; rewrite Hl; lia).
  rewrite !rolling_mean_ok by assumption. cbn [bind ret].
  fold (gain_col prices). fold (loss_col prices). fold w.
  assert (Hlg : length (Pandas.rolling_apply Pandas.mean_all w (gain_col prices)) = S n)
    by now rewrite rolling_apply_length, gain_col_length.
  assert (Hll : length (Pandas.rolling_apply Pandas.mean_all w (loss_col prices)) = S n)
    by now rewrite rolling_apply_length, loss_col_length.
  rewrite (iloc_neg_last _ n NaN) by (rewrite length_map, map2_length; lia).
  cbn [bind ret].
  rewrite (map_nth_lt _ _ _ NaN) by (rewrite map2_length; lia).
  rewrite (map2_nth _ _ _ _ NaN NaN) by lia.
  reflexivity.
Qed.




(* ================================================================== *)
(** ** Insufficient data *)

Lemma prefix_app a b : String.prefix a (a ++ b) = true.
Proof.
  induction a as [|ch a IH]; simpl.
  - now destruct b.
  - destruct (ascii_dec ch ch); [exact IH | congruence].
Qed.

Lemma prefix_refl a : String.prefix a a = true.
Proof.
  induction a as [|ch a IH]; simpl; auto.
  destruct (ascii_dec ch ch); [exact IH | congruence].
Qed.

Lemma contains_here needle b : Spec.contains needle (needle ++ b) = true.
Proof.
  destruct (needle ++ b)%string eqn:E; cbn [Spec.contains];
    rewrite <- E, prefix_app; reflexivity.
Qed.

Lemma contains_self needle : Spec.contains needle needle = true.
Proof. destruct needle; cbn [Spec.contains]; now rewrite prefix_refl. Qed.

Lemma contains_later needle a b :
  Spec.contains needle b = true -> Spec.contains needle (a ++ b) = true.
Proof.
  intros H. induction a as [|ch a IH]; [exact H|].
  cbn [append Spec.contains]. rewrite IH. apply orb_true_r.
Qed.

Lemma need_at_least_states_required m n k :
  Spec.states_count (need_at_least m n k) m = true.
Proof.
  unfold Spec.states_count, need_at_least.
  apply contains_later, contains_here.
Qed.

Lemma need_at_least_states_supplied m n k :
  Spec.states_count (need_at_least m n k) k = true.
Proof.
  unfold Spec.states_count, need_at_least.
  do 5 apply contains_later. apply contains_self.
Qed.

(** The length checks, indicator by indicator: each of the ten
    indicators, called with fewer data points than its documented minimum,
    raises a ValueError whatever its other arguments are.  The message
    states the required count; for every indicator but VWAP it has the
    form "Need at least R prices|candles, got S" and so states the supplied
    count as well. *)
Lemma insufficient_data_is_reported (np_log : num -> num) (c : Spec.call) :
  (Spec.supplied c < Spec.documented_minimum c)%Z ->
  exists msg,
    Spec.raised np_log c = Some (ValueError msg) /\
    Spec.states_count msg (Spec.documented_minimum c) = true /\
    (if Spec.is_vwap c
     then msg = "Need at least 1 candle"%string
     else msg = need_at_least (Spec.documented_minimum c) (Spec.noun c) (Spec.supplied c) /\
          Spec.states_count msg (Spec.supplied c) = true).
Proof.
  intros H.
  destruct c; cbn [Spec.supplied Spec.documented_minimum Spec.noun Spec.is_vwap] in *;
    cbn [Spec.raised];
    match goal with
    | |- context [Spec.raised_by (?f _)] => unfold f
    | |- context [Spec.raised_by (?f _ _)] => unfold f
    | |- context [Spec.raised_by (?f _ _ _)] => unfold f
    | |- context [Spec.raised_by (?f _ _ _ _)] => unfold f
    | |- context [Spec.raised_by (?f _ _ _ _ _)] => unfold f
    end;
    cbv zeta;
    try replace (period * 2 + 1)%Z with (2 * period + 1)%Z by lia;
    match goal with
    | |- context [(len ?l <? ?b)%Z] =>
        replace (len l <? b)%Z with true by (symmetry; apply Z.ltb_lt; lia)
    end;
    cbn [Spec.raised_by raise];
    eexists; (split; [reflexivity|]).
  1-9: split;
    [apply need_at_least_states_required
    |split; [reflexivity | apply need_at_least_states_supplied]].
  split; reflexivity.
Qed.

Example insufficient_data_rsi :
  Rsi.calculate_rsi [1; 2; 3] 14 70 30 =
  inl (ValueError "Need at least 15 prices, got 3").
Proof. reflexivity. Qed.

(** C4 (the input on which the code departs from it): called with no
    candle, [calculate_vwap] raises its insufficient-data error before
    anything else, but the message "Need at least 1 candle" states the
    required count only; the supplied count 0 does not occur in it, whereas
    the nine other indicators append ", got S". *)
Theorem vwap_message_omits_supplied_count :
  Vwap.calculate_vwap [] = inl (ValueError "Need at least 1 candle") /\
  Spec.supplied (Spec.CallVwap []) = 0%Z /\
  Spec.documented_minimum (Spec.CallVwap []) = 1%Z /\
  Spec.states_count "Need at least 1 candle" 1 = true /\
  Spec.states_count "Need at least 1 candle" 0 = false.
Proof. repeat split. Qed.

(* ================================================================== *)
(** ** MACD *)

Lemma ewm_from_length alpha prev xs : length (Pandas.ewm_from alpha prev xs) = length xs.
Proof. revert prev; induction xs; intros; simpl; auto. Qed.

Lemma ewm_mean_ok span xs :
  (1 <= span)%Z ->
  exists ys, Pandas.ewm_mean span xs = inr ys /\ length ys = length xs.
Proof.
  intros H. unfold Pandas.ewm_mean.
  replace (span <? 1)%Z with false by (symmetry; apply Z.ltb_ge; lia).
  eexists; split; [reflexivity|].
  destruct xs; simpl; auto using ewm_from_length.
Qed.

Lemma Qleb_minus a b : Qleb a b = Qleb (a - b) 0.
Proof. apply eq_true_iff_eq. rewrite !Qleb_le. split; intros; lra. Qed.

Lemma Qgeb_minus a b : Qgeb a b = Qgeb (a - b) 0.
Proof. apply eq_true_iff_eq. rewrite !Qgeb_ge. split; intros; lra. Qed.

Lemma Qltb_minus a b : Qltb a b = Qltb (a - b) 0.
Proof. apply eq_true_iff_eq. rewrite !Qltb_lt. split; intros; lra. Qed.

Lemma Qgtb_minus a b : Qgtb a b = Qgtb (a - b) 0.
Proof. apply eq_true_iff_eq. rewrite !Qgtb_gt. split; intros; lra. Qed.

Lemma crossover_label_as_specified pm ps m s :
  Macd.crossover_label pm ps (pm - ps) m s (m - s) =
  Spec.macd_label_specified (pm - ps) (m - s) (pm - ps) (m - s).
Proof.
  unfold Macd.crossover_label, Spec.macd_label_specified.
  now rewrite (Qleb_minus pm ps), (Qgeb_minus pm ps), (Qgtb_minus m s), (Qltb_minus m s).
Qed.

(** C5: with at least slow+signal prices (and spans >= 1) [calculate_macd]
    returns, and its label is the one the specification describes: the
    crossover of (MACD - signal) over the last two points first, then the
    histogram momentum, then the sign of the histogram, else neutral. *)
Theorem macd_signal_priority (prices : list Q) (fast_period slow_period signal_period : Z) :
  (1 <= fast_period)%Z -> (1 <= slow_period)%Z -> (1 <= signal_period)%Z ->
  (slow_period + signal_period <= len prices)%Z ->
  exists ema_fast ema_slow signal_line r,
    Pandas.ewm_mean fast_period prices = inr ema_fast /\
    Pandas.ewm_mean slow_period prices = inr ema_slow /\
    let macd_line := Pandas.map2 Qminus ema_fast ema_slow in
    let histogram := Pandas.map2 Qminus macd_line signal_line in
    let last := (length prices - 1)%nat in
    let prev := (length prices - 2)%nat in
    let d i := nth i macd_line 0 - nth i signal_line 0 in
    Pandas.ewm_mean signal_period macd_line = inr signal_line /\
    Macd.calculate_macd prices fast_period slow_period signal_period = inr r /\
    Macd.crossover_signal r =
      Spec.macd_label_specified (d prev) (d last)
                                (nth prev histogram 0) (nth last histogram 0).
Proof.
  intros Hf Hs Hg Hlen.
  destruct (ewm_mean_ok fast_period prices Hf) as (ema_fast & Ef & Lf).
  destruct (ewm_mean_ok slow_period prices Hs) as (ema_slow & Es & Ls).
  destruct (ewm_mean_ok signal_period (Pandas.map2 Qminus ema_fast ema_slow) Hg)
    as (signal_line & Eg & Lg).
  exists ema_fast, ema_slow, signal_line.
  unfold Macd.calculate_macd.
  replace (len prices <? slow_period + signal_period)%Z with false
    by (symmetry; apply Z.ltb_ge; lia).
  rewrite Ef, Es. cbn [bind ret]. rewrite Eg. cbn [bind ret].
  set (macd_line := Pandas.map2 Qminus ema_fast ema_slow) in *.
  set (histogram := Pandas.map2 Qminus macd_line signal_line).
  assert (Lm : length macd_line = length prices)
    by (unfold macd_line; rewrite map2_length; lia).
  rewrite Lm in Lg.
  assert (Lh : length histogram = length prices)
    by (unfold histogram; rewrite map2_length; lia).
  unfold len in Hlen.
  destruct (length prices) as [|[|n]] eqn:Hl; try lia.
  rewrite (iloc_neg_last macd_line (S n) 0 Lm), (iloc_neg_last signal_line (S n) 0 Lg),
    (iloc_neg_last histogram (S n) 0 Lh), (iloc_neg_prev macd_line n 0 Lm),
    (iloc_neg_prev signal_line n 0 Lg), (iloc_neg_prev histogram n 0 Lh).
  cbn [bind ret].
  eexists; split; [reflexivity|]. split; [reflexivity|]. cbv zeta.
  split; [reflexivity|]. split; [reflexivity|].
  cbn [Macd.crossover_signal].
  replace (S (S n) - 1)%nat with (S n) by lia.
  replace (S (S n) - 2)%nat with n by lia.
  unfold histogram.
  rewrite !(map2_nth Qminus macd_line signal_line _ 0 0 0) by lia.
  apply crossover_label_as_specified.
Qed.

Lemma macd_signal_priority_witness :
  exists ema_fast ema_slow signal_line r,
    Pandas.ewm_mean 1 [1; 2; 3; 4; 5] = inr ema_fast /\
    Pandas.ewm_mean 2 [1; 2; 3; 4; 5] = inr ema_slow /\
    let macd_line := Pandas.map2 Qminus ema_fast ema_slow in
    let histogram := Pandas.map2 Qminus macd_line signal_line in
    let d i := nth i macd_line 0 - nth i signal_line 0 in
    Pandas.ewm_mean 2 macd_line = inr signal_line /\
    Macd.calculate_macd [1; 2; 3; 4; 5] 1 2 2 = inr r /\
    Macd.crossover_signal r =
      Spec.macd_label_specified (d 3%nat) (d 4%nat) (nth 3 histogram 0) (nth 4 histogram 0).
Proof.
  apply (macd_signal_priority [1; 2; 3; 4; 5] 1 2 2); try lia.
  vm_compute; discriminate.
Defined.

(* ================================================================== *)
(** ** Bollinger %B at the bands *)

Lemma compute_bands_ok prices period std_dev :
  (1 <= period)%Z -> (period <= len prices)%Z ->
  exists middle std p,
    BollingerBands.compute_bands prices period std_dev =
    inr {| BollingerBands.b_middle := middle;
           BollingerBands.b_upper := (middle + Fin std_dev * std)%num;
           BollingerBands.b_lower := (middle - Fin std_dev * std)%num;
           BollingerBands.b_price := p;
           BollingerBands.b_bandwidth :=
             ((middle + Fin std_dev * std) - (middle - Fin std_dev * std))%num |}.
Proof.
  intros Hp Hlen. unfold len in Hlen.
  destruct (length prices) as [|n] eqn:Hl; [lia|].
  unfold BollingerBands.compute_bands.
  rewrite rolling_mean_ok, rolling_std_ok by lia. cbn [bind ret].
  rewrite (iloc_neg_last _ n NaN)
    by (rewrite rolling_apply_length; unfold Pandas.of_prices; now rewrite length_map).
  cbn [bind ret].
  rewrite (iloc_neg_last _ n NaN)
    by (rewrite rolling_apply_length; unfold Pandas.of_prices; now rewrite length_map).
  cbn [bind ret].
  rewrite (list_neg_last prices n 0 Hl). cbn [bind ret].
  eauto.
Qed.

Lemma nne_Fin a b : nne (Fin a) (Fin b) = true -> ~ a == b.
Proof.
  unfold nne, neqb. cbn [ncmp]. rewrite Qeq_alt.
  destruct (a ?= b); simpl; congruence.
Qed.

(** C6 (as the code has it): whenever the bandwidth is non-zero,
    [percent_b] is exactly 0 when the last price equals the computed lower
    band and exactly 1 when it equals the computed upper band; when the
    bandwidth is zero the guard returns 0.5. *)
Theorem bollinger_percent_b_at_bands (prices : list Q) (period : Z) (std_dev : Q) :
  (1 <= period)%Z -> (period <= len prices)%Z ->
  exists b r,
    BollingerBands.compute_bands prices period std_dev = inr b /\
    BollingerBands.calculate_bollinger_bands prices period std_dev = inr r /\
    let price := Fin (BollingerBands.b_price b) in
    let nonzero := nne (BollingerBands.b_bandwidth b) (Fin 0) in
    (nonzero = false -> BollingerBands.percent_b r = Fin (1 # 2)) /\
    (nonzero = true -> num_eq price (BollingerBands.b_lower b) ->
     BollingerBands.percent_b r = Fin 0) /\
    (nonzero = true -> num_eq price (BollingerBands.b_upper b) ->
     BollingerBands.percent_b r = Fin 1).
Proof.
  intros Hp Hlen.
  destruct (compute_bands_ok prices period std_dev Hp Hlen) as (middle & std & p & Hb).
  unfold BollingerBands.calculate_bollinger_bands.
  replace (len prices <? period)%Z with false by (symmetry; apply Z.ltb_ge; lia).
  rewrite Hb. cbn [bind ret].
  eexists; eexists; split; [reflexivity|]. split; [reflexivity|].
  cbn [BollingerBands.percent_b BollingerBands.b_price BollingerBands.b_bandwidth
       BollingerBands.b_lower BollingerBands.b_upper].
  unfold BollingerBands.percent_b_of.
  cbn [BollingerBands.b_price BollingerBands.b_bandwidth BollingerBands.b_lower].
  set (k := (Fin std_dev * std)%num).
  clearbody k.
  split; [|split].
  - intros ->. reflexivity.
  - intros Hnz Heq. rewrite Hnz.
    destruct middle as [m| | |], k as [x| | |]; simpl in Heq; try contradiction.
    apply nne_Fin in Hnz. cbn [nadd nsub nneg] in *.
    rewrite ndiv_Fin_nz by assumption. cbn [round]. f_equal.
    rewrite (round_q_proper _ 0); [reflexivity|].
    rewrite Heq. field. assumption.
  - intros Hnz Heq. rewrite Hnz.
    destruct middle as [m| | |], k as [x| | |]; simpl in Heq; try contradiction.
    apply nne_Fin in Hnz. cbn [nadd nsub nneg] in *.
    rewrite ndiv_Fin_nz by assumption. cbn [round]. f_equal.
    rewrite (round_q_proper _ 1); [reflexivity|].
    rewrite Heq. field. assumption.
Qed.

Lemma bollinger_percent_b_at_bands_witness :
  (exists r, BollingerBands.calculate_bollinger_bands [2; 3; 1] 3 1 = inr r /\
             BollingerBands.percent_b r = Fin 0) /\
  (exists r, BollingerBands.calculate_bollinger_bands [2; 1; 3] 3 1 = inr r /\
             BollingerBands.percent_b r = Fin 1).
Proof.
  split.
  - destruct (bollinger_percent_b_at_bands [2; 3; 1] 3 1)
      as (b & r & Hb & Hr & _ & Hlow & _); [lia | vm_compute; discriminate |].
    exists r. split; [exact Hr|].
    vm_compute in Hb. injection Hb as <-.
    apply Hlow; reflexivity.
  - destruct (bollinger_percent_b_at_bands [2; 1; 3] 3 1)
      as (b & r & Hb & Hr & _ & _ & Hup); [lia | vm_compute; discriminate |].
    exists r. split; [exact Hr|].
    vm_compute in Hb. injection Hb as <-.
    apply Hup; reflexivity.
Defined.

(** C6 as stated fails: for the constant series [5; 5] with period 2 and
    multiplier 2 the last price equals both computed bands (the bandwidth
    is zero) and percent_b is 0.5, neither 0 nor 1. *)
Lemma bollinger_percent_b_flat_bands :
  exists b r,
    BollingerBands.compute_bands [5; 5] 2 2 = inr b /\
    BollingerBands.calculate_bollinger_bands [5; 5] 2 2 = inr r /\
    num_eq (Fin (BollingerBands.b_price b)) (BollingerBands.b_lower b) /\
    num_eq (Fin (BollingerBands.b_price b)) (BollingerBands.b_upper b) /\
    BollingerBands.percent_b r = Fin (1 # 2) /\
    BollingerBands.percent_b r <> Fin 0 /\
    BollingerBands.percent_b r <> Fin 1.
Proof.
  eexists. eexists. split; [vm_compute; reflexivity|].
  split; [vm_compute; reflexivity|].
  cbn [BollingerBands.b_price BollingerBands.b_lower BollingerBands.b_upper
       BollingerBands.percent_b].
  split; [vm_compute; reflexivity|]. split; [vm_compute; reflexivity|].
  split; [reflexivity|]. split; discriminate.
Qed.

(* ================================================================== *)
(** ** Pivot points: nearest levels *)

Lemma min_by_price_lowest items :
  Spec.is_lowest items (PivotPoints.to_ref (PivotPoints.min_by_price items)).
Proof.
  destruct items as [|x rest]; [reflexivity|].
  unfold PivotPoints.min_by_price.
  set (step := fun best y : string * Q => if Qltb (snd y) (snd best) then y else best).
  assert (H : forall rest x,
             In (fold_left step rest x) (x :: rest) /\
             snd (fold_left step rest x) <= snd x /\
             forall kv, In kv rest -> snd (fold_left step rest x) <= snd kv).
  { clear. intros rest. induction rest as [|y rest IH]; intros x.
    - simpl. repeat split; auto. apply Qle_refl. intros ? [].
    - cbn [fold_left]. destruct (IH (step x y)) as (Hin & Hle & Hall).
      assert (Hs : (step x y = x \/ step x y = y) /\
                   snd (step x y) <= snd x /\ snd (step x y) <= snd y).
      { unfold step. destruct (Qltb (snd y) (snd x)) eqn:E.
        - apply Qltb_lt in E. repeat split; auto; lra.
        - assert (~ snd y < snd x) by (rewrite <- Qltb_lt; congruence).
          repeat split; auto; lra. }
      destruct Hs as (Hor & Hx & Hy). split; [|split].
      + destruct Hin as [Hin|Hin]; [|right; right; exact Hin].
        rewrite <- Hin. destruct Hor as [->| ->]; [left|right; left]; reflexivity.
      + lra.
      + intros kv [<-|Hkv]; [lra|auto]. }
  destruct (H rest x) as (Hin & Hle & Hall).
  destruct (fold_left step rest x) as [k v] eqn:E. simpl.
  split; [exact Hin|]. intros kv [<-|Hkv]; auto.
Qed.

Lemma max_by_price_highest items :
  Spec.is_highest items (PivotPoints.to_ref (PivotPoints.max_by_price items)).
Proof.
  destruct items as [|x rest]; [reflexivity|].
  unfold PivotPoints.max_by_price.
  set (step := fun best y : string * Q => if Qgtb (snd y) (snd best) then y else best).
  assert (H : forall rest x,
             In (fold_left step rest x) (x :: rest) /\
             snd x <= snd (fold_left step rest x) /\
             forall kv, In kv rest -> snd kv <= snd (fold_left step rest x)).
  { clear. intros rest. induction rest as [|y rest IH]; intros x.
    - simpl. repeat split; auto. apply Qle_refl. intros ? [].
    - cbn [fold_left]. destruct (IH (step x y)) as (Hin & Hle & Hall).
      assert (Hs : (step x y = x \/ step x y = y) /\
                   snd x <= snd (step x y) /\ snd y <= snd (step x y)).
      { unfold step. destruct (Qgtb (snd y) (snd x)) eqn:E.
        - apply Qgtb_gt in E. repeat split; auto; lra.
        - assert (~ snd x < snd y) by (rewrite <- Qgtb_gt; congruence).
          repeat split; auto; lra. }
      destruct Hs as (Hor & Hx & Hy). split; [|split].
      + destruct Hin as [Hin|Hin]; [|right; right; exact Hin].
        rewrite <- Hin. destruct Hor as [->| ->]; [left|right; left]; reflexivity.
      + lra.
      + intros kv [<-|Hkv]; [lra|auto]. }
  destruct (H rest x) as (Hin & Hle & Hall).
  destruct (fold_left step rest x) as [k v] eqn:E. simpl.
  split; [exact Hin|]. intros kv [<-|Hkv]; auto.
Qed.

Lemma filter_and {X} (f g : X -> bool) l :
  filter (fun x => f x && g x) l = filter g (filter f l).
Proof.
  induction l as [|x l IH]; simpl; auto.
  destruct (f x); simpl; [destruct (g x)|]; now rewrite ?IH.
Qed.

Lemma levels_have_pivot pivot_type high low close :
  exists pivot,
    lookup "pivot"
      (if String.eqb pivot_type "fibonacci"
       then PivotPoints.calculate_fibonacci_pivots high low close
       else if String.eqb pivot_type "camarilla"
            then PivotPoints.calculate_camarilla_pivots high low close
            else PivotPoints.calculate_standard_pivots high low close) = Some pivot.
Proof.
  destruct (String.eqb pivot_type "fibonacci"); [|destruct (String.eqb pivot_type "camarilla")];
    eexists; reflexivity.
Qed.

(** C7 (as the code has it): with a current price above the pivot level,
    [nearest_resistance] is the least r-level strictly above the price and
    [nearest_support] the greatest of all s-levels and the pivot, whatever
    their position relative to the price; otherwise [nearest_support] is
    the greatest s-level strictly below the price and [nearest_resistance]
    the least of all r-levels and the pivot.  The label is [above_pivot]
    in the first case and [below_pivot] in the second. *)
Theorem pivot_nearest_levels (prev_candle : candle) (pivot_type : string)
  (current_price high low close : Q) :
  lookup "high" prev_candle = Some high ->
  lookup "low" prev_candle = Some low ->
  lookup "close" prev_candle = Some close ->
  exists r pivot,
    PivotPoints.calculate_pivot_points prev_candle pivot_type (Some current_price) = inr r /\
    lookup "pivot" (PivotPoints.levels r) = Some pivot /\
    let levels := PivotPoints.levels r in
    (pivot < current_price ->
     PivotPoints.position r = Some "above_pivot"%string /\
     Spec.is_lowest
       (filter (fun kv => Qgtb (snd kv) current_price) (Spec.r_levels levels))
       (PivotPoints.nearest_resistance r) /\
     Spec.is_highest (Spec.s_levels_and_pivot levels) (PivotPoints.nearest_support r)) /\
    (current_price <= pivot ->
     PivotPoints.position r = Some "below_pivot"%string /\
     Spec.is_highest
       (filter (fun kv => Qltb (snd kv) current_price) (Spec.s_levels levels))
       (PivotPoints.nearest_support r) /\
     Spec.is_lowest (Spec.r_levels_and_pivot levels) (PivotPoints.nearest_resistance r)).
Proof.
  intros Hh Hl Hc.
  unfold PivotPoints.calculate_pivot_points. cbn [filter].
  rewrite (has_key_lookup _ _ _ Hh), (has_key_lookup _ _ _ Hl), (has_key_lookup _ _ _ Hc).
  cbn [negb]. rewrite Hh, Hl, Hc.
  destruct (levels_have_pivot pivot_type high low close) as (pivot & Hpiv).
  set (levels := if String.eqb pivot_type "fibonacci" then _ else _) in *.
  rewrite Hpiv.
  destruct (Qgtb current_price pivot) eqn:E.
  - apply Qgtb_gt in E.
    eexists; exists pivot; split; [reflexivity|].
    cbn [PivotPoints.levels PivotPoints.position PivotPoints.nearest_resistance
         PivotPoints.nearest_support].
    split; [exact Hpiv|]. split; [|intros; lra].
    intros _. split; [reflexivity|]. split.
    + unfold Spec.r_levels. rewrite <- filter_and. apply min_by_price_lowest.
    + apply max_by_price_highest.
  - assert (~ pivot < current_price) by (rewrite <- Qgtb_gt; congruence).
    eexists; exists pivot; split; [reflexivity|].
    cbn [PivotPoints.levels PivotPoints.position PivotPoints.nearest_resistance
         PivotPoints.nearest_support].
    split; [exact Hpiv|]. split; [intros; lra|].
    intros _. split; [reflexivity|]. split.
    + unfold Spec.s_levels. rewrite <- filter_and. apply max_by_price_highest.
    + apply min_by_price_lowest.
Qed.

Lemma pivot_nearest_levels_witness :
  exists r,
    PivotPoints.calculate_pivot_points Examples.prev_candle "standard" (Some 99) = inr r /\
    PivotPoints.position r = Some "above_pivot"%string /\
    PivotPoints.nearest_resistance r =
      Some {| PivotPoints.level := "r1"; PivotPoints.price := 100.33 |} /\
    PivotPoints.nearest_support r =
      Some {| PivotPoints.level := "pivot"; PivotPoints.price := 97.67 |} /\
    Spec.is_lowest
      (filter (fun kv => Qgtb (snd kv) 99) (Spec.r_levels (PivotPoints.levels r)))
      (PivotPoints.nearest_resistance r) /\
    Spec.is_highest (Spec.s_levels_and_pivot (PivotPoints.levels r))
                    (PivotPoints.nearest_support r).
Proof.
  destruct (pivot_nearest_levels Examples.prev_candle "standard" 99 100 95 98)
    as (r & pivot & Hr & Hpiv & Habove & _); try reflexivity.
  exists r. split; [exact Hr|].
  assert (Hr' := Hr). vm_compute in Hr'. injection Hr' as <-.
  vm_compute in Hpiv. injection Hpiv as <-.
  destruct Habove as (Hpos & Hres & Hsup); [reflexivity|].
  split; [reflexivity|]. split; [reflexivity|]. split; [reflexivity|].
  split; [exact Hres | exact Hsup].
Defined.

(** C7 as stated fails: with the current price exactly at s1 = 95.33 the
    code returns s2 = 92.67 as nearest support, while the greatest support
    level at or below the price is s1 itself; and with the price exactly at
    the pivot 97.67 it returns the pivot as nearest resistance, which is
    not above the price, while the least resistance level above it is
    r1 = 100.33. *)
Lemma pivot_support_at_price_is_skipped :
  (exists r,
     PivotPoints.calculate_pivot_points Examples.prev_candle "standard" (Some 95.33) = inr r /\
     PivotPoints.nearest_support r =
       Some {| PivotPoints.level := "s2"; PivotPoints.price := 92.67 |} /\
     Spec.nearest_support_specified (PivotPoints.levels r) 95.33 =
       Some {| PivotPoints.level := "s1"; PivotPoints.price := 95.33 |} /\
     PivotPoints.nearest_support r <>
       Spec.nearest_support_specified (PivotPoints.levels r) 95.33) /\
  (exists r,
     PivotPoints.calculate_pivot_points Examples.prev_candle "standard" (Some 97.67) = inr r /\
     PivotPoints.nearest_resistance r =
       Some {| PivotPoints.level := "pivot"; PivotPoints.price := 97.67 |} /\
     Spec.nearest_resistance_specified (PivotPoints.levels r) 97.67 =
       Some {| PivotPoints.level := "r1"; PivotPoints.price := 100.33 |} /\
     PivotPoints.nearest_resistance r <>
       Spec.nearest_resistance_specified (PivotPoints.levels r) 97.67).
Proof.
  split.
  - eexists. split; [vm_compute; reflexivity|].
    cbn [PivotPoints.nearest_support PivotPoints.levels].
    split; [reflexivity|]. split; [vm_compute; reflexivity|].
    vm_compute. discriminate.
  - eexists. split; [vm_compute; reflexivity|].
    cbn [PivotPoints.nearest_resistance PivotPoints.levels].
    split; [reflexivity|]. split; [vm_compute; reflexivity|].
    vm_compute. discriminate.
Qed.

(* ================================================================== *)
(** ** Pivot points: the standard levels *)


(* ================================================================== *)
(** ** EMA: the smoothing argument *)

(** C9: [calculate_ema] returns the same result for any two values of
    [smoothing], and so does [main] whether or not [--smoothing] is
    given. *)
Theorem ema_ignores_smoothing (prices : list Q) (period : Z) (smoothing smoothing' : Q) :
  Ema.calculate_ema prices period smoothing = Ema.calculate_ema prices period smoothing' /\
  forall period_opt : option Z,
    Ema.main prices period_opt (Some smoothing) = Ema.main prices period_opt None.
Proof. split; [reflexivity | intros ?; reflexivity]. Qed.

(* ================================================================== *)
(** ** Stochastic oscillator on a flat window *)

(** Reading a column of a frame built from at least one candle. *)
Lemma frame_column_nonempty f candles :
  candles <> [] -> frame_column f candles = inr (column f candles).
Proof. destruct candles; [congruence | reflexivity]. Qed.

Lemma frame_column_same f candles candles' :
  column f candles = column f candles' ->
  frame_column f candles = frame_column f candles'.
Proof.
  intros H. destruct candles, candles'; try discriminate H; [reflexivity|].
  unfold frame_column. now rewrite H.
Qed.

Lemma check_fields_from_ok required candles i :
  Forall (fun c => forall f, In f required -> has_key f c = true) candles ->
  check_fields_from i required candles = inr tt.
Proof.
  intros H. revert i. induction H as [|c candles Hc _ IH]; intros i; [reflexivity|].
  cbn [check_fields_from].
  replace (filter (fun f => negb (has_key f c)) required) with (@nil string); [apply IH|].
  symmetry. clear - Hc. induction required as [|f required IH]; [reflexivity|].
  cbn [filter]. rewrite (Hc f) by (left; reflexivity). cbn [negb].
  apply IH. intros g Hg. apply Hc. right; exact Hg.
Qed.

Lemma check_ohlc_ok candles :
  Forall Spec.has_ohlc candles ->
  check_fields ["high"; "low"; "close"]%string candles = inr tt.
Proof.
  intros H. apply check_fields_from_ok.
  eapply Forall_impl; [|exact H].
  intros c (Hh & Hl & Hc) f [<-|[<-|[<-|[]]]]; assumption.
Qed.

Lemma column_finite f candles :
  Forall (fun c => has_key f c = true) candles ->
  Forall (fun x => is_finite x = true) (column f candles).
Proof.
  intros H. unfold column. apply Forall_map.
  eapply Forall_impl; [|exact H].
  intros c Hc. unfold has_key in Hc. now destruct (lookup f c).
Qed.

Lemma window_at_last s w n :
  length s = S n -> (w <= S n)%nat ->
  Pandas.window_at s w n = Spec.last_n w s.
Proof.
  intros Hl Hw. unfold Pandas.window_at, Spec.last_n. rewrite Hl.
  replace (n + 1 - w)%nat with (S n - w)%nat by lia.
  apply firstn_all2. rewrite length_skipn. lia.
Qed.

Lemma window_at_finite s w i :
  Forall (fun x => is_finite x = true) s ->
  forallb is_finite (Pandas.window_at s w i) = true.
Proof.
  intros H. apply forallb_forall. revert H. unfold Pandas.window_at.
  generalize (i + 1 - w)%nat as k. intros k H.
  rewrite <- (firstn_skipn k s) in H. apply Forall_app in H. destruct H as [_ H].
  rewrite <- (firstn_skipn w (skipn k s)) in H. apply Forall_app in H. destruct H as [H _].
  now apply Forall_forall.
Qed.

Lemma window_at_has_last s w i :
  (1 <= w <= i + 1)%nat -> (i < length s)%nat ->
  In (nth i s NaN) (Pandas.window_at s w i).
Proof.
  intros Hw Hi.
  replace (nth i s NaN) with (nth (w - 1) (Pandas.window_at s w i) NaN).
  - apply nth_In. rewrite window_at_length; lia.
  - unfold Pandas.window_at. rewrite nth_firstn.
    replace (w - 1 <? w)%nat with true by (symmetry; apply Nat.ltb_lt; lia).
    rewrite nth_skipn. f_equal. lia.
Qed.

Lemma rolling_mean_nan_last w s n :
  length s = S n -> nth n s NaN = NaN ->
  Pandas.at_ (Pandas.rolling_apply Pandas.mean_all w s) n = NaN.
Proof.
  intros Hl Hn. rewrite rolling_apply_nth by lia.
  destruct (n + 1 <? w)%nat eqn:E; [reflexivity|]. apply Nat.ltb_ge in E.
  destruct w as [|w].
  - unfold Pandas.window_at. reflexivity.
  - destruct (forallb is_finite (Pandas.window_at s (S w) n)) eqn:F; [|reflexivity].
    rewrite forallb_forall in F.
    specialize (F (nth n s NaN) (window_at_has_last s (S w) n ltac:(lia) ltac:(lia))).
    rewrite Hn in F. discriminate.
Qed.

Lemma stochastic_signal_nan prev_k prev_d overbought oversold :
  Stochastic.signal_of prev_k prev_d NaN NaN overbought oversold = "neutral"%string.
Proof.
  unfold Stochastic.signal_of.
  destruct (prev_k <=? prev_d)%num, (prev_k >=? prev_d)%num; reflexivity.
Qed.

Lemma neqb_Fin_l c y : neqb (Fin c) y = true -> exists b, y = Fin b /\ c == b.
Proof.
  destruct y as [b| | |]; unfold neqb; cbn [ncmp]; try discriminate.
  intros H. exists b. split; [reflexivity|]. apply Qeq_alt.
  destruct (c ?= b); congruence.
Qed.

Lemma neqb_Fin_r x b : neqb x (Fin b) = true -> exists a, x = Fin a /\ a == b.
Proof.
  destruct x as [a| | |]; unfold neqb; cbn [ncmp]; try discriminate.
  intros H. exists a. split; [reflexivity|]. apply Qeq_alt.
  destruct (a ?= b); congruence.
Qed.

(** C10 (as the code has it): with at least two candles, k_period >= 1 and
    d_period >= 1, when every candle has high, low and close, the highest
    high equals the lowest low over the last k_period candles and the last
    close is that value, [calculate_stochastic] returns without raising,
    with k_percent and d_percent NaN and the signal "neutral". *)
Theorem stochastic_flat_window (candles : list candle)
  (k_period d_period overbought oversold : Z) :
  (1 <= k_period)%Z -> (1 <= d_period)%Z ->
  (k_period + d_period - 1 <= len candles)%Z -> (2 <= len candles)%Z ->
  Forall Spec.has_ohlc candles ->
  Spec.zero_range candles k_period ->
  Spec.closes_at_low candles k_period ->
  exists r,
    Stochastic.calculate_stochastic candles k_period d_period overbought oversold = inr r /\
    Stochastic.k_percent r = NaN /\
    Stochastic.d_percent r = NaN /\
    Stochastic.signal r = "neutral"%string.
Proof.
  intros Hk Hd Hmin Hlen Hfields Hrange Hclose.
  unfold len in *.
  destruct (length candles) as [|[|n]] eqn:Hl; try lia.
  unfold Stochastic.calculate_stochastic. cbv zeta.
  replace (len candles <? k_period + d_period - 1)%Z with false
    by (symmetry; apply Z.ltb_ge; unfold len; lia).
  rewrite (check_ohlc_ok candles Hfields). cbn [bind ret].
  unfold Stochastic.k_percent_column.
  rewrite frame_column_nonempty by (intros ->; discriminate Hl). cbn [bind ret].
  rewrite rolling_min_ok, rolling_max_ok by lia. cbn [bind ret].
  rewrite rolling_mean_ok by lia. cbn [bind ret].
  set (w := Z.to_nat k_period) in *.
  assert (Hw : (1 <= w <= S (S n))%nat) by (unfold w; lia).
  set (low_min := Pandas.rolling_apply Pandas.min_all w (column "low" candles)).
  set (high_max := Pandas.rolling_apply Pandas.max_all w (column "high" candles)).
  set (k_col := map _ _).
  assert (Lk : length k_col = S (S n)).
  { unfold k_col, low_min, high_max. col_lengths. }
  assert (Hlast : nth (S n) k_col NaN = NaN).
  { unfold k_col.
    rewrite (map_nth_lt _ _ _ NaN) by (unfold low_min, high_max; col_lengths).
    rewrite (map2_nth _ _ _ _ NaN NaN) by (unfold low_min, high_max; col_lengths).
    rewrite !(map2_nth nsub _ _ _ NaN NaN) by (unfold low_min, high_max; col_lengths).
    assert (Elow : nth (S n) low_min NaN =
                   Pandas.min_all (Spec.last_n w (column "low" candles))).
    { unfold low_min. fold (Pandas.at_ (Pandas.rolling_apply Pandas.min_all w
                                           (column "low" candles)) (S n)).
      rewrite rolling_apply_nth by (rewrite column_length; lia).
      replace (S n + 1 <? w)%nat with false by (symmetry; apply Nat.ltb_ge; lia).
      rewrite window_at_finite.
      - now rewrite window_at_last by (rewrite ?column_length; lia).
      - apply column_finite. eapply Forall_impl; [|exact Hfields]. now intros c (_ & ? & _). }
    assert (Ehigh : nth (S n) high_max NaN =
                    Pandas.max_all (Spec.last_n w (column "high" candles))).
    { unfold high_max. fold (Pandas.at_ (Pandas.rolling_apply Pandas.max_all w
                                            (column "high" candles)) (S n)).
      rewrite rolling_apply_nth by (rewrite column_length; lia).
      replace (S n + 1 <? w)%nat with false by (symmetry; apply Nat.ltb_ge; lia).
      rewrite window_at_finite.
      - now rewrite window_at_last by (rewrite ?column_length; lia).
      - apply column_finite. eapply Forall_impl; [|exact Hfields]. now intros c (? & _). }
    rewrite Elow, Ehigh.
    unfold Spec.zero_range, Spec.closes_at_low in *. cbv zeta in *. fold w in Hrange, Hclose.
    rewrite Hl in Hclose. replace (S (S n) - 1)%nat with (S n) in Hclose by lia.
    unfold Pandas.at_ in Hclose.
    assert (Hfin : is_finite (nth (S n) (column "close" candles) NaN) = true).
    { assert (F : Forall (fun x => is_finite x = true) (column "close" candles)).
      { apply column_finite. eapply Forall_impl; [|exact Hfields]. now intros c (_ & _ & ?). }
      rewrite Forall_forall in F. apply F, nth_In. rewrite column_length. lia. }
    destruct (nth (S n) (column "close" candles) NaN) as [c| | |]; try discriminate.
    destruct (neqb_Fin_l _ _ Hclose) as (b & Eb & Hcb). rewrite Eb in *.
    destruct (neqb_Fin_r _ _ Hrange) as (a & Ea & Hab). rewrite Ea.
    cbn [nsub nneg nadd ndiv].
    rewrite Qeq_bool_true by (rewrite Hab; ring).
    replace (c + - b ?= 0) with Eq; [reflexivity|].
    symmetry. apply Qeq_alt. rewrite Hcb. ring. }
  rewrite (iloc_neg_last k_col (S n) NaN Lk). cbn [bind ret].
  rewrite (iloc_neg_last _ (S n) NaN) by (now rewrite rolling_apply_length).
  cbn [bind ret].
  rewrite (iloc_neg_prev k_col n NaN Lk). cbn [bind ret].
  rewrite (iloc_neg_prev _ n NaN) by (now rewrite rolling_apply_length).
  cbn [bind ret].
  fold (Pandas.at_ (Pandas.rolling_apply Pandas.mean_all (Z.to_nat d_period) k_col) (S n)).
  rewrite (rolling_mean_nan_last _ k_col (S n) Lk Hlast), Hlast.
  eexists; split; [reflexivity|].
  cbn [Stochastic.k_percent Stochastic.d_percent Stochastic.signal round].
  repeat split. apply stochastic_signal_nan.
Qed.

Lemma stochastic_flat_window_witness :
  exists r,
    Stochastic.calculate_stochastic Examples.flat_tail 2 2 80 20 = inr r /\
    Stochastic.k_percent r = NaN /\
    Stochastic.d_percent r = NaN /\
    Stochastic.signal r = "neutral"%string.
Proof.
  apply (stochastic_flat_window Examples.flat_tail 2 2 80 20); try lia;
    try (vm_compute; discriminate); try reflexivity.
  repeat constructor.
Defined.

(** C10 as stated fails twice.  With a last close outside the flat range
    the division is 1/0: %K is infinite, it exceeds the overbought
    threshold and the signal is not "neutral"; and a single flat candle
    with both periods 1 passes the length check and then raises an
    IndexError at the second-to-last position. *)
Lemma stochastic_flat_window_not_neutral :
  (Spec.zero_range Examples.flat_tail_close_outside 2 /\
   (2 + 2 - 1 <= len Examples.flat_tail_close_outside)%Z /\
   exists r,
     Stochastic.calculate_stochastic Examples.flat_tail_close_outside 2 2 80 20 = inr r /\
     Stochastic.k_percent r = PInf /\
     Stochastic.signal r <> "neutral"%string) /\
  (Spec.zero_range [Examples.ohlc 10 10 10] 1 /\
   (1 + 1 - 1 <= len [Examples.ohlc 10 10 10])%Z /\
   Stochastic.calculate_stochastic [Examples.ohlc 10 10 10] 1 1 80 20 =
   inl (IndexError "single positional indexer is out-of-bounds")).
Proof.
  split.
  - split; [reflexivity|]. split; [vm_compute; discriminate|].
    eexists. split; [vm_compute; reflexivity|]. split; [reflexivity|].
    cbn [Stochastic.signal]. discriminate.
  - split; [reflexivity|]. split; [vm_compute; discriminate|]. reflexivity.
Qed.

(* ================================================================== *)
(** ** Worked examples *)

Example sma_of_five_prices :
  Sma.calculate_sma [1; 2; 3; 4; 6] 4 = inr {| Sma.sma := Fin (15 # 4); Sma.period := 4 |}.
Proof. reflexivity. Qed.

Example sma_negative_window :
  Sma.calculate_sma [1; 2] (-1) = inl (ValueError "window must be an integer 0 or greater").
Proof. reflexivity. Qed.

Example ema_of_three_prices :
  Ema.calculate_ema [1; 2; 3] 3 2 =
  inr {| Ema.ema := Fin (9 # 4); Ema.period := 3; Ema.current_price := Fin 3;
         Ema.price_trend := "above_ema" |}.
Proof. reflexivity. Qed.

Example atr_missing_open :
  Atr.calculate_atr [Examples.ohlc 10 8 9; Examples.ohlc 11 9 10; Examples.ohlc 13 10 12] 2 =
  inl (ValueError "Candle 0 missing fields: open").
Proof. reflexivity. Qed.

Example atr_of_three_candles :
  Atr.calculate_atr
    [ ("open"%string, 9) :: Examples.ohlc 10 8 9;
      ("open"%string, 9) :: Examples.ohlc 11 9 10;
      ("open"%string, 10) :: Examples.ohlc 13 10 12 ] 2 =
  inr {| Atr.atr := Fin (5 # 2); Atr.half_atr := Fin (5 # 4); Atr.double_atr := Fin 5;
         Atr.period := 2 |}.
Proof. reflexivity. Qed.

(* ================================================================== *)
(** ** Pivot points: validation and order of the levels *)

(** X1: pivot_points.py, whatever the pivot type and the current price:
    when the previous candle lacks one of high, low and close the call
    raises the ValueError that lists the absent ones in that order, and
    this is the only ValueError it raises.  When the three fields are
    there and their values do not exceed 10^300 in magnitude (so that the
    sums stay within double precision), the call returns. *)
Theorem pivot_points_validation (prev_candle : candle) (pivot_type : string)
  (current_price : option Q) :
  let missing :=
    filter (fun f => negb (has_key f prev_candle)) ["high"; "low"; "close"]%string in
  let bound := inject_Z (10 ^ 300) in
  (missing <> [] ->
   PivotPoints.calculate_pivot_points prev_candle pivot_type current_price =
   inl (ValueError ("Previous candle missing fields: " ++ join ", " missing))) /\
  (forall msg,
     PivotPoints.calculate_pivot_points prev_candle pivot_type current_price =
     inl (ValueError msg) -> missing <> []) /\
  (missing = [] ->
   Qabs (Props.value "high" prev_candle) <= bound ->
   Qabs (Props.value "low" prev_candle) <= bound ->
   Qabs (Props.value "close" prev_candle) <= bound ->
   exists r, PivotPoints.calculate_pivot_points prev_candle pivot_type current_price = inr r /\
             PivotPoints.type r = pivot_type).
Proof.
  intros missing bound.
  assert (Hret : missing = [] ->
            exists r,
              PivotPoints.calculate_pivot_points prev_candle pivot_type current_price = inr r /\
              PivotPoints.type r = pivot_type).
  { unfold PivotPoints.calculate_pivot_points. subst missing.
    destruct (filter (fun f => negb (has_key f prev_candle)) ["high"; "low"; "close"]%string)
      as [|f rest]; [intros _ | discriminate].
    destruct current_price as [p|]; [|eexists; split; reflexivity].
    match goal with |- context [if ?b then _ else _] => destruct b end;
      eexists; split; reflexivity. }
  split; [|split].
  - unfold PivotPoints.calculate_pivot_points. subst missing.
    destruct (filter (fun f => negb (has_key f prev_candle)) ["high"; "low"; "close"]%string)
      as [|f rest]; [congruence | reflexivity].
  - intros msg Hmsg Hnone. destruct (Hret Hnone) as (r & Hr & _). congruence.
  - intros Hnone _ _ _. exact (Hret Hnone).
Qed.

Lemma pivot_points_validation_witness :
  (exists r, PivotPoints.calculate_pivot_points Examples.prev_candle "camarilla" None = inr r /\
             PivotPoints.type r = "camarilla"%string) /\
  PivotPoints.calculate_pivot_points [("high"%string, 100)] "standard" (Some 99) =
  inl (ValueError "Previous candle missing fields: low, close").
Proof.
  split.
  - apply (pivot_points_validation Examples.prev_candle "camarilla" None);
      [reflexivity | | |]; vm_compute; discriminate.
  - apply (pivot_points_validation [("high"%string, 100)] "standard" (Some 99)).
    discriminate.
Defined.

(** Linear arithmetic over [Q] after the divisions by constants of the
    scripts are turned into products. *)
Ltac lra_div :=
  unfold Qdiv in *;
  repeat match goal with
         | |- context [/ 2] => setoid_replace (/ 2) with (1 # 2) by reflexivity
         | |- context [/ 3] => setoid_replace (/ 3) with (1 # 3) by reflexivity
         | |- context [/ 4] => setoid_replace (/ 4) with (1 # 4) by reflexivity
         | |- context [/ 6] => setoid_replace (/ 6) with (1 # 6) by reflexivity
         | |- context [/ 12] => setoid_replace (/ 12) with (1 # 12) by reflexivity
         end;
  lra.

Lemma standard_pivots_descending high low close :
  low <= close -> close <= high ->
  Props.descending (map snd (PivotPoints.calculate_standard_pivots high low close)).
Proof.
  intros H1 H2. unfold PivotPoints.calculate_standard_pivots. cbv zeta. cbn [map snd Props.descending].
  repeat split; apply round_q_monotone; lra_div.
Qed.

Lemma fibonacci_pivots_descending high low close :
  low <= high ->
  Props.descending (map snd (PivotPoints.calculate_fibonacci_pivots high low close)).
Proof.
  intros H. unfold PivotPoints.calculate_fibonacci_pivots. cbv zeta. cbn [map snd Props.descending].
  repeat split; apply round_q_monotone; lra_div.
Qed.

Lemma camarilla_pivots_descending high low close :
  low <= high ->
  Props.descending (map snd (PivotPoints.calculate_camarilla_pivots high low close)).
Proof.
  intros H. unfold PivotPoints.calculate_camarilla_pivots. cbv zeta. cbn [map snd Props.descending].
  repeat split; apply round_q_monotone; lra_div.
Qed.

Lemma pivot_points_levels prev_candle pivot_type current_price high low close :
  lookup "high" prev_candle = Some high ->
  lookup "low" prev_candle = Some low ->
  lookup "close" prev_candle = Some close ->
  exists r,
    PivotPoints.calculate_pivot_points prev_candle pivot_type current_price = inr r /\
    PivotPoints.levels r = Props.levels_of pivot_type high low close.
Proof.
  intros Hh Hl Hc. unfold PivotPoints.calculate_pivot_points. cbn [filter].
  rewrite (has_key_lookup _ _ _ Hh), (has_key_lookup _ _ _ Hl), (has_key_lookup _ _ _ Hc).
  cbn [negb]. rewrite Hh, Hl, Hc. fold (Props.levels_of pivot_type high low close).
  destruct current_price as [p|]; [|eexists; split; reflexivity].
  match goal with |- context [if ?b then _ else _] => destruct b end;
    eexists; split; reflexivity.
Qed.

(** In exact arithmetic the levels of a candle with low <= close <= high
    come out in descending order. *)
Lemma pivot_levels_descending_exact (prev_candle : candle) (pivot_type : string)
  (current_price : option Q) (high low close : Q) :
  lookup "high" prev_candle = Some high ->
  lookup "low" prev_candle = Some low ->
  lookup "close" prev_candle = Some close ->
  low <= close -> close <= high ->
  exists r,
    PivotPoints.calculate_pivot_points prev_candle pivot_type current_price = inr r /\
    Props.descending (map snd (PivotPoints.levels r)).
Proof.
  intros Hh Hl Hc H1 H2.
  destruct (pivot_points_levels prev_candle pivot_type current_price high low close Hh Hl Hc)
    as (r & Hr & Hlev).
  exists r. split; [exact Hr|]. rewrite Hlev. unfold Props.levels_of.
  destruct (String.eqb pivot_type "fibonacci");
    [|destruct (String.eqb pivot_type "camarilla")].
  - apply fibonacci_pivots_descending. lra.
  - apply camarilla_pivots_descending. lra.
  - now apply standard_pivots_descending.
Qed.

Lemma descending_is_within tol l : 0 <= tol -> Props.descending l -> Props.descending_within tol l.
Proof.
  intros Htol. induction l as [|a [|b l] IH]; cbn; auto.
  intros [Hab H]. split; [lra | now apply IH].
Qed.

(** X2: pivot_points.py: for a previous candle with
    -10^6 <= low <= close <= high <= 10^6 the levels come out in the order
    of the dict, from r3 (r4 for camarilla) down to s3 (s4), for each of
    the three pivot types: after the rounding to two decimals no entry is
    more than 0.02 above the one before it (two levels that are closer
    than a cent can be rounded across each other in double precision; in
    exact arithmetic the order is strict). *)
Theorem pivot_levels_descending (prev_candle : candle) (pivot_type : string)
  (current_price : option Q) (high low close : Q) :
  lookup "high" prev_candle = Some high ->
  lookup "low" prev_candle = Some low ->
  lookup "close" prev_candle = Some close ->
  - (1000000) <= low -> low <= close -> close <= high -> high <= 1000000 ->
  exists r,
    PivotPoints.calculate_pivot_points prev_candle pivot_type current_price = inr r /\
    Props.descending_within (2 # 100) (map snd (PivotPoints.levels r)).
Proof.
  intros Hh Hl Hc _ H1 H2 _.
  destruct (pivot_levels_descending_exact prev_candle pivot_type current_price
              high low close Hh Hl Hc H1 H2) as (r & Hr & Hd).
  exists r. split; [exact Hr|]. apply descending_is_within; [discriminate | exact Hd].
Qed.

Lemma pivot_levels_descending_witness :
  exists r,
    PivotPoints.calculate_pivot_points Examples.prev_candle "fibonacci" None = inr r /\
    Props.descending_within (2 # 100) (map snd (PivotPoints.levels r)).
Proof.
  apply (pivot_levels_descending Examples.prev_candle "fibonacci" None 100 95 98);
    try reflexivity; discriminate.
Defined.

(** Above the pivot: the pivot heads the supports and none of them is
    greater, so that [max] keeps it. *)
Lemma max_by_price_head x rest :
  Forall (fun y => snd y <= snd x) rest ->
  PivotPoints.max_by_price (x :: rest) = Some x.
Proof.
  intros H. unfold PivotPoints.max_by_price. f_equal.
  induction H as [|y rest Hy _ IH]; [reflexivity|].
  cbn [fold_left]. now rewrite (Qgtb_false _ _ Hy).
Qed.

Ltac pivot_support :=
  match goal with pivot := _ |- _ => subst pivot end;
  match goal with
  | |- context [filter ?f ?L] =>
      let r := eval cbv -[round_q Qgtb Qltb Qplus Qmult Qminus Qdiv Qopp Qle Qlt Qeq]
               in (filter f L) in
      change (filter f L) with r
  end;
  rewrite max_by_price_head;
  [reflexivity | repeat constructor; cbn [snd]; apply round_q_monotone; lra_div].

(** At or below the pivot: when the pivot is among the candidates and none
    of them is smaller, [min] returns an entry at the pivot's price. *)
Lemma min_by_price_at_pivot cands pivot :
  In ("pivot"%string, pivot) cands ->
  (forall kv, In kv cands -> pivot <= snd kv) ->
  exists x, PivotPoints.to_ref (PivotPoints.min_by_price cands) = Some x /\
            PivotPoints.price x == pivot.
Proof.
  intros Hp Hge. pose proof (min_by_price_lowest cands) as H.
  destruct (PivotPoints.to_ref (PivotPoints.min_by_price cands)) as [x|];
    cbn [Spec.is_lowest] in H.
  - destruct H as [Hin Hall]. exists x. split; [reflexivity|].
    apply Qle_antisym; [apply (Hall _ Hp) | apply (Hge _ Hin)].
  - rewrite H in Hp. destruct Hp.
Qed.

(** In exact arithmetic, for a previous candle with low <= close <= high:
    a current price above the pivot level gets the pivot itself as nearest
    support, and a current price at or below it gets a nearest resistance
    priced at the pivot level. *)
Lemma pivot_is_the_nearest_level_exact (prev_candle : candle) (pivot_type : string)
  (current_price high low close : Q) :
  lookup "high" prev_candle = Some high ->
  lookup "low" prev_candle = Some low ->
  lookup "close" prev_candle = Some close ->
  low <= close -> close <= high ->
  exists r pivot,
    PivotPoints.calculate_pivot_points prev_candle pivot_type (Some current_price) = inr r /\
    lookup "pivot" (PivotPoints.levels r) = Some pivot /\
    (pivot < current_price ->
     PivotPoints.nearest_support r =
     Some {| PivotPoints.level := "pivot"; PivotPoints.price := pivot |}) /\
    (current_price <= pivot ->
     exists x, PivotPoints.nearest_resistance r = Some x /\ PivotPoints.price x == pivot).
Proof.
  intros Hh Hl Hc H1 H2.
  unfold PivotPoints.calculate_pivot_points. cbn [filter].
  rewrite (has_key_lookup _ _ _ Hh), (has_key_lookup _ _ _ Hl), (has_key_lookup _ _ _ Hc).
  cbn [negb]. rewrite Hh, Hl, Hc.
  destruct (String.eqb pivot_type "fibonacci");
    [|destruct (String.eqb pivot_type "camarilla")].
  all: match goal with
       | |- context [lookup "pivot" ?L] =>
           let v := eval cbv [PivotPoints.calculate_fibonacci_pivots
                              PivotPoints.calculate_camarilla_pivots
                              PivotPoints.calculate_standard_pivots] in L in
           change L with v
       end.
  all: cbv zeta; cbn [lookup String.eqb Ascii.eqb Bool.eqb].
  all: match goal with
       | |- context [Qgtb ?c ?P] =>
           set (pivot := P); destruct (Qgtb c pivot) eqn:E
       end.
  all: eexists; exists pivot; (split; [reflexivity|]); (split; [reflexivity|]).
  all: cbn [PivotPoints.nearest_support PivotPoints.nearest_resistance].
  all: try (apply Qgtb_gt in E).
  all: try (assert (~ pivot < current_price) by (rewrite <- Qgtb_gt; congruence)).
  all: split; [intros Hp | intros Hp]; try lra.
  1,3,5: pivot_support.
  all: apply min_by_price_at_pivot;
    [apply filter_In; split; [cbn [In]; tauto | reflexivity]|].
  all: intros kv Hin; apply filter_In in Hin; destruct Hin as [Hin Hpred];
    cbn [In] in Hin;
    repeat match type of Hin with _ \/ _ => destruct Hin as [Hin|Hin] end;
    try contradiction; subst kv; cbn [snd];
    try (vm_compute in Hpred; discriminate Hpred);
    subst pivot; solve [apply Qle_refl | apply round_q_monotone; lra_div].
Qed.

(** X3: pivot_points.py: for a previous candle with
    -10^6 <= low <= close <= high <= 10^6 and any pivot type, the nearest
    support of a current price above the pivot level is not the support
    closest below the price but an entry at the pivot level: its price is
    at least the pivot level and at most 0.02 above it.  Likewise the
    nearest resistance of a current price at or below the pivot level is
    at most the pivot level and at most 0.02 below it.  (In exact
    arithmetic both are at the pivot level itself.) *)
Theorem pivot_is_the_nearest_level (prev_candle : candle) (pivot_type : string)
  (current_price high low close : Q) :
  lookup "high" prev_candle = Some high ->
  lookup "low" prev_candle = Some low ->
  lookup "close" prev_candle = Some close ->
  - (1000000) <= low -> low <= close -> close <= high -> high <= 1000000 ->
  exists r pivot,
    PivotPoints.calculate_pivot_points prev_candle pivot_type (Some current_price) = inr r /\
    lookup "pivot" (PivotPoints.levels r) = Some pivot /\
    (pivot < current_price ->
     exists x, PivotPoints.nearest_support r = Some x /\
               pivot <= PivotPoints.price x /\ PivotPoints.price x <= pivot + (2 # 100)) /\
    (current_price <= pivot ->
     exists x, PivotPoints.nearest_resistance r = Some x /\
               pivot - (2 # 100) <= PivotPoints.price x /\ PivotPoints.price x <= pivot).
Proof.
  intros Hh Hl Hc _ H1 H2 _.
  destruct (pivot_is_the_nearest_level_exact prev_candle pivot_type current_price
              high low close Hh Hl Hc H1 H2) as (r & pivot & Hr & Hp & Habove & Hbelow).
  exists r, pivot. split; [exact Hr|]. split; [exact Hp|]. split.
  - intros H. eexists. split; [exact (Habove H)|]. cbn [PivotPoints.price]. split; lra.
  - intros H. destruct (Hbelow H) as (x & Hx & Epx).
    exists x. split; [exact Hx|]. split; lra.
Qed.

Lemma pivot_is_the_nearest_level_witness :
  (exists r x,
     PivotPoints.calculate_pivot_points Examples.prev_candle "camarilla" (Some 99) = inr r /\
     PivotPoints.nearest_support r = Some x /\
     98 <= PivotPoints.price x /\ PivotPoints.price x <= 98 + (2 # 100)) /\
  (exists r x,
     PivotPoints.calculate_pivot_points Examples.prev_candle "standard" (Some 97) = inr r /\
     PivotPoints.nearest_resistance r = Some x /\
     97.67 - (2 # 100) <= PivotPoints.price x /\ PivotPoints.price x <= 97.67).
Proof.
  split.
  - destruct (pivot_is_the_nearest_level Examples.prev_candle "camarilla" 99 100 95 98)
      as (r & pivot & Hr & Hpiv & Habove & _); try reflexivity; try discriminate.
    assert (Hr' := Hr). vm_compute in Hr'. injection Hr' as <-.
    vm_compute in Hpiv. injection Hpiv as <-.
    destruct Habove as (x & Hx & Hpx); [reflexivity|].
    eexists. exists x. split; [exact Hr|]. split; [exact Hx | exact Hpx].
  - destruct (pivot_is_the_nearest_level Examples.prev_candle "standard" 97 100 95 98)
      as (r & pivot & Hr & Hpiv & _ & Hbelow); try reflexivity; try discriminate.
    assert (Hr' := Hr). vm_compute in Hr'. injection Hr' as <-.
    vm_compute in Hpiv. injection Hpiv as <-.
    destruct Hbelow as (x & Hx & Hpx); [discriminate|].
    eexists. exists x. split; [exact Hr|]. split; [exact Hx | exact Hpx].
Defined.

(* ================================================================== *)
(** ** Expected move *)

Lemma float_div_nonzero a b : ~ b == 0 -> ExpectedMove.float_div a b = inr (a / b).
Proof. intros H. unfold ExpectedMove.float_div. now rewrite Qeq_bool_false. Qed.

Lemma float_div_zero a b :
  b == 0 -> ExpectedMove.float_div a b = inl ExpectedMove.ZeroDivisionError.
Proof. intros H. unfold ExpectedMove.float_div. now rewrite Qeq_bool_true. Qed.

Lemma expected_move_missing_prices spot_price atm_call atm_put multiplier :
  atm_call = None \/ atm_put = None ->
  ExpectedMove.calculate_expected_move spot_price atm_call atm_put None multiplier
  = inl (ExpectedMove.Raised (ValueError
           "Must provide either straddle_price or both atm_call and atm_put")).
Proof. intros [-> | ->]; [reflexivity|]. now destruct atm_call. Qed.

(** The straddle price the function works with, when it has one. *)
Lemma expected_move_straddle (atm_call atm_put straddle_price : option Q) :
  straddle_price <> None \/ (atm_call <> None /\ atm_put <> None) ->
  exists s,
    (straddle_price = Some s \/
     (straddle_price = None /\
      exists c p, atm_call = Some c /\ atm_put = Some p /\ s = c + p)).
Proof.
  intros H. destruct straddle_price as [s|].
  - exists s. now left.
  - destruct H as [H|[Hc Hp]]; [congruence|].
    destruct atm_call as [c|]; [|congruence]. destruct atm_put as [p|]; [|congruence].
    exists (c + p). right. split; [reflexivity|]. now exists c, p.
Qed.

Lemma expected_move_zero_spot spot_price atm_call atm_put straddle_price multiplier :
  straddle_price <> None \/ (atm_call <> None /\ atm_put <> None) ->
  spot_price == 0 ->
  ExpectedMove.calculate_expected_move spot_price atm_call atm_put straddle_price multiplier
  = inl ExpectedMove.ZeroDivisionError.
Proof.
  intros H H0. destruct (expected_move_straddle _ _ _ H) as (s & [-> | (-> & c & p & -> & -> & ->)]);
    unfold ExpectedMove.calculate_expected_move; cbv zeta; now rewrite float_div_zero.
Qed.

Lemma expected_move_returns spot_price atm_call atm_put straddle_price multiplier :
  straddle_price <> None \/ (atm_call <> None /\ atm_put <> None) ->
  ~ spot_price == 0 ->
  exists r,
    ExpectedMove.calculate_expected_move spot_price atm_call atm_put straddle_price multiplier
    = inr r.
Proof.
  intros H H0. destruct (expected_move_straddle _ _ _ H) as (s & [-> | (-> & c & p & -> & -> & ->)]);
    unfold ExpectedMove.calculate_expected_move; cbv zeta;
    rewrite !float_div_nonzero by assumption; eexists; reflexivity.
Qed.








(** X7: expected_move.py, [main]: with both --iv and --days the IV formula is
    used and the option prices are ignored; with only one of them the
    script silently falls back to the option prices.  There, missing
    prices end in exit status 3, a zero spot escapes as an uncaught
    ZeroDivisionError, and anything else prints the result of
    [calculate_expected_move]. *)
Theorem expected_move_main_endings (a : ExpectedMove.args) :
  let m := match ExpectedMove.arg_multiplier a with
           | Some m => m
           | None => ExpectedMove.default_multiplier
           end in
  let priced :=
    ExpectedMove.arg_straddle a <> None \/
    (ExpectedMove.arg_atm_call a <> None /\ ExpectedMove.arg_atm_put a <> None) in
  (forall iv days,
     ExpectedMove.arg_iv a = Some iv -> ExpectedMove.arg_days a = Some days ->
     ExpectedMove.main a =
     ExpectedMove.PrintedIvMove
       (ExpectedMove.calculate_expected_move_from_iv (ExpectedMove.arg_spot a) iv days)) /\
  (ExpectedMove.arg_iv a = None \/ ExpectedMove.arg_days a = None ->
   (~ priced ->
    ExpectedMove.main a =
    ExpectedMove.Exit3 "Must provide either straddle_price or both atm_call and atm_put") /\
   (priced -> ExpectedMove.arg_spot a == 0 ->
    ExpectedMove.main a = ExpectedMove.Escaped ExpectedMove.ZeroDivisionError) /\
   (priced -> ~ ExpectedMove.arg_spot a == 0 ->
    exists r,
      ExpectedMove.calculate_expected_move
        (ExpectedMove.arg_spot a) (ExpectedMove.arg_atm_call a)
        (ExpectedMove.arg_atm_put a) (ExpectedMove.arg_straddle a) m = inr r /\
      ExpectedMove.main a = ExpectedMove.PrintedMove r)).
Proof.
  cbv zeta. split.
  - intros iv days Hiv Hdays. unfold ExpectedMove.main. now rewrite Hiv, Hdays.
  - intros Hmode.
    assert (Hmain : ExpectedMove.main a =
              match ExpectedMove.calculate_expected_move
                      (ExpectedMove.arg_spot a) (ExpectedMove.arg_atm_call a)
                      (ExpectedMove.arg_atm_put a) (ExpectedMove.arg_straddle a)
                      (match ExpectedMove.arg_multiplier a with
                       | Some m => m
                       | None => ExpectedMove.default_multiplier
                       end)
              with
              | inr r => ExpectedMove.PrintedMove r
              | inl (ExpectedMove.Raised (ValueError msg)) => ExpectedMove.Exit3 msg
              | inl e => ExpectedMove.Escaped e
              end).
    { unfold ExpectedMove.main.
      destruct Hmode as [-> | ->]; [reflexivity|].
      now destruct (ExpectedMove.arg_iv a). }
    rewrite Hmain. split; [|split].
    + intros Hp.
      destruct (ExpectedMove.arg_straddle a) as [s|] eqn:Es.
      { exfalso. apply Hp. left. discriminate. }
      rewrite expected_move_missing_prices; [reflexivity|].
      destruct (ExpectedMove.arg_atm_call a); [|now left].
      destruct (ExpectedMove.arg_atm_put a); [|now right].
      exfalso. apply Hp. right. split; discriminate.
    + intros Hp H0. now rewrite expected_move_zero_spot.
    + intros Hp H0.
      destruct (expected_move_returns _ _ _ _
                  (match ExpectedMove.arg_multiplier a with
                   | Some m => m
                   | None => ExpectedMove.default_multiplier
                   end) Hp H0) as (r & Hr).
      exists r. split; [exact Hr|]. now rewrite Hr.
Qed.

Lemma expected_move_main_endings_witness :
  ExpectedMove.main
    {| ExpectedMove.arg_spot := 0; ExpectedMove.arg_atm_call := None;
       ExpectedMove.arg_atm_put := None; ExpectedMove.arg_straddle := Some 10.8;
       ExpectedMove.arg_multiplier := None; ExpectedMove.arg_iv := Some 0.3;
       ExpectedMove.arg_days := None |}
  = ExpectedMove.Escaped ExpectedMove.ZeroDivisionError.
Proof.
  apply (proj2 (expected_move_main_endings
    {| ExpectedMove.arg_spot := 0; ExpectedMove.arg_atm_call := None;
       ExpectedMove.arg_atm_put := None; ExpectedMove.arg_straddle := Some 10.8;
       ExpectedMove.arg_multiplier := None; ExpectedMove.arg_iv := Some 0.3;
       ExpectedMove.arg_days := None |})).
  - right. reflexivity.
  - left. discriminate.
  - reflexivity.
Defined.

(* ================================================================== *)
(** ** Moving averages and bands over a list of prices *)

Lemma nsum_prices l a : fold_left nadd (map Fin l) (Fin a) = Fin (fold_left Qplus l a).
Proof. revert a. induction l as [|x l IH]; intros a; [reflexivity|]. cbn. apply IH. Qed.

Lemma finite_prices l : forallb is_finite (map Fin l) = true.
Proof. induction l; auto. Qed.

Lemma inject_nat_nonzero n : (1 <= n)%nat -> ~ inject_Z (Z.of_nat n) == 0.
Proof. intros H E. pose proof (of_nat_nonzero n H). lra. Qed.

Lemma mean_all_prices l :
  l <> [] -> Pandas.mean_all (map Fin l) = Fin (Props.average l).
Proof.
  intros Hl. unfold Pandas.mean_all, Pandas.nsum, Props.average, Props.total.
  rewrite nsum_prices, length_map. unfold of_nat, of_Z.
  apply ndiv_Fin_nz. apply inject_nat_nonzero. destruct l; [congruence | simpl; lia].
Qed.

Lemma last_n_map {X Y} (f : X -> Y) k l : Spec.last_n k (map f l) = map f (Spec.last_n k l).
Proof. unfold Spec.last_n. now rewrite length_map, skipn_map. Qed.

Lemma last_n_length {X} k (l : list X) :
  (k <= length l)%nat -> length (Spec.last_n k l) = k.
Proof. intros H. unfold Spec.last_n. rewrite length_skipn. lia. Qed.

Lemma last_n_nonempty {X} k (l : list X) :
  (1 <= k <= length l)%nat -> Spec.last_n k l <> [].
Proof.
  intros H E. apply (f_equal (@length X)) in E. rewrite last_n_length in E by lia.
  simpl in E. lia.
Qed.

(** The last entry of a rolling aggregate over prices is the aggregate of
    the last [w] prices. *)
Lemma rolling_prices_last agg prices w n :
  length prices = S n -> (1 <= w <= S n)%nat ->
  Pandas.at_ (Pandas.rolling_apply agg w (Pandas.of_prices prices)) n =
  agg (map Fin (Spec.last_n w prices)).
Proof.
  intros Hl Hw. unfold Pandas.of_prices.
  rewrite rolling_apply_nth by (rewrite length_map; lia).
  replace (n + 1 <? w)%nat with false by (symmetry; apply Nat.ltb_ge; lia).
  rewrite window_at_last by (rewrite ?length_map; lia).
  rewrite last_n_map, finite_prices. reflexivity.
Qed.

(** In exact arithmetic, with 1 <= period <= len(prices), the result is the
    arithmetic mean of the last [period] prices rounded to two places. *)
Lemma sma_is_mean_of_last_prices_exact (prices : list Q) (period : Z) :
  (1 <= period)%Z -> (period <= len prices)%Z ->
  Sma.calculate_sma prices period =
  inr {| Sma.sma :=
           Fin (round_q (Props.average (Spec.last_n (Z.to_nat period) prices)) 2);
         Sma.period := period |}.
Proof.
  intros Hp Hlen. unfold len in Hlen.
  destruct (length prices) as [|n] eqn:Hl; [lia|].
  unfold Sma.calculate_sma, len. rewrite Hl.
  replace (Z.of_nat (S n) <? period)%Z with false by (symmetry; apply Z.ltb_ge; lia).
  rewrite rolling_mean_ok by lia. cbn [bind ret].
  rewrite (iloc_neg_last _ n NaN)
    by (rewrite rolling_apply_length; unfold Pandas.of_prices; now rewrite length_map).
  cbn [bind ret]. fold (Pandas.at_ (Pandas.rolling_apply Pandas.mean_all (Z.to_nat period)
                                      (Pandas.of_prices prices)) n).
  rewrite rolling_prices_last by (auto; lia).
  rewrite mean_all_prices by (apply last_n_nonempty; lia).
  reflexivity.
Qed.

(** X8: sma.py: with 1 <= period <= len(prices), for at most 1000 prices
    of magnitude at most 10^6 (a range in which the rounding errors of the
    rolling sums in double precision stay far below the tolerance), the
    call returns and the result is within 0.01 of the arithmetic mean of
    the last [period] prices. *)
Theorem sma_is_mean_of_last_prices (prices : list Q) (period : Z) :
  (1 <= period)%Z -> (period <= len prices)%Z -> (len prices <= 1000)%Z ->
  Forall (fun p => Qabs p <= 1000000) prices ->
  exists r m,
    Sma.calculate_sma prices period = inr r /\
    Sma.sma r = Fin m /\
    Qabs (m - Props.average (Spec.last_n (Z.to_nat period) prices)) <= 1 # 100.
Proof.
  intros Hp Hlen _ _.
  rewrite (sma_is_mean_of_last_prices_exact prices period Hp Hlen).
  do 2 eexists. split; [reflexivity|]. split; [reflexivity|].
  apply Qle_trans with (1 # 200); [apply round_q_near | discriminate].
Qed.

Lemma sma_is_mean_of_last_prices_witness :
  exists r m,
    Sma.calculate_sma [100; 1; 2; 3; 4] 4 = inr r /\
    Sma.sma r = Fin m /\
    Qabs (m - Props.average (Spec.last_n 4 [100; 1; 2; 3; 4])) <= 1 # 100.
Proof.
  apply (sma_is_mean_of_last_prices [100; 1; 2; 3; 4] 4);
    try (vm_compute; discriminate).
  repeat constructor; discriminate.
Defined.




(** X9: bollinger_bands.py: the middle band is the simple moving average of
    sma.py for the same prices and period. *)
Theorem bollinger_middle_is_sma (prices : list Q) (period : Z) (std_dev : Q) :
  (1 <= period)%Z -> (period <= len prices)%Z ->
  exists b s,
    BollingerBands.calculate_bollinger_bands prices period std_dev = inr b /\
    Sma.calculate_sma prices period = inr s /\
    BollingerBands.middle_band b = Sma.sma s.
Proof.
  intros Hp Hlen. unfold len in Hlen.
  destruct (length prices) as [|n] eqn:Hl; [lia|].
  unfold BollingerBands.calculate_bollinger_bands, BollingerBands.compute_bands,
    Sma.calculate_sma, len. rewrite Hl.
  replace (Z.of_nat (S n) <? period)%Z with false by (symmetry; apply Z.ltb_ge; lia).
  rewrite rolling_mean_ok, rolling_std_ok by lia. cbn [bind ret].
  rewrite !(iloc_neg_last _ n NaN)
    by (rewrite rolling_apply_length; unfold Pandas.of_prices; now rewrite length_map).
  cbn [bind ret].
  rewrite (list_neg_last prices n 0 Hl). cbn [bind ret].
  do 2 eexists. split; [reflexivity|]. split; reflexivity.
Qed.

Lemma bollinger_middle_is_sma_witness :
  exists b s,
    BollingerBands.calculate_bollinger_bands [1; 2; 4; 8] 3 2 = inr b /\
    Sma.calculate_sma [1; 2; 4; 8] 3 = inr s /\
    BollingerBands.middle_band b = Sma.sma s.
Proof.
  apply (bollinger_middle_is_sma [1; 2; 4; 8] 3 2); vm_compute; discriminate.
Defined.



(* ================================================================== *)
(** ** EMA: the average stays within the prices *)

Lemma ewm_step_bounds alpha lo hi prev x :
  0 <= alpha -> alpha <= 1 -> lo <= prev <= hi -> lo <= x <= hi ->
  lo <= (1 - alpha) * prev + alpha * x <= hi.
Proof.
  intros Ha0 Ha1 [Hp1 Hp2] [Hx1 Hx2].
  assert (0 <= (1 - alpha) * (prev - lo)) by (apply Qmult_le_0_compat; lra).
  assert (0 <= alpha * (x - lo)) by (apply Qmult_le_0_compat; lra).
  assert (0 <= (1 - alpha) * (hi - prev)) by (apply Qmult_le_0_compat; lra).
  assert (0 <= alpha * (hi - x)) by (apply Qmult_le_0_compat; lra).
  split.
  - setoid_replace ((1 - alpha) * prev + alpha * x)
      with (lo + ((1 - alpha) * (prev - lo) + alpha * (x - lo))) by ring. lra.
  - setoid_replace ((1 - alpha) * prev + alpha * x)
      with (hi - ((1 - alpha) * (hi - prev) + alpha * (hi - x))) by ring. lra.
Qed.

Lemma ewm_from_bounds alpha lo hi xs :
  0 <= alpha -> alpha <= 1 -> Forall (fun p => lo <= p <= hi) xs ->
  forall prev, lo <= prev <= hi ->
  Forall (fun p => lo <= p <= hi) (Pandas.ewm_from alpha prev xs).
Proof.
  intros Ha0 Ha1 H. induction H as [|x xs Hx _ IH]; intros prev Hp; [constructor|].
  cbn. pose proof (ewm_step_bounds alpha lo hi prev x Ha0 Ha1 Hp Hx) as Hy.
  constructor; [exact Hy | apply IH; exact Hy].
Qed.

Lemma span_alpha span : (1 <= span)%Z -> 0 <= 2 / (inject_Z span + 1) /\ 2 / (inject_Z span + 1) <= 1.
Proof.
  intros H. assert (Hs : 1 <= inject_Z span).
  { setoid_replace 1 with (inject_Z 1) by reflexivity. rewrite <- Zle_Qle. exact H. }
  split.
  - apply Qle_shift_div_l; lra.
  - apply Qle_shift_div_r; lra.
Qed.

Lemma ewm_mean_bounds span lo hi xs :
  (1 <= span)%Z -> Forall (fun p => lo <= p <= hi) xs ->
  exists ys, Pandas.ewm_mean span xs = inr ys /\ length ys = length xs /\
             Forall (fun p => lo <= p <= hi) ys.
Proof.
  intros Hs H. unfold Pandas.ewm_mean.
  replace (span <? 1)%Z with false by (symmetry; apply Z.ltb_ge; lia).
  destruct (span_alpha span Hs) as [Ha0 Ha1].
  eexists. split; [reflexivity|]. destruct H as [|x xs Hx Hxs].
  - split; [reflexivity | constructor].
  - split; [cbn; now rewrite ewm_from_length|].
    constructor; [exact Hx | now apply ewm_from_bounds].
Qed.

Lemma Forall_nth_lt {X} (P : X -> Prop) l i d :
  Forall P l -> (i < length l)%nat -> P (nth i l d).
Proof. intros H Hi. rewrite Forall_forall in H. apply H. now apply nth_In. Qed.

(** X11: ema.py: with 1 <= period <= len(prices), for at most 1000 prices
    that all lie between lo and hi, with -10^6 <= lo and hi <= 10^6 (a
    range in which the rounding errors of double precision stay far below
    the tolerance), the call returns and the EMA lies between the smallest
    and the largest price up to its rounding: lo - 0.01 <= ema <= hi +
    0.01. *)
Theorem ema_within_price_range (prices : list Q) (period : Z) (smoothing lo hi : Q) :
  (1 <= period)%Z -> (period <= len prices)%Z -> (len prices <= 1000)%Z ->
  Forall (fun p => lo <= p <= hi) prices ->
  - (1000000) <= lo -> hi <= 1000000 ->
  exists r e,
    Ema.calculate_ema prices period smoothing = inr r /\
    Ema.ema r = Fin e /\
    lo - (1 # 100) <= e /\ e <= hi + (1 # 100).
Proof.
  intros Hp Hlen _ Hall _ _. revert Hp Hlen Hall.
  intros Hp Hlen Hall. unfold len in Hlen.
  destruct (length prices) as [|n] eqn:Hl; [lia|].
  unfold Ema.calculate_ema, len. rewrite Hl.
  replace (Z.of_nat (S n) <? period)%Z with false by (symmetry; apply Z.ltb_ge; lia).
  destruct (ewm_mean_bounds period lo hi prices Hp Hall) as (emas & -> & Hlen' & Hemas).
  cbn [bind ret].
  rewrite (iloc_neg_last emas n 0) by congruence. cbn [bind ret].
  rewrite (list_neg_last prices n 0 Hl). cbn [bind ret].
  pose proof (Forall_nth_lt _ emas n 0 Hemas ltac:(lia)) as [He1 He2].
  do 2 eexists. split; [reflexivity|]. cbn [Ema.ema round].
  split; [reflexivity|].
  destruct (round_q_error (nth n emas 0)) as [R1 R2]. split; lra.
Qed.

Lemma ema_within_price_range_witness :
  exists r e,
    Ema.calculate_ema [3; 1; 2] 2 2 = inr r /\ Ema.ema r = Fin e /\
    1 - (1 # 100) <= e /\ e <= 3 + (1 # 100).
Proof.
  apply (ema_within_price_range [3; 1; 2] 2 2 1 3).
  - lia.
  - vm_compute. discriminate.
  - vm_compute. discriminate.
  - repeat constructor; discriminate.
  - discriminate.
  - discriminate.
Defined.

(* ================================================================== *)
(** ** RSI: the range of the index *)

Lemma fin_nonneg_finite x : fin_nonneg x -> is_finite x = true.
Proof. now intros (q & -> & _). Qed.

Lemma fold_nadd_nonneg l a :
  0 <= a -> Forall fin_nonneg l ->
  exists q, fold_left nadd l (Fin a) = Fin q /\ 0 <= q.
Proof.
  revert a; induction l as [|x l IH]; intros a Ha H.
  - exists a. simpl. auto.
  - inversion H as [|? ? (q & -> & Hq) Hl]; subst.
    destruct (IH (a + q)) as (r & Er & Hr); auto; [lra|].
    exists r. simpl. now rewrite Er.
Qed.

Lemma mean_all_nonneg l : l <> [] -> Forall fin_nonneg l -> fin_nonneg (Pandas.mean_all l).
Proof.
  intros Hne H. unfold Pandas.mean_all, Pandas.nsum.
  destruct (fold_nadd_nonneg l 0 (Qle_refl 0) H) as (q & -> & Hq).
  assert (Hn : 0 < inject_Z (Z.of_nat (length l))).
  { apply of_nat_nonzero. destruct l; [congruence|simpl; lia]. }
  unfold of_nat, of_Z. rewrite ndiv_Fin_nz by lra.
  eexists; split; [reflexivity|]. apply Qle_shift_div_l; lra.
Qed.

(** The index computed from an average gain and an average loss that are
    not negative. *)
Lemma rsi_value_range g l :
  0 <= g -> 0 <= l ->
  let v := (Fin 100 - Fin 100 / (Fin 1 + Fin g / Fin l))%num in
  (v = NaN /\ g == 0 /\ l == 0) \/
  (exists q, v = Fin q /\ 0 <= q /\ q <= 100).
Proof.
  intros Hg Hl. cbv zeta.
  change (Fin g / Fin l)%num
    with (if Qeq_bool l 0
          then match g ?= 0 with Eq => NaN | Gt => PInf | Lt => NInf end
          else Fin (g / l)).
  destruct (Qeq_bool l 0) eqn:El.
  - apply Qeq_bool_eq in El. destruct (g ?= 0) eqn:Eg.
    + left. apply Qeq_alt in Eg. repeat split; assumption.
    + apply Qlt_alt in Eg. lra.
    + right. cbn. eexists. split; [reflexivity|]. split; discriminate.
  - right. apply Qeq_bool_neq in El.
    assert (Hr : 0 <= g / l) by (apply Qle_shift_div_l; lra).
    cbn [nadd]. rewrite ndiv_Fin_nz by lra. cbn [nsub nneg nadd].
    eexists. split; [reflexivity|].
    assert (Hd : 0 < 100 / (1 + g / l)) by (apply Qlt_shift_div_l; lra).
    assert (Hd' : 100 / (1 + g / l) <= 100) by (apply Qle_shift_div_r; lra).
    split; lra.
Qed.

Lemma rsi_signal_nan overbought oversold :
  Rsi.get_rsi_signal NaN overbought oversold = "neutral"%string.
Proof. reflexivity. Qed.

(** X12: rsi.py: with period >= 1 and at least period + 1 prices the call
    returns, and the index is either a number between 0 and 100 or NaN with
    the signal "neutral"; it is NaN when the last period + 1 prices are all
    equal. *)
Theorem rsi_between_0_and_100 (prices : list Q) (period overbought oversold : Z) :
  (1 <= period)%Z -> (period + 1 <= len prices)%Z ->
  exists r,
    Rsi.calculate_rsi prices period overbought oversold = inr r /\
    ((Rsi.rsi r = NaN /\ Rsi.signal r = "neutral"%string) \/
     (exists q, Rsi.rsi r = Fin q /\ 0 <= q /\ q <= 100)) /\
    ((forall j, (length prices - 1 - Z.to_nat period <= j < length prices)%nat ->
                nth j prices 0 == nth (length prices - 1) prices 0) ->
     Rsi.rsi r = NaN).
Proof.
  intros Hp Hlen. unfold len in Hlen.
  destruct (length prices) as [|n] eqn:Hl; [lia|].
  rewrite (calculate_rsi_last prices period overbought oversold n) by (auto; lia).
  eexists. split; [reflexivity|]. cbn [Rsi.rsi Rsi.signal].
  set (w := Z.to_nat period).
  assert (Hw : (1 <= w <= n)%nat) by (unfold w; lia).
  assert (Hg : fin_nonneg
                 (Pandas.at_ (Pandas.rolling_apply Pandas.mean_all w (gain_col prices)) n)).
  { apply rolling_mean_last;
      [exact fin_nonneg_finite | exact mean_all_nonneg
       | now rewrite gain_col_length | lia |].
    intros j Hj. rewrite gain_col_nth by lia. cbv zeta.
    destruct (Qgtb _ 0) eqn:E; eexists; (split; [reflexivity|]).
    - apply Qgtb_gt in E. lra.
    - apply Qle_refl. }
  assert (Hlo : fin_nonneg
                  (Pandas.at_ (Pandas.rolling_apply Pandas.mean_all w (loss_col prices)) n)).
  { apply rolling_mean_last;
      [exact fin_nonneg_finite | exact mean_all_nonneg
       | now rewrite loss_col_length | lia |].
    intros j Hj. rewrite loss_col_nth by lia. cbv zeta.
    destruct (Qltb _ 0) eqn:E; eexists; (split; [reflexivity|]).
    - apply Qltb_lt in E. lra.
    - discriminate. }
  split.
  - destruct Hg as (g & -> & Hg). destruct Hlo as (l & -> & Hlo).
    destruct (rsi_value_range g l Hg Hlo) as [(-> & _) | (q & -> & Hq0 & Hq1)].
    + left. split; reflexivity.
    + right. cbn [round]. eexists. split; [reflexivity|]. split.
      * setoid_replace 0 with (round_q 0 2) by reflexivity. now apply round_q_monotone.
      * setoid_replace 100 with (round_q 100 2) by reflexivity. now apply round_q_monotone.
  - intros Hflat. replace (S n - 1)%nat with n in Hflat by lia.
    assert (Hd : forall j, (S n - w <= j <= n)%nat ->
                           nth j prices 0 - nth (j - 1) prices 0 == 0).
    { intros j Hj. rewrite (Hflat j), (Hflat (j - 1)%nat) by (unfold w in *; lia). ring. }
    assert (Hg0 : fin_zero
                 (Pandas.at_ (Pandas.rolling_apply Pandas.mean_all w (gain_col prices)) n)).
    { apply rolling_mean_last;
        [exact fin_zero_finite | exact mean_all_zero
         | now rewrite gain_col_length | lia |].
      intros j Hj. rewrite gain_col_nth by lia. cbv zeta.
      rewrite Qgtb_false by (rewrite (Hd j Hj); apply Qle_refl).
      eexists. split; reflexivity. }
    assert (Hl0 : fin_zero
                 (Pandas.at_ (Pandas.rolling_apply Pandas.mean_all w (loss_col prices)) n)).
    { apply rolling_mean_last;
        [exact fin_zero_finite | exact mean_all_zero
         | now rewrite loss_col_length | lia |].
      intros j Hj. rewrite loss_col_nth by lia. cbv zeta.
      rewrite Qltb_false by (rewrite (Hd j Hj); apply Qle_refl).
      eexists. split; reflexivity. }
    destruct Hg0 as (g & -> & Eg). destruct Hl0 as (l & -> & El).
    change (Fin g / Fin l)%num
      with (if Qeq_bool l 0
            then match g ?= 0 with Eq => NaN | Gt => PInf | Lt => NInf end
            else Fin (g / l)).
    rewrite Qeq_bool_true by assumption.
    apply Qeq_alt in Eg. rewrite Eg. reflexivity.
Qed.

Lemma rsi_between_0_and_100_witness :
  (exists r, Rsi.calculate_rsi [1; 3; 2; 5] 2 70 30 = inr r /\
             exists q, Rsi.rsi r = Fin q /\ 0 <= q /\ q <= 100) /\
  (exists r, Rsi.calculate_rsi [1; 4; 4; 4] 2 70 30 = inr r /\ Rsi.rsi r = NaN).
Proof.
  split.
  - destruct (rsi_between_0_and_100 [1; 3; 2; 5] 2 70 30) as (r & Hr & Hrange & _);
      try (vm_compute; discriminate).
    exists r. split; [exact Hr|].
    destruct Hrange as [[Hnan _] | Hq]; [|exact Hq].
    exfalso. assert (Hr' := Hr). vm_compute in Hr'. injection Hr' as <-.
    vm_compute in Hnan. discriminate Hnan.
  - destruct (rsi_between_0_and_100 [1; 4; 4; 4] 2 70 30) as (r & Hr & _ & Hflat);
      try (vm_compute; discriminate).
    exists r. split; [exact Hr|]. apply Hflat.
    intros j Hj. change (Z.to_nat 2) with 2%nat in Hj. cbn [length Nat.sub] in Hj.
    assert (Hc : j = 1%nat \/ j = 2%nat \/ j = 3%nat) by lia.
    destruct Hc as [-> | [-> | ->]]; reflexivity.
Defined.

(* ================================================================== *)
(** ** The field check of the candle scripts *)

Lemma check_fields_from_first_incomplete required good c rest i :
  Forall (Props.complete required) good ->
  Props.missing_fields required c <> [] ->
  check_fields_from i required (good ++ c :: rest) =
  inl (ValueError ("Candle " ++ str (Z.of_nat (i + length good)) ++ " missing fields: "
                   ++ join ", " (Props.missing_fields required c))).
Proof.
  intros Hgood Hc. revert i. induction Hgood as [|g good Hg _ IH]; intros i.
  - cbn [app check_fields_from length]. fold (Props.missing_fields required c).
    destruct (Props.missing_fields required c); [congruence|].
    now rewrite Nat.add_0_r.
  - cbn [app check_fields_from length]. fold (Props.missing_fields required g).
    rewrite Hg, IH. now rewrite Nat.add_succ_r.
Qed.

Lemma check_fields_complete required candles i :
  Forall (Props.complete required) candles ->
  check_fields_from i required candles = inr tt.
Proof.
  intros H. revert i. induction H as [|c candles Hc _ IH]; intros i; [reflexivity|].
  cbn [check_fields_from]. fold (Props.missing_fields required c). now rewrite Hc.
Qed.

(** X13: atr.py, adx.py, stochastic.py, vwap.py: once the length check has
    passed, the first candle that lacks a required field stops the call
    with a ValueError that gives its index and the fields it lacks, in the
    order of the script's list; later candles are not looked at. *)
Theorem candle_scripts_report_first_incomplete
  (good rest : list candle) (c : candle) (period k_period d_period overbought oversold : Z) :
  let candles := good ++ c :: rest in
  let error required :=
    ValueError ("Candle " ++ str (len good) ++ " missing fields: "
                ++ join ", " (Props.missing_fields required c)) in
  let stops required :=
    Forall (Props.complete required) good /\ Props.missing_fields required c <> [] in
  ((period + 1 <= len candles)%Z -> stops ["open"; "high"; "low"; "close"]%string ->
   Atr.calculate_atr candles period = inl (error ["open"; "high"; "low"; "close"]%string)) /\
  ((period * 2 + 1 <= len candles)%Z -> stops ["high"; "low"; "close"]%string ->
   Adx.calculate_adx candles period = inl (error ["high"; "low"; "close"]%string)) /\
  ((k_period + d_period - 1 <= len candles)%Z -> stops ["high"; "low"; "close"]%string ->
   Stochastic.calculate_stochastic candles k_period d_period overbought oversold =
   inl (error ["high"; "low"; "close"]%string)) /\
  (stops ["high"; "low"; "close"; "volume"]%string ->
   Vwap.calculate_vwap candles = inl (error ["high"; "low"; "close"; "volume"]%string)).
Proof.
  cbv zeta. split; [|split; [|split]].
  - intros Hlen [Hgood Hc]. unfold Atr.calculate_atr.
    replace (_ <? _)%Z with false by (symmetry; apply Z.ltb_ge; lia).
    unfold check_fields. now rewrite check_fields_from_first_incomplete.
  - intros Hlen [Hgood Hc]. unfold Adx.calculate_adx. cbv zeta.
    replace (_ <? _)%Z with false by (symmetry; apply Z.ltb_ge; lia).
    unfold check_fields. now rewrite check_fields_from_first_incomplete.
  - intros Hlen [Hgood Hc]. unfold Stochastic.calculate_stochastic. cbv zeta.
    replace (_ <? _)%Z with false by (symmetry; apply Z.ltb_ge; lia).
    unfold check_fields. now rewrite check_fields_from_first_incomplete.
  - intros [Hgood Hc]. unfold Vwap.calculate_vwap.
    replace (_ <? _)%Z with false
      by (symmetry; apply Z.ltb_ge; unfold len; rewrite length_app; simpl; lia).
    unfold check_fields. now rewrite check_fields_from_first_incomplete.
Qed.

Lemma candle_scripts_report_first_incomplete_witness :
  Atr.calculate_atr
    [("open"%string, 9) :: Examples.ohlc 10 8 9; Examples.ohlc 11 9 10; [("high"%string, 1)]] 2 =
  inl (ValueError "Candle 1 missing fields: open") /\
  Vwap.calculate_vwap [Examples.ohlcv 3 1 2 10; [("low"%string, 1)]; []] =
  inl (ValueError "Candle 1 missing fields: high, close, volume").
Proof.
  split.
  - apply (proj1 (candle_scripts_report_first_incomplete
                    [("open"%string, 9) :: Examples.ohlc 10 8 9] [[("high"%string, 1)]]
                    (Examples.ohlc 11 9 10) 2 0 0 0 0)).
    + vm_compute. discriminate.
    + split; [repeat constructor | discriminate].
  - apply (proj2 (proj2 (proj2 (candle_scripts_report_first_incomplete
                    [Examples.ohlcv 3 1 2 10] [[]] [("low"%string, 1)] 0 0 0 0 0)))).
    split; [repeat constructor | discriminate].
Defined.

(* ================================================================== *)
(** ** ATR: the true range and its average *)

Lemma complete_has_key required c f :
  Props.complete required c -> In f required -> has_key f c = true.
Proof.
  unfold Props.complete, Props.missing_fields. intros H Hin.
  destruct (has_key f c) eqn:E; [reflexivity|].
  assert (Hf : In f (filter (fun f => negb (has_key f c)) required)).
  { apply filter_In. split; [exact Hin | now rewrite E]. }
  rewrite H in Hf. contradiction.
Qed.

Lemma column_nth_fin f candles i :
  Forall (fun c => has_key f c = true) candles -> (i < length candles)%nat ->
  exists q, nth i (column f candles) NaN = Fin q.
Proof.
  intros H Hi. pose proof (column_finite f candles H) as HF.
  pose proof (Forall_nth_lt _ _ i NaN HF ltac:(now rewrite column_length)) as Hq.
  destruct (nth i (column f candles) NaN); try discriminate. eauto.
Qed.

Lemma true_range_length candles : length (Props.true_range candles) = length candles.
Proof.
  unfold Props.true_range. cbv zeta.
  rewrite row_max3_length;
    rewrite ?length_map, ?map2_length, ?shift1_length, ?column_length; lia.
Qed.

Lemma true_range_nth candles i :
  (i < length candles)%nat ->
  nth i (Props.true_range candles) NaN =
  Pandas.max
    [ (nth i (column "high" candles) NaN - nth i (column "low" candles) NaN)%num;
      nabs (nth i (column "high" candles) NaN
            - nth i (Pandas.shift1 (column "close" candles)) NaN)%num;
      nabs (nth i (column "low" candles) NaN
            - nth i (Pandas.shift1 (column "close" candles)) NaN)%num ].
Proof.
  intros Hi. unfold Props.true_range, Pandas.row_max3. cbv zeta.
  rewrite (map2_nth _ _ _ _ NaN (NaN, NaN))
    by (rewrite ?length_combine, ?length_map, ?map2_length, ?shift1_length,
          ?column_length; lia).
  rewrite combine_nth_both
    by (rewrite ?length_map, ?map2_length, ?shift1_length, ?column_length; lia).
  cbn [fst snd].
  rewrite !(map_nth_lt nabs _ _ NaN)
    by (rewrite ?map2_length, ?shift1_length, ?column_length; lia).
  rewrite !(map2_nth _ _ _ _ NaN NaN)
    by (rewrite ?shift1_length, ?column_length; lia).
  reflexivity.
Qed.

Lemma nmax2_fin a b : exists m, Pandas.nmax2 (Fin a) (Fin b) = Fin m /\ a <= m /\ b <= m.
Proof.
  unfold Pandas.nmax2, ngt, ncmp. destruct (b ?= a) eqn:E.
  - apply Qeq_alt in E. exists a. repeat split; lra.
  - apply Qlt_alt in E. exists a. repeat split; lra.
  - apply Qgt_alt in E. exists b. repeat split; lra.
Qed.

(** Every entry of the true range is finite when high, low and close are
    there; from the second candle on it is not negative, whatever the
    order of high and low. *)
Lemma true_range_entry candles i :
  Forall (fun c => has_key "high" c = true) candles ->
  Forall (fun c => has_key "low" c = true) candles ->
  Forall (fun c => has_key "close" c = true) candles ->
  (i < length candles)%nat ->
  is_finite (nth i (Props.true_range candles) NaN) = true /\
  ((1 <= i)%nat -> fin_nonneg (nth i (Props.true_range candles) NaN)).
Proof.
  intros Hh Hl Hc Hi. rewrite true_range_nth by exact Hi.
  destruct (column_nth_fin "high" candles i Hh Hi) as (h & ->).
  destruct (column_nth_fin "low" candles i Hl Hi) as (l & ->).
  destruct i as [|i].
  - split; [|lia].
    destruct candles as [|c candles]; [inversion Hi|]. reflexivity.
  - assert (Hi' : (S i - 1 < length candles)%nat) by (clear - Hi; lia).
    rewrite shift1_nth by (rewrite column_length; split; [lia | exact Hi]).
    destruct (column_nth_fin "close" candles (S i - 1) Hc Hi') as (pc & ->).
    cbn [nsub nneg nadd nabs]. unfold Pandas.max. cbn [Pandas.dropna filter is_nan negb].
    cbn [Pandas.max_all fold_left].
    destruct (nmax2_fin (h + - l) (Qabs (h + - pc))) as (m & -> & _ & Hm).
    destruct (nmax2_fin m (Qabs (l + - pc))) as (m' & -> & Hm' & _).
    split; [reflexivity|]. intros _. exists m'. split; [reflexivity|].
    pose proof (Qabs_nonneg (h + - pc)). lra.
Qed.

Lemma dropna_finite s : forallb is_finite s = true -> Pandas.dropna s = s.
Proof.
  induction s as [|x s IH]; [reflexivity|]. cbn [forallb]. intros H.
  apply andb_prop in H. destruct H as [Hx Hs]. cbn [Pandas.dropna filter].
  destruct x; try discriminate. cbn. f_equal. now apply IH.
Qed.

Lemma forallb_nth (P : num -> bool) s :
  (forall i, (i < length s)%nat -> P (nth i s NaN) = true) -> forallb P s = true.
Proof.
  intros H. apply forallb_forall. intros x Hx.
  destruct (In_nth s x NaN Hx) as (i & Hi & <-). now apply H.
Qed.

Lemma Forall_skipn_nth (P : num -> Prop) s k :
  (forall i, (k <= i < length s)%nat -> P (nth i s NaN)) -> Forall P (skipn k s).
Proof.
  intros H. apply Forall_forall. intros x Hx.
  destruct (In_nth _ x NaN Hx) as (i & Hi & <-). rewrite length_skipn in Hi.
  rewrite nth_skipn. apply H. lia.
Qed.

(** X14: atr.py: for a list of candles that is not empty and passes the
    length and field checks, with open, high, low and close of magnitude
    at most 10^6, the call returns, for every period, also 0 and negative
    ones.  For a
    period of at least 1 the three values are finite and
    0 <= half_atr <= atr <= double_atr, even where a candle has its high
    below its low.  (With no candle at all and a period below 0 both
    checks pass and reading the column "close" raises KeyError.) *)
Theorem atr_is_not_negative (candles : list candle) (period : Z) :
  candles <> [] ->
  (period + 1 <= len candles)%Z ->
  Forall (Props.complete ["open"; "high"; "low"; "close"]%string) candles ->
  Forall (Props.prices_within 1000000) candles ->
  Forall (fun c => Qabs (Props.value "open" c) <= 1000000) candles ->
  exists r,
    Atr.calculate_atr candles period = inr r /\
    ((1 <= period)%Z ->
     exists a h d,
       Atr.atr r = Fin a /\ Atr.half_atr r = Fin h /\ Atr.double_atr r = Fin d /\
       0 <= h /\ h <= a /\ a <= d).
Proof.
  intros Hne Hlen Hall _ _. unfold Atr.calculate_atr.
  replace (_ <? _)%Z with false by (symmetry; apply Z.ltb_ge; lia).
  unfold check_fields. rewrite check_fields_complete by exact Hall. cbn [bind ret].
  rewrite (frame_column_nonempty _ _ Hne). cbn [bind ret].
  eexists. split; [reflexivity|]. intros Hp.
  cbn [Atr.atr Atr.half_atr Atr.double_atr].
  fold (Props.true_range candles).
  assert (Hh : Forall (fun c => has_key "high" c = true) candles)
    by (eapply Forall_impl; [|exact Hall]; intros c Hc;
        apply (complete_has_key _ _ _ Hc); cbn; tauto).
  assert (Hl : Forall (fun c => has_key "low" c = true) candles)
    by (eapply Forall_impl; [|exact Hall]; intros c Hc;
        apply (complete_has_key _ _ _ Hc); cbn; tauto).
  assert (Hc : Forall (fun c => has_key "close" c = true) candles)
    by (eapply Forall_impl; [|exact Hall]; intros c Hc;
        apply (complete_has_key _ _ _ Hc); cbn; tauto).
  assert (Hfin : forallb is_finite (Props.true_range candles) = true).
  { apply forallb_nth. intros i Hi. rewrite true_range_length in Hi.
    now apply true_range_entry. }
  rewrite (dropna_finite _ Hfin). unfold Pandas.tail.
  replace (period =? 0)%Z with false by (symmetry; apply Z.eqb_neq; lia).
  replace (0 <? period)%Z with true by (symmetry; apply Z.ltb_lt; lia).
  rewrite true_range_length. unfold len in Hlen.
  set (k := (length candles - Z.to_nat period)%nat).
  assert (Hk : (1 <= k < length candles)%nat) by (unfold k; lia).
  assert (Htail : Forall fin_nonneg (skipn k (Props.true_range candles))).
  { apply Forall_skipn_nth. intros i Hi. rewrite true_range_length in Hi.
    apply true_range_entry; auto; unfold candle in *; lia. }
  unfold Pandas.mean.
  rewrite dropna_finite
    by (apply (Forall_finite fin_nonneg); [exact fin_nonneg_finite | exact Htail]).
  destruct (mean_all_nonneg (skipn k (Props.true_range candles))) as (a & -> & Ha).
  { intros E. apply (f_equal (@length num)) in E.
    rewrite length_skipn, true_range_length in E. simpl in E. unfold candle in *. lia. }
  { exact Htail. }
  cbn [nmul round]. do 3 eexists. repeat (split; [reflexivity|]).
  split; [|split].
  - setoid_replace 0 with (round_q 0 2) by reflexivity. apply round_q_monotone. lra.
  - apply round_q_monotone. lra.
  - apply round_q_monotone. lra.
Qed.

Lemma atr_is_not_negative_witness :
  exists r,
    Atr.calculate_atr
      [ ("open"%string, 9) :: Examples.ohlc 8 10 9;
        ("open"%string, 9) :: Examples.ohlc 9 11 10;
        ("open"%string, 10) :: Examples.ohlc 10 13 12 ] 2 = inr r /\
    exists a h d,
      Atr.atr r = Fin a /\ Atr.half_atr r = Fin h /\ Atr.double_atr r = Fin d /\
      0 <= h /\ h <= a /\ a <= d.
Proof.
  destruct (atr_is_not_negative
              [ ("open"%string, 9) :: Examples.ohlc 8 10 9;
                ("open"%string, 9) :: Examples.ohlc 9 11 10;
                ("open"%string, 10) :: Examples.ohlc 10 13 12 ] 2) as (r & Hr & H).
  - discriminate.
  - vm_compute. discriminate.
  - repeat constructor.
  - repeat constructor; vm_compute; discriminate.
  - repeat constructor; vm_compute; discriminate.
  - exists r. split; [exact Hr|]. apply H. lia.
Defined.

(** The empty list of candles: with period -1 both checks pass, and the
    first column read raises KeyError. *)
Example atr_of_no_candle :
  Atr.calculate_atr [] (-1) = inl (KeyError "close").
Proof. reflexivity. Qed.

(** The same in adx.py (period -1) and stochastic.py (k_period 0,
    d_period 1). *)
Example adx_of_no_candle :
  Adx.calculate_adx [] (-1) = inl (KeyError "close").
Proof. reflexivity. Qed.

Example stochastic_of_no_candle :
  Stochastic.calculate_stochastic [] 0 1 80 20 = inl (KeyError "low").
Proof. reflexivity. Qed.

Lemma has_key_column f (c : candle) :
  has_key f c = is_finite (match lookup f c with Some q => Fin q | None => NaN end).
Proof. unfold has_key. now destruct (lookup f c). Qed.

Lemma has_key_of_column f candles :
  map (has_key f) candles = map is_finite (column f candles).
Proof.
  unfold column. rewrite map_map. apply map_ext. intros c. apply has_key_column.
Qed.

Lemma column_has_key f candles candles' :
  column f candles = column f candles' ->
  map (has_key f) candles = map (has_key f) candles'.
Proof. intros H. rewrite !has_key_of_column. now rewrite H. Qed.

Lemma check_fields_from_same_keys required candles candles' i :
  length candles = length candles' ->
  (forall f, In f required -> map (has_key f) candles = map (has_key f) candles') ->
  check_fields_from i required candles = check_fields_from i required candles'.
Proof.
  revert candles' i. induction candles as [|c candles IH]; intros [|c' candles'] i Hlen H;
    try discriminate; [reflexivity|].
  cbn [check_fields_from].
  assert (E : filter (fun f => negb (has_key f c)) required =
              filter (fun f => negb (has_key f c')) required).
  { apply filter_ext_in. intros f Hf. specialize (H f Hf). cbn [map] in H. congruence. }
  rewrite E. rewrite (IH candles' (S i)); [reflexivity | simpl in Hlen; lia |].
  intros f Hf. specialize (H f Hf). cbn [map] in H. congruence.
Qed.

(** X15: atr.py requires the field "open" but never reads it: two lists of
    candles with the same high, low and close columns, and with "open"
    present in the same candles, give the same outcome. *)
Theorem atr_ignores_open_values (candles candles' : list candle) (period : Z) :
  column "high" candles = column "high" candles' ->
  column "low" candles = column "low" candles' ->
  column "close" candles = column "close" candles' ->
  map (has_key "open") candles = map (has_key "open") candles' ->
  Atr.calculate_atr candles period = Atr.calculate_atr candles' period.
Proof.
  intros Hh Hl Hc Ho.
  assert (Hlen : length candles = length candles')
    by (apply (f_equal (@length bool)) in Ho; now rewrite !length_map in Ho).
  unfold Atr.calculate_atr, len.
  rewrite Hlen, Hh, Hl, (frame_column_same "close" candles candles' Hc).
  unfold check_fields.
  rewrite (check_fields_from_same_keys _ candles candles' 0 Hlen); [reflexivity|].
  intros f [<-|[<-|[<-|[<-|[]]]]]; auto using column_has_key.
Qed.

Lemma atr_ignores_open_values_witness :
  Atr.calculate_atr
    [ ("open"%string, 9) :: Examples.ohlc 10 8 9;
      ("open"%string, 9) :: Examples.ohlc 11 9 10;
      ("open"%string, 10) :: Examples.ohlc 13 10 12 ] 2 =
  Atr.calculate_atr
    [ ("open"%string, 0) :: Examples.ohlc 10 8 9;
      ("open"%string, 500) :: Examples.ohlc 11 9 10;
      ("open"%string, -3) :: Examples.ohlc 13 10 12 ] 2.
Proof.
  apply (atr_ignores_open_values
           [ ("open"%string, 9) :: Examples.ohlc 10 8 9;
             ("open"%string, 9) :: Examples.ohlc 11 9 10;
             ("open"%string, 10) :: Examples.ohlc 13 10 12 ]
           [ ("open"%string, 0) :: Examples.ohlc 10 8 9;
             ("open"%string, 500) :: Examples.ohlc 11 9 10;
             ("open"%string, -3) :: Examples.ohlc 13 10 12 ] 2); reflexivity.
Defined.

(* ================================================================== *)
(** ** VWAP over several candles *)

Lemma map2_map {X Y Z W} (f : Y -> Z -> W) (g : X -> Y) (h : X -> Z) l :
  Pandas.map2 f (map g l) (map h l) = map (fun x => f (g x) (h x)) l.
Proof.
  unfold Pandas.map2. induction l as [|x l IH]; [reflexivity|].
  cbn [map combine fst snd]. now rewrite IH.
Qed.

Lemma column_values f candles :
  Forall (fun c => has_key f c = true) candles ->
  column f candles = map (fun c => Fin (Props.value f c)) candles.
Proof.
  intros H. unfold column. apply map_ext_in. intros c Hc.
  rewrite Forall_forall in H. specialize (H c Hc). unfold has_key in H.
  unfold Props.value. now destruct (lookup f c).
Qed.

Lemma cumsum_from_last rest : forall x d,
  nth (length rest) (x :: Pandas.cumsum_from x rest) d = fold_left nadd rest x.
Proof.
  induction rest as [|y rest IH]; intros x d; [reflexivity|].
  cbn [length Pandas.cumsum_from fold_left]. cbv zeta.
  change (nth (S (length rest)) (x :: (x + y)%num :: Pandas.cumsum_from (x + y)%num rest) d)
    with (nth (length rest) ((x + y)%num :: Pandas.cumsum_from (x + y)%num rest) d).
  apply IH.
Qed.

Lemma cumsum_from_length rest x : length (Pandas.cumsum_from x rest) = length rest.
Proof. revert x. induction rest; intros; simpl; auto. Qed.

Lemma fold_Qplus_proper l u v : u == v -> fold_left Qplus l u == fold_left Qplus l v.
Proof.
  revert u v. induction l as [|y l IH]; intros u v H; [exact H|].
  cbn [fold_left]. apply IH. now rewrite H.
Qed.

Lemma fold_Qplus_zero l a :
  a == 0 -> Forall (fun q => q == 0) l -> fold_left Qplus l a == 0.
Proof.
  revert a. induction l as [|q l IH]; intros a Ha H; [exact Ha|].
  inversion H as [|? ? Hq Hl]; subst. cbn [fold_left]. apply IH; [|exact Hl].
  rewrite Ha, Hq. reflexivity.
Qed.

(** The last entry of the running sum of a column of numbers is their
    total. *)
Lemma cumsum_prices_last qs :
  qs <> [] ->
  exists s, Pandas.iloc_neg 1 (Pandas.cumsum (map Fin qs)) = inr (Fin s) /\
            s == Props.total qs.
Proof.
  intros Hne. destruct qs as [|q rest]; [congruence|].
  cbn [map Pandas.cumsum].
  rewrite (iloc_neg_last _ (length (map Fin rest)) NaN)
    by (cbn [length]; now rewrite cumsum_from_length).
  rewrite cumsum_from_last, nsum_prices.
  eexists. split; [reflexivity|]. unfold Props.total. cbn [fold_left].
  apply fold_Qplus_proper. ring.
Qed.

Lemma sum_prices qs : Pandas.sum (map Fin qs) = Fin (Props.total qs).
Proof.
  unfold Pandas.sum. rewrite dropna_finite by apply finite_prices.
  unfold Pandas.nsum. apply nsum_prices.
Qed.

Lemma iloc_neg_last_price qs :
  qs <> [] -> exists q, Pandas.iloc_neg 1 (map Fin qs) = inr (Fin q).
Proof.
  intros Hne. destruct (length qs) as [|n] eqn:E; [destruct qs; [congruence|discriminate]|].
  rewrite (iloc_neg_last _ n NaN) by now rewrite length_map.
  rewrite (map_nth_lt Fin _ _ 0) by lia. eauto.
Qed.

(** In exact arithmetic: once the checks have passed the call returns, the
    VWAP is the rounded quotient of the two sums when the volumes do not sum
    to zero, total_volume is the truncated sum of the volumes, and with
    every volume zero the numeric fields are NaN. *)
Lemma vwap_is_volume_weighted_mean_exact (candles : list candle) :
  candles <> [] ->
  Forall (Props.complete ["high"; "low"; "close"; "volume"]%string) candles ->
  let volume := Props.total (map (Props.value "volume") candles) in
  exists r,
    Vwap.calculate_vwap candles = inr r /\
    Vwap.total_volume r = Z.quot (Qnum volume) (Zpos (Qden volume)) /\
    (~ volume == 0 -> Vwap.vwap r = Fin (round_q (Props.vwap_of candles) 2)) /\
    (Forall (fun c => Props.value "volume" c == 0) candles ->
     Vwap.vwap r = NaN /\ Vwap.deviation_pct r = NaN /\
     Vwap.upper_band r = NaN /\ Vwap.lower_band r = NaN /\
     Vwap.signal r = "near_vwap"%string).
Proof.
  intros Hne Hall volume.
  assert (Hkey : forall f, In f ["high"; "low"; "close"; "volume"]%string ->
                           Forall (fun c => has_key f c = true) candles).
  { intros f Hf. eapply Forall_impl; [|exact Hall]. intros c Hc.
    now apply (complete_has_key _ _ _ Hc). }
  unfold Vwap.calculate_vwap.
  replace (len candles <? 1)%Z with false
    by (symmetry; apply Z.ltb_ge; unfold len; destruct candles; [congruence | simpl; lia]).
  unfold check_fields. rewrite check_fields_complete by exact Hall. cbn [bind ret].
  rewrite (column_values "high"), (column_values "low"), (column_values "close"),
    (column_values "volume") by (apply Hkey; cbn; tauto).
  rewrite !map2_map, map_map. cbn [nadd].
  rewrite (map_ext _ (fun c => Fin (Props.typical c)))
    by (intros c; apply ndiv_Fin_nz; discriminate).
  rewrite !map2_map. cbn [nmul].
  rewrite <- (map_map (fun c => Props.typical c * Props.value "volume" c) Fin).
  rewrite <- (map_map (Props.value "volume") Fin).
  rewrite <- (map_map (Props.value "close") Fin).
  destruct (cumsum_prices_last
              (map (fun c => Props.typical c * Props.value "volume" c) candles))
    as (spv & -> & Hspv); [now destruct candles|].
  destruct (cumsum_prices_last (map (Props.value "volume") candles))
    as (svol & -> & Hsvol); [now destruct candles|].
  destruct (iloc_neg_last_price (map (Props.value "close") candles))
    as (price & ->); [now destruct candles|].
  cbn [bind ret]. rewrite sum_prices. cbn [Vwap.int_of bind ret].
  eexists. split; [reflexivity|].
  cbn [Vwap.total_volume Vwap.vwap Vwap.deviation_pct Vwap.upper_band Vwap.lower_band
       Vwap.signal].
  fold volume in Hsvol |- *.
  split; [reflexivity|]. split.
  - intros Hv. rewrite ndiv_Fin_nz by (rewrite Hsvol; exact Hv).
    cbn [round]. f_equal. apply round_q_proper.
    unfold Props.vwap_of. fold volume. rewrite Hspv, Hsvol. reflexivity.
  - intros Hzero.
    assert (Hv0 : volume == 0).
    { unfold volume, Props.total. apply fold_Qplus_zero; [reflexivity|].
      apply Forall_map. exact Hzero. }
    assert (Hpv0 : spv == 0).
    { rewrite Hspv. unfold Props.total. apply fold_Qplus_zero; [reflexivity|].
      apply Forall_map. eapply Forall_impl; [|exact Hzero].
      intros c Hc. cbv beta in Hc |- *. rewrite Hc. ring. }
    assert (Evw : (Fin spv / Fin svol)%num = NaN).
    { cbn [ndiv]. rewrite Qeq_bool_true by (rewrite Hsvol; exact Hv0).
      apply Qeq_alt in Hpv0. now rewrite Hpv0. }
    rewrite Evw. cbn [nsub nneg nadd ndiv nmul round]. repeat split.
Qed.


Lemma fold_Qplus_ge l a :
  Forall (fun q => 0 <= q) l -> a <= fold_left Qplus l a.
Proof.
  intros H. revert a. induction H as [|x l Hx _ IH]; intros a; [apply Qle_refl|].
  cbn [fold_left]. apply Qle_trans with (a + x); [lra | apply IH].
Qed.

Lemma total_at_least_one l :
  l <> [] -> Forall (fun q => 1 <= q) l -> 1 <= Props.total l.
Proof.
  intros Hne H. destruct H as [|x l Hx Hl]; [congruence|].
  unfold Props.total. cbn [fold_left].
  apply Qle_trans with (0 + x); [lra|].
  apply fold_Qplus_ge. eapply Forall_impl; [|exact Hl]. intros q Hq. cbv beta in Hq. lra.
Qed.

Lemma fold_Qplus_integer l a :
  (exists z, a == inject_Z z) ->
  Forall (fun q => exists z, q == inject_Z z) l ->
  exists z, fold_left Qplus l a == inject_Z z.
Proof.
  intros Ha H. revert a Ha. induction H as [|x l (zx & Hx) _ IH]; intros a (za & Ha).
  - now exists za.
  - cbn [fold_left]. apply IH. exists (za + zx)%Z.
    rewrite Ha, Hx, inject_Z_plus. reflexivity.
Qed.

Lemma quot_of_integer q z :
  q == inject_Z z -> Z.quot (Qnum q) (Zpos (Qden q)) = z.
Proof.
  intros H. unfold Qeq in H. cbn [inject_Z Qnum Qden] in H.
  rewrite Z.mul_1_r in H. rewrite H. apply Z.quot_mul. discriminate.
Qed.

(** X16: vwap.py, for at most 1000 complete candles with prices of
    magnitude at most 1,000,000 and volumes between 0 and 1,000,000,000
    (where the rounding error of double-precision sums stays far below half
    a cent): the call returns.  When every volume is at least 1 the reported
    VWAP is within 0.01 of the sum of typical price times volume over the
    sum of the volumes.  When every volume is a whole number, total_volume
    is the sum of the volumes.  When every volume is zero nothing is raised:
    the VWAP, the deviation and both bands are NaN and the signal is
    "near_vwap". *)
Theorem vwap_is_volume_weighted_mean (candles : list candle) :
  candles <> [] ->
  Forall (Props.complete ["high"; "low"; "close"; "volume"]%string) candles ->
  (len candles <= 1000)%Z ->
  Forall (Props.prices_within 1000000) candles ->
  Forall (fun c => 0 <= Props.value "volume" c /\
                   Props.value "volume" c <= 1000000000) candles ->
  exists r,
    Vwap.calculate_vwap candles = inr r /\
    (Forall (fun c => 1 <= Props.value "volume" c) candles ->
     exists vw, Vwap.vwap r = Fin vw /\
                Qabs (vw - Props.vwap_of candles) <= 1 # 100) /\
    (Forall (fun c => exists z, Props.value "volume" c == inject_Z z) candles ->
     inject_Z (Vwap.total_volume r) ==
     Props.total (map (Props.value "volume") candles)) /\
    (Forall (fun c => Props.value "volume" c == 0) candles ->
     Vwap.vwap r = NaN /\ Vwap.deviation_pct r = NaN /\
     Vwap.upper_band r = NaN /\ Vwap.lower_band r = NaN /\
     Vwap.signal r = "near_vwap"%string).
Proof.
  intros Hne Hall _ _ _.
  destruct (vwap_is_volume_weighted_mean_exact candles Hne Hall)
    as (r & Hr & Htot & Hvw & Hzero).
  exists r. split; [exact Hr|]. split; [|split; [|exact Hzero]].
  - intros Hone. eexists. split.
    + apply Hvw. intros H0.
      assert (H1 : 1 <= Props.total (map (Props.value "volume") candles)).
      { apply total_at_least_one; [now destruct candles|].
        apply Forall_map. exact Hone. }
      rewrite H0 in H1. revert H1. apply Qlt_not_le. reflexivity.
    + apply Qle_trans with (1 # 200); [apply round_q_near | discriminate].
  - intros Hint.
    destruct (fold_Qplus_integer (map (Props.value "volume") candles) 0) as (z & Hz).
    { exists 0%Z. reflexivity. }
    { apply Forall_map. exact Hint. }
    fold (Props.total (map (Props.value "volume") candles)) in Hz.
    rewrite Htot, (quot_of_integer _ _ Hz), Hz. reflexivity.
Qed.

Lemma vwap_is_volume_weighted_mean_witness :
  (exists r,
     Vwap.calculate_vwap [Examples.ohlcv 3 1 2 10; Examples.ohlcv 6 4 5 30] = inr r /\
     (exists vw,
        Vwap.vwap r = Fin vw /\
        Qabs (vw - Props.vwap_of [Examples.ohlcv 3 1 2 10; Examples.ohlcv 6 4 5 30])
        <= 1 # 100) /\
     Vwap.total_volume r = 40%Z) /\
  (exists r,
     Vwap.calculate_vwap [Examples.ohlcv 3 1 2 0; Examples.ohlcv 6 4 5 0] = inr r /\
     Vwap.vwap r = NaN).
Proof.
  split.
  - destruct (vwap_is_volume_weighted_mean
                [Examples.ohlcv 3 1 2 10; Examples.ohlcv 6 4 5 30])
      as (r & Hr & Hv & Ht & _);
      [discriminate | repeat constructor | vm_compute; discriminate
      | repeat constructor; vm_compute; discriminate
      | repeat constructor; vm_compute; discriminate |].
    exists r. split; [exact Hr|]. split.
    + apply Hv. repeat constructor; vm_compute; discriminate.
    + assert (Hz : inject_Z (Vwap.total_volume r) == inject_Z 40).
      { rewrite Ht; [reflexivity|].
        repeat constructor; [exists 10%Z | exists 30%Z]; reflexivity. }
      unfold Qeq in Hz. cbn [inject_Z Qnum Qden] in Hz. lia.
  - destruct (vwap_is_volume_weighted_mean
                [Examples.ohlcv 3 1 2 0; Examples.ohlcv 6 4 5 0])
      as (r & Hr & _ & _ & Hz);
      [discriminate | repeat constructor | vm_compute; discriminate
      | repeat constructor; vm_compute; discriminate
      | repeat constructor; vm_compute; discriminate |].
    exists r. split; [exact Hr|]. apply Hz. repeat constructor.
Defined.

(* ================================================================== *)
(** ** Stochastic oscillator: the range of %K and %D *)

Lemma fin_percent_finite x : fin_percent x -> is_finite x = true.
Proof. now intros (q & -> & _). Qed.

Lemma fold_nmin2_fin rest : forall a,
  Forall (fun x => is_finite x = true) rest ->
  exists m, fold_left Pandas.nmin2 rest (Fin a) = Fin m /\ m <= a /\
            forall q, In (Fin q) rest -> m <= q.
Proof.
  induction rest as [|x rest IH]; intros a H.
  - exists a. split; [reflexivity|]. split; [apply Qle_refl | intros q []].
  - inversion H as [|? ? Hx Hrest]; subst. destruct x as [b| | |]; try discriminate.
    cbn [fold_left]. unfold Pandas.nmin2 at 2, nlt, ncmp.
    destruct (b ?= a) eqn:E.
    + apply Qeq_alt in E. destruct (IH a Hrest) as (m & -> & Hm & Hall).
      exists m. split; [reflexivity|]. split; [exact Hm|].
      intros q [[= <-]|Hq]; [lra | auto].
    + apply Qlt_alt in E. destruct (IH b Hrest) as (m & -> & Hm & Hall).
      exists m. split; [reflexivity|]. split; [lra|].
      intros q [[= <-]|Hq]; [lra | auto].
    + apply Qgt_alt in E. destruct (IH a Hrest) as (m & -> & Hm & Hall).
      exists m. split; [reflexivity|]. split; [exact Hm|].
      intros q [[= <-]|Hq]; [lra | auto].
Qed.

Lemma fold_nmax2_fin rest : forall a,
  Forall (fun x => is_finite x = true) rest ->
  exists m, fold_left Pandas.nmax2 rest (Fin a) = Fin m /\ a <= m /\
            forall q, In (Fin q) rest -> q <= m.
Proof.
  induction rest as [|x rest IH]; intros a H.
  - exists a. split; [reflexivity|]. split; [apply Qle_refl | intros q []].
  - inversion H as [|? ? Hx Hrest]; subst. destruct x as [b| | |]; try discriminate.
    cbn [fold_left]. unfold Pandas.nmax2 at 2, ngt, ncmp.
    destruct (b ?= a) eqn:E.
    + apply Qeq_alt in E. destruct (IH a Hrest) as (m & -> & Hm & Hall).
      exists m. split; [reflexivity|]. split; [exact Hm|].
      intros q [[= <-]|Hq]; [lra | auto].
    + apply Qlt_alt in E. destruct (IH a Hrest) as (m & -> & Hm & Hall).
      exists m. split; [reflexivity|]. split; [exact Hm|].
      intros q [[= <-]|Hq]; [lra | auto].
    + apply Qgt_alt in E. destruct (IH b Hrest) as (m & -> & Hm & Hall).
      exists m. split; [reflexivity|]. split; [lra|].
      intros q [[= <-]|Hq]; [lra | auto].
Qed.

Lemma min_all_fin l :
  forallb is_finite l = true -> l <> [] ->
  exists m, Pandas.min_all l = Fin m /\ forall q, In (Fin q) l -> m <= q.
Proof.
  intros H Hne. destruct l as [|x rest]; [congruence|].
  cbn [forallb] in H. apply andb_prop in H. destruct H as [Hx Hrest].
  destruct x as [a| | |]; try discriminate.
  destruct (fold_nmin2_fin rest a) as (m & Em & Hm & Hall).
  { apply Forall_forall. now apply forallb_forall. }
  exists m. split; [exact Em|]. intros q [[= <-]|Hq]; auto.
Qed.

Lemma max_all_fin l :
  forallb is_finite l = true -> l <> [] ->
  exists m, Pandas.max_all l = Fin m /\ forall q, In (Fin q) l -> q <= m.
Proof.
  intros H Hne. destruct l as [|x rest]; [congruence|].
  cbn [forallb] in H. apply andb_prop in H. destruct H as [Hx Hrest].
  destruct x as [a| | |]; try discriminate.
  destruct (fold_nmax2_fin rest a) as (m & Em & Hm & Hall).
  { apply Forall_forall. now apply forallb_forall. }
  exists m. split; [exact Em|]. intros q [[= <-]|Hq]; auto.
Qed.

(** A rolling minimum (maximum) over a finite column, once the window is
    full, is a bound of the entry it ends at. *)
Lemma rolling_min_bound s w i q :
  Forall (fun x => is_finite x = true) s ->
  (1 <= w <= i + 1)%nat -> (i < length s)%nat -> nth i s NaN = Fin q ->
  exists m, Pandas.at_ (Pandas.rolling_apply Pandas.min_all w s) i = Fin m /\ m <= q.
Proof.
  intros Hfin Hw Hi Hq. rewrite rolling_apply_nth by exact Hi.
  replace (i + 1 <? w)%nat with false by (symmetry; apply Nat.ltb_ge; lia).
  pose proof (window_at_has_last s w i Hw Hi) as Hin. rewrite Hq in Hin.
  rewrite window_at_finite by exact Hfin.
  destruct (min_all_fin (Pandas.window_at s w i)) as (m & -> & Hm).
  - now apply window_at_finite.
  - intros E. rewrite E in Hin. contradiction.
  - exists m. split; [reflexivity | now apply Hm].
Qed.

Lemma rolling_max_bound s w i q :
  Forall (fun x => is_finite x = true) s ->
  (1 <= w <= i + 1)%nat -> (i < length s)%nat -> nth i s NaN = Fin q ->
  exists m, Pandas.at_ (Pandas.rolling_apply Pandas.max_all w s) i = Fin m /\ q <= m.
Proof.
  intros Hfin Hw Hi Hq. rewrite rolling_apply_nth by exact Hi.
  replace (i + 1 <? w)%nat with false by (symmetry; apply Nat.ltb_ge; lia).
  pose proof (window_at_has_last s w i Hw Hi) as Hin. rewrite Hq in Hin.
  rewrite window_at_finite by exact Hfin.
  destruct (max_all_fin (Pandas.window_at s w i)) as (m & -> & Hm).
  - now apply window_at_finite.
  - intros E. rewrite E in Hin. contradiction.
  - exists m. split; [reflexivity | now apply Hm].
Qed.

(** %K from a close between the lowest low and the highest high. *)
Lemma k_percent_range c lo hi :
  lo <= c -> c <= hi ->
  let k := (Fin 100 * ((Fin c - Fin lo) / (Fin hi - Fin lo)))%num in
  k = NaN \/ fin_percent k.
Proof.
  intros H1 H2. cbv zeta. cbn [nsub nneg nadd].
  change (Fin (c + - lo) / Fin (hi + - lo))%num
    with (if Qeq_bool (hi + - lo) 0
          then match c + - lo ?= 0 with Eq => NaN | Gt => PInf | Lt => NInf end
          else Fin ((c + - lo) / (hi + - lo))).
  destruct (Qeq_bool (hi + - lo) 0) eqn:E.
  - apply Qeq_bool_eq in E. left.
    assert (E0 : c + - lo == 0) by lra. apply Qeq_alt in E0. now rewrite E0.
  - apply Qeq_bool_neq in E. right. cbn [nmul].
    assert (Hpos : 0 < hi + - lo) by lra.
    eexists. split; [reflexivity|]. split.
    + apply Qmult_le_0_compat; [discriminate|]. apply Qle_shift_div_l; lra.
    + setoid_replace 100 with (100 * 1) at 2 by reflexivity.
      apply Qmult_le_l; [reflexivity|]. apply Qle_shift_div_r; lra.
Qed.

Lemma fold_nadd_percent l a :
  Forall fin_percent l ->
  exists q, fold_left nadd l (Fin a) = Fin q /\ a <= q /\
            q <= a + 100 * inject_Z (Z.of_nat (length l)).
Proof.
  revert a; induction l as [|x l IH]; intros a H.
  - exists a. cbn [fold_left length]. change (inject_Z (Z.of_nat 0)) with 0.
    split; [reflexivity|]. split; lra.
  - inversion H as [|? ? (q & -> & Hq0 & Hq1) Hl]; subst.
    destruct (IH (a + q) Hl) as (r & Er & Hr0 & Hr1).
    exists r. cbn [fold_left nadd]. rewrite Er. split; [reflexivity|]. split; [lra|].
    cbn [length]. rewrite Nat2Z.inj_succ. unfold Z.succ. rewrite inject_Z_plus.
    change (inject_Z 1) with 1. lra.
Qed.

Lemma mean_all_percent l : l <> [] -> Forall fin_percent l -> fin_percent (Pandas.mean_all l).
Proof.
  intros Hne H. unfold Pandas.mean_all, Pandas.nsum.
  destruct (fold_nadd_percent l 0 H) as (q & -> & Hq0 & Hq1).
  assert (Hn : 0 < inject_Z (Z.of_nat (length l))).
  { apply of_nat_nonzero. destruct l; [congruence|simpl; lia]. }
  unfold of_nat, of_Z. rewrite ndiv_Fin_nz by lra.
  eexists; split; [reflexivity|]. split.
  - apply Qle_shift_div_l; lra.
  - apply Qle_shift_div_r; lra.
Qed.

Lemma round_percent x : fin_percent x -> fin_percent (round x 2).
Proof.
  intros (q & -> & H0 & H1). cbn [round]. eexists. split; [reflexivity|]. split.
  - setoid_replace 0 with (round_q 0 2) by reflexivity. now apply round_q_monotone.
  - setoid_replace 100 with (round_q 100 2) by reflexivity. now apply round_q_monotone.
Qed.

(** X17: stochastic.py: with periods of at least 1, enough candles that have
    high, low and close, and low <= close <= high in every candle, the
    call returns and each of %K and %D is a number between 0 and 100, or
    NaN. *)
Theorem stochastic_within_0_100 (candles : list candle)
  (k_period d_period overbought oversold : Z) :
  (1 <= k_period)%Z -> (1 <= d_period)%Z ->
  (k_period + d_period - 1 <= len candles)%Z -> (2 <= len candles)%Z ->
  Forall (Props.complete ["high"; "low"; "close"]%string) candles ->
  Forall (fun c => Props.value "low" c <= Props.value "close" c /\
                   Props.value "close" c <= Props.value "high" c) candles ->
  exists r,
    Stochastic.calculate_stochastic candles k_period d_period overbought oversold = inr r /\
    (Stochastic.k_percent r = NaN \/ fin_percent (Stochastic.k_percent r)) /\
    (Stochastic.d_percent r = NaN \/ fin_percent (Stochastic.d_percent r)).
Proof.
  intros Hk Hd Hmin Hlen Hall Hsane.
  assert (Hkey : forall f, In f ["high"; "low"; "close"]%string ->
                           Forall (fun c => has_key f c = true) candles).
  { intros f Hf. eapply Forall_impl; [|exact Hall]. intros c Hc.
    now apply (complete_has_key _ _ _ Hc). }
  unfold len in *.
  destruct (length candles) as [|[|n]] eqn:Hl; try lia.
  unfold Stochastic.calculate_stochastic. cbv zeta.
  replace (len candles <? k_period + d_period - 1)%Z with false
    by (symmetry; apply Z.ltb_ge; unfold len; lia).
  unfold check_fields. rewrite check_fields_complete by exact Hall. cbn [bind ret].
  unfold Stochastic.k_percent_column.
  rewrite frame_column_nonempty by (intros ->; discriminate Hl). cbn [bind ret].
  rewrite rolling_min_ok, rolling_max_ok by lia. cbn [bind ret].
  rewrite rolling_mean_ok by lia. cbn [bind ret].
  set (w := Z.to_nat k_period) in *.
  set (d := Z.to_nat d_period) in *.
  assert (Hw : (1 <= w)%nat) by (unfold w; lia).
  assert (Hdw : (1 <= d)%nat /\ (w + d - 1 <= S (S n))%nat) by (unfold w, d; lia).
  set (low_min := Pandas.rolling_apply Pandas.min_all w (column "low" candles)).
  set (high_max := Pandas.rolling_apply Pandas.max_all w (column "high" candles)).
  set (k_col := map _ _).
  assert (Lk : length k_col = S (S n)).
  { unfold k_col, low_min, high_max. col_lengths. }
  assert (Hentry : forall i, (w - 1 <= i < S (S n))%nat ->
                             nth i k_col NaN = NaN \/ fin_percent (nth i k_col NaN)).
  { intros i Hi. unfold k_col.
    rewrite (map_nth_lt _ _ _ NaN) by (unfold low_min, high_max; col_lengths).
    rewrite (map2_nth _ _ _ _ NaN NaN) by (unfold low_min, high_max; col_lengths).
    rewrite !(map2_nth nsub _ _ _ NaN NaN) by (unfold low_min, high_max; col_lengths).
    assert (Hc : nth i candles [] = nth i candles []) by reflexivity.
    assert (Hin : In (nth i candles []) candles) by (apply nth_In; lia).
    rewrite Forall_forall in Hsane. destruct (Hsane _ Hin) as [Hs1 Hs2].
    assert (Ecol : forall f, In f ["high"; "low"; "close"]%string ->
                     nth i (column f candles) NaN = Fin (Props.value f (nth i candles []))).
    { intros f Hf. rewrite (column_values f) by now apply Hkey.
      apply (map_nth_lt (fun c : candle => Fin (Props.value f c)) candles i []).
      unfold candle in *. lia. }
    destruct (rolling_min_bound (column "low" candles) w i _
                (column_finite _ _ (Hkey "low"%string ltac:(cbn; tauto)))
                ltac:(lia) ltac:(rewrite column_length; lia)
                (Ecol "low"%string ltac:(cbn; tauto))) as (lo & Elo & Hlo).
    destruct (rolling_max_bound (column "high" candles) w i _
                (column_finite _ _ (Hkey "high"%string ltac:(cbn; tauto)))
                ltac:(lia) ltac:(rewrite column_length; lia)
                (Ecol "high"%string ltac:(cbn; tauto))) as (hi & Ehi & Hhi).
    unfold Pandas.at_ in Elo, Ehi. fold low_min in Elo. fold high_max in Ehi.
    rewrite Elo, Ehi, (Ecol "close"%string) by (cbn; tauto).
    apply k_percent_range; lra. }
  rewrite (iloc_neg_last k_col (S n) NaN Lk). cbn [bind ret].
  rewrite (iloc_neg_last _ (S n) NaN) by (now rewrite rolling_apply_length).
  cbn [bind ret].
  rewrite (iloc_neg_prev k_col n NaN Lk). cbn [bind ret].
  rewrite (iloc_neg_prev _ n NaN) by (now rewrite rolling_apply_length).
  cbn [bind ret].
  eexists. split; [reflexivity|].
  cbn [Stochastic.k_percent Stochastic.d_percent].
  split.
  - destruct (Hentry (S n) ltac:(lia)) as [-> | H]; [now left|].
    right. now apply round_percent.
  - fold (Pandas.at_ (Pandas.rolling_apply Pandas.mean_all d k_col) (S n)).
    rewrite rolling_apply_nth by lia.
    replace (S n + 1 <? d)%nat with false by (symmetry; apply Nat.ltb_ge; lia).
    destruct (forallb is_finite (Pandas.window_at k_col d (S n))) eqn:Efin; [|now left].
    right. apply round_percent. apply mean_all_percent.
    + intros E. apply (f_equal (@length num)) in E.
      rewrite window_at_length in E by lia. simpl in E. lia.
    + assert (HF : Forall (fun x => x = NaN \/ fin_percent x)
                          (Pandas.window_at k_col d (S n))).
      { apply window_at_Forall; try lia. intros j Hj. apply Hentry. lia. }
      rewrite forallb_forall in Efin. rewrite Forall_forall in HF |- *.
      intros x Hx. destruct (HF x Hx) as [-> | Hp]; [|exact Hp].
      specialize (Efin NaN Hx). discriminate.
Qed.

Lemma stochastic_within_0_100_witness :
  exists r,
    Stochastic.calculate_stochastic
      [Examples.ohlc 10 8 9; Examples.ohlc 11 9 10; Examples.ohlc 13 10 12] 2 2 80 20 = inr r /\
    (Stochastic.k_percent r = NaN \/ fin_percent (Stochastic.k_percent r)) /\
    (Stochastic.d_percent r = NaN \/ fin_percent (Stochastic.d_percent r)).
Proof.
  apply (stochastic_within_0_100
           [Examples.ohlc 10 8 9; Examples.ohlc 11 9 10; Examples.ohlc 13 10 12] 2 2 80 20);
    try (vm_compute; discriminate).
  - repeat constructor.
  - repeat constructor; vm_compute; discriminate.
Defined.

(* ================================================================== *)
(** ** ADX without directional movement *)

Lemma Forall_map2 {X Y Z} (P : X -> Prop) (Q : Y -> Prop) (R : Z -> Prop)
  (f : X -> Y -> Z) xs ys :
  (forall x y, P x -> Q y -> R (f x y)) ->
  Forall P xs -> Forall Q ys -> Forall R (Pandas.map2 f xs ys).
Proof.
  intros Hf Hx. revert ys. unfold Pandas.map2.
  induction Hx as [|x xs Px _ IH]; intros ys Hy; [constructor|].
  destruct Hy as [|y ys Qy Hys]; [constructor|].
  cbn [combine map fst snd]. constructor; [now apply Hf | now apply IH].
Qed.

Lemma Forall_removelast {X} (P : X -> Prop) l : Forall P l -> Forall P (removelast l).
Proof.
  induction 1 as [|x l Px Hl IH]; [constructor|].
  cbn [removelast]. destruct l; [constructor | now constructor].
Qed.

Lemma Forall_shift1 (P : num -> Prop) s :
  P NaN -> Forall P s -> Forall P (Pandas.shift1 s).
Proof.
  intros Hn H. unfold Pandas.shift1. destruct s; [constructor|].
  constructor; [exact Hn | now apply Forall_removelast].
Qed.

Lemma Forall_set_at (P : num -> Prop) i v s :
  P v -> Forall P s -> Forall P (Adx.set_at i v s).
Proof.
  intros Hv H. revert i. induction H as [|x s Px Hs IH]; intros i.
  - destruct i; constructor.
  - destruct i; cbn [Adx.set_at]; constructor; auto.
Qed.

Lemma Forall_at (P : num -> Prop) s i : P NaN -> Forall P s -> P (Pandas.at_ s i).
Proof.
  intros Hn H. unfold Pandas.at_. destruct (Nat.lt_ge_cases i (length s)) as [Hi|Hi].
  - now apply Forall_nth_lt.
  - now rewrite nth_overflow.
Qed.

Lemma nan_or_zero_nan : nan_or_zero NaN.
Proof. now left. Qed.

(** A difference of two equal numbers is not above zero, and neither is a
    difference with the NaN that [shift] puts in front. *)
Lemma constant_diff_not_positive (v : Q) x y :
  (exists q, x = Fin q /\ q == v) -> (y = NaN \/ exists q, y = Fin q /\ q == v) ->
  ((x - y) >? Fin 0)%num = false /\ ((y - x) >? Fin 0)%num = false.
Proof.
  intros (a & -> & Ha) [-> | (b & -> & Hb)]; [split; reflexivity|].
  unfold ngt. cbn [nsub nneg nadd ncmp].
  assert (E1 : a + - b == 0) by (rewrite Ha, Hb; ring).
  assert (E2 : b + - a == 0) by (rewrite Ha, Hb; ring).
  apply Qeq_alt in E1, E2. now rewrite E1, E2.
Qed.

(** [np.where(cond & (a > 0), a, 0)] over a column that is nowhere above
    zero is zero everywhere. *)
Lemma np_where_not_positive (f : num -> num -> bool) a b :
  (forall x y, (x >? Fin 0)%num = false -> f x y = false) ->
  Forall (fun x => (x >? Fin 0)%num = false) a ->
  Forall fin_zero (Adx.np_where (Pandas.map2 f a b) a (Fin 0)).
Proof.
  intros Hf Ha. revert b. unfold Adx.np_where, Pandas.map2.
  induction Ha as [|x a Hx _ IH]; intros b; [constructor|].
  destruct b as [|y b]; [constructor|].
  cbn [combine map fst snd]. rewrite (Hf x y Hx).
  constructor; [|apply IH]. exists 0. split; reflexivity.
Qed.

Lemma constant_column f candles v :
  Forall (fun c => has_key f c = true) candles ->
  Forall (fun c => Props.value f c == v) candles ->
  Forall (fun x => exists q, x = Fin q /\ q == v) (column f candles).
Proof.
  intros Hk Hv. rewrite column_values by exact Hk. apply Forall_map.
  eapply Forall_impl; [|exact Hv]. intros c Hc. eauto.
Qed.

(** With constant highs and constant lows both directional movements are
    zero in every row. *)
Lemma no_directional_movement candles h l :
  Forall (fun c => has_key "high" c = true) candles ->
  Forall (fun c => has_key "low" c = true) candles ->
  Forall (fun c => Props.value "high" c == h) candles ->
  Forall (fun c => Props.value "low" c == l) candles ->
  Forall fin_zero (Adx.plus_dm (Adx.raw_of candles)) /\
  Forall fin_zero (Adx.minus_dm (Adx.raw_of candles)).
Proof.
  intros Kh Kl Hh Hl.
  pose proof (constant_column "high" candles h Kh Hh) as Ch.
  pose proof (constant_column "low" candles l Kl Hl) as Cl.
  unfold Adx.raw_of. cbv zeta. cbn [Adx.plus_dm Adx.minus_dm]. split.
  - apply np_where_not_positive.
    + intros x y Hx. rewrite Hx. apply andb_false_r.
    + apply (Forall_map2 (fun x => exists q, x = Fin q /\ q == h)
                         (fun y => y = NaN \/ exists q, y = Fin q /\ q == h)).
      * intros x y Hx Hy. apply (constant_diff_not_positive h x y Hx Hy).
      * exact Ch.
      * apply Forall_shift1; [now left|].
        eapply Forall_impl; [|exact Ch]. intros x Hx. now right.
  - apply np_where_not_positive.
    + intros x y Hx. rewrite Hx. apply andb_false_r.
    + apply (Forall_map2 (fun y => y = NaN \/ exists q, y = Fin q /\ q == l)
                         (fun x => exists q, x = Fin q /\ q == l)).
      * intros y x Hy Hx. apply (constant_diff_not_positive l x y Hx Hy).
      * apply Forall_shift1; [now left|].
        eapply Forall_impl; [|exact Cl]. intros x Hx. now right.
      * exact Cl.
Qed.

Lemma window_at_incl s w i x : In x (Pandas.window_at s w i) -> In x s.
Proof.
  unfold Pandas.window_at. intros H.
  rewrite <- (firstn_skipn (i + 1 - w) s). apply in_or_app. right.
  rewrite <- (firstn_skipn w (skipn (i + 1 - w) s)). apply in_or_app. now left.
Qed.

Lemma rolling_mean_nan_or_zero w s :
  Forall nan_or_zero s -> Forall nan_or_zero (Pandas.rolling_apply Pandas.mean_all w s).
Proof.
  intros H. unfold Pandas.rolling_apply. apply Forall_map, Forall_forall. intros i _.
  destruct (i + 1 <? w)%nat; [now left|]. cbv zeta.
  destruct (forallb is_finite (Pandas.window_at s w i)) eqn:E; [|now left].
  destruct (Pandas.window_at s w i) as [|x win] eqn:Ew; [now left|].
  right. apply mean_all_zero; [discriminate|].
  rewrite <- Ew in *. rewrite forallb_forall in E. rewrite Forall_forall in H |- *.
  intros y Hy. destruct (H y (window_at_incl _ _ _ _ Hy)) as [-> | Hz]; [|exact Hz].
  specialize (E NaN Hy). discriminate.
Qed.

(** One step of Wilder's recurrence keeps "NaN or zero". *)
Lemma wilder_value_nan_or_zero period prev raw :
  nan_or_zero prev -> nan_or_zero raw ->
  nan_or_zero ((prev * of_Z (period - 1) + raw) / of_Z period)%num.
Proof.
  intros [-> | (a & -> & Ha)]; [now left|].
  intros [-> | (b & -> & Hb)]; [now left|].
  unfold of_Z. cbn [nmul nadd ndiv].
  destruct (Qeq_bool (inject_Z period) 0) eqn:E.
  - assert (E0 : a * inject_Z (period - 1) + b == 0) by (rewrite Ha, Hb; ring).
    apply Qeq_alt in E0. rewrite E0. now left.
  - right. apply Qeq_bool_neq in E. eexists. split; [reflexivity|].
    rewrite Ha, Hb. field. exact E.
Qed.

Lemma column_body_fold_nan_or_zero period raw l : forall col,
  Forall nan_or_zero raw -> Forall nan_or_zero col ->
  Forall nan_or_zero (fold_left (column_body period raw) l col).
Proof.
  induction l as [|i l IH]; intros col Hraw Hcol; [exact Hcol|].
  cbn [fold_left]. apply IH; [exact Hraw|].
  unfold column_body. destruct (Z.of_nat i =? period)%Z; [exact Hcol|].
  unfold Adx.wilder_update. apply Forall_set_at; [|exact Hcol].
  apply wilder_value_nan_or_zero; apply Forall_at; auto using nan_or_zero_nan.
Qed.

Lemma column_body_fold_length period raw l : forall col,
  length (fold_left (column_body period raw) l col) = length col.
Proof.
  induction l as [|i l IH]; intros col; [reflexivity|].
  cbn [fold_left]. rewrite IH. apply column_body_length.
Qed.

Lemma wilder_fold_length period raw l : forall col,
  length (fold_left (fun col i => Adx.wilder_update period raw i col) l col) = length col.
Proof.
  induction l as [|i l IH]; intros col; [reflexivity|].
  cbn [fold_left]. rewrite IH. unfold Adx.wilder_update. apply set_at_length.
Qed.

(** A directional index computed from a smoothed movement that is NaN or
    zero is NaN or zero, whatever the average true range. *)
Lemma di_value_nan_or_zero x a :
  nan_or_zero x -> nan_or_zero ((Fin 100 * x) / a)%num.
Proof.
  intros [-> | (z & -> & Hz)]; [now left|].
  cbn [nmul]. destruct a as [y| | |]; cbn [ndiv].
  - destruct (Qeq_bool y 0) eqn:E.
    + assert (E0 : 100 * z == 0) by (rewrite Hz; ring).
      apply Qeq_alt in E0. rewrite E0. now left.
    + right. apply Qeq_bool_neq in E. eexists. split; [reflexivity|].
      rewrite Hz. field. exact E.
  - right. exists 0. split; reflexivity.
  - right. exists 0. split; reflexivity.
  - now left.
Qed.

(** DX from two directional indexes that are NaN or zero is NaN. *)
Lemma dx_value_nan p m :
  nan_or_zero p -> nan_or_zero m -> ((Fin 100 * nabs (p - m)) / (p + m))%num = NaN.
Proof.
  intros [-> | (a & -> & Ha)]; [reflexivity|].
  intros [-> | (b & -> & Hb)]; [reflexivity|].
  cbn [nsub nneg nadd nabs nmul ndiv].
  rewrite Qeq_bool_true by (rewrite Ha, Hb; ring).
  assert (E : 100 * Qabs (a + - b) == 0).
  { setoid_replace (a + - b) with 0 by (rewrite Ha, Hb; ring). reflexivity. }
  apply Qeq_alt in E. now rewrite E.
Qed.

Lemma nan_or_zero_not_above p m :
  nan_or_zero p -> nan_or_zero m -> (p >? m)%num = false /\ (p <? m)%num = false.
Proof.
  intros [-> | (a & -> & Ha)]; [split; reflexivity|].
  intros [-> | (b & -> & Hb)]; [split; reflexivity|].
  unfold ngt, nlt. cbn [ncmp].
  assert (E : a == b) by (rewrite Ha, Hb; reflexivity).
  apply Qeq_alt in E. now rewrite E.
Qed.

Lemma round_nan_or_zero x : nan_or_zero x -> round x 2 = NaN \/ round x 2 = Fin 0.
Proof.
  intros [-> | (z & -> & Hz)]; [now left|]. right. cbn [round].
  now rewrite (round_q_proper z 0 2 Hz).
Qed.

(** X18: adx.py: when the highs are all equal and the lows are all equal (the
    closes may move), no directional movement is measured: both
    directional indexes are 0 or NaN and the ADX is NaN.  NaN fails every
    comparison of the strength chain, so that the trend strength, and with
    it the signal, is "extremely_strong_trend"; the direction is
    "neutral". *)
Theorem adx_without_directional_movement (candles : list candle) (period : Z) (h l : Q) :
  (1 <= period)%Z -> (period * 2 + 1 <= len candles)%Z ->
  Forall (Props.complete ["high"; "low"; "close"]%string) candles ->
  Forall (fun c => Props.value "high" c == h) candles ->
  Forall (fun c => Props.value "low" c == l) candles ->
  exists r,
    Adx.calculate_adx candles period = inr r /\
    Adx.adx r = NaN /\
    (Adx.plus_di r = NaN \/ Adx.plus_di r = Fin 0) /\
    (Adx.minus_di r = NaN \/ Adx.minus_di r = Fin 0) /\
    Adx.trend_strength r = "extremely_strong_trend"%string /\
    Adx.trend_direction r = "neutral"%string /\
    Adx.signal r = "extremely_strong_trend"%string.
Proof.
  intros Hp Hlen Hall Hh Hl.
  assert (Hkey : forall f, In f ["high"; "low"; "close"]%string ->
                           Forall (fun c => has_key f c = true) candles).
  { intros f Hf. eapply Forall_impl; [|exact Hall]. intros c Hc.
    now apply (complete_has_key _ _ _ Hc). }
  destruct (no_directional_movement candles h l
              (Hkey "high"%string ltac:(cbn; tauto)) (Hkey "low"%string ltac:(cbn; tauto))
              Hh Hl) as [Hplus Hminus].
  destruct (raw_of_lengths candles) as (Ltr & Lpl & Lmi).
  unfold len in Hlen.
  destruct (length candles) as [|[|n]] eqn:Hn; try lia.
  unfold Adx.calculate_adx. cbv zeta.
  replace (len candles <? period * 2 + 1)%Z with false
    by (symmetry; apply Z.ltb_ge; unfold len; lia).
  unfold check_fields. rewrite check_fields_complete by exact Hall. cbn [bind ret].
  rewrite frame_column_nonempty by (intros ->; discriminate Hn). cbn [bind ret].
  unfold Adx.smooth. rewrite !rolling_mean_ok by lia. cbn [bind ret].
  rewrite smooth_fold_atr, smooth_fold_plus, smooth_fold_minus.
  cbn [Adx.atr Adx.plus_dm_smooth Adx.minus_dm_smooth].
  set (raw := Adx.raw_of candles) in *.
  set (w := Z.to_nat period).
  set (atr := fold_left (column_body period (Adx.tr raw)) _ _).
  set (pds := fold_left (column_body period (Adx.plus_dm raw)) _ _).
  set (mds := fold_left (column_body period (Adx.minus_dm raw)) _ _).
  assert (Latr : length atr = S (S n))
    by (unfold atr; now rewrite column_body_fold_length, rolling_apply_length).
  assert (Lpds : length pds = S (S n))
    by (unfold pds; now rewrite column_body_fold_length, rolling_apply_length).
  assert (Lmds : length mds = S (S n))
    by (unfold mds; now rewrite column_body_fold_length, rolling_apply_length).
  assert (Hpds : Forall nan_or_zero pds).
  { unfold pds. apply column_body_fold_nan_or_zero.
    - eapply Forall_impl; [|exact Hplus]. intros x Hx. now right.
    - apply rolling_mean_nan_or_zero.
      eapply Forall_impl; [|exact Hplus]. intros x Hx. now right. }
  assert (Hmds : Forall nan_or_zero mds).
  { unfold mds. apply column_body_fold_nan_or_zero.
    - eapply Forall_impl; [|exact Hminus]. intros x Hx. now right.
    - apply rolling_mean_nan_or_zero.
      eapply Forall_impl; [|exact Hminus]. intros x Hx. now right. }
  set (plus_di_col := Pandas.map2 ndiv (map (nmul (Fin 100)) pds) atr).
  set (minus_di_col := Pandas.map2 ndiv (map (nmul (Fin 100)) mds) atr).
  assert (Lp : length plus_di_col = S (S n)) by (unfold plus_di_col; col_lengths).
  assert (Lm : length minus_di_col = S (S n)) by (unfold minus_di_col; col_lengths).
  assert (Hpdi : forall i, (i < S (S n))%nat -> nan_or_zero (nth i plus_di_col NaN)).
  { intros i Hi. unfold plus_di_col.
    rewrite (map2_nth _ _ _ _ NaN NaN) by col_lengths.
    rewrite (map_nth_lt _ _ _ NaN) by lia.
    apply di_value_nan_or_zero. now apply Forall_nth_lt; [|lia]. }
  assert (Hmdi : forall i, (i < S (S n))%nat -> nan_or_zero (nth i minus_di_col NaN)).
  { intros i Hi. unfold minus_di_col.
    rewrite (map2_nth _ _ _ _ NaN NaN) by col_lengths.
    rewrite (map_nth_lt _ _ _ NaN) by lia.
    apply di_value_nan_or_zero. now apply Forall_nth_lt; [|lia]. }
  set (dx := Pandas.map2 ndiv _ (Pandas.map2 nadd plus_di_col minus_di_col)).
  assert (Ldx : length dx = S (S n)) by (unfold dx; col_lengths).
  assert (Hdx : Pandas.at_ dx (S n) = NaN).
  { unfold Pandas.at_, dx.
    rewrite (map2_nth _ _ _ _ NaN NaN) by col_lengths.
    rewrite (map_nth_lt _ _ _ NaN) by col_lengths.
    rewrite (map_nth_lt _ _ _ NaN) by col_lengths.
    rewrite !(map2_nth _ plus_di_col minus_di_col _ NaN NaN) by lia.
    apply dx_value_nan; [apply Hpdi | apply Hmdi]; lia. }
  rewrite rolling_mean_ok by lia. cbn [bind ret]. fold w.
  set (adx_col := fold_left _ _ (Pandas.rolling_apply Pandas.mean_all w dx)).
  assert (Ladx : length adx_col = S (S n))
    by (unfold adx_col; now rewrite wilder_fold_length, rolling_apply_length).
  assert (Hadx : nth (S n) adx_col NaN = NaN).
  { unfold adx_col, Adx.range. rewrite Hn.
    replace (S (S n) - Z.to_nat (period * 2))%nat
      with (S (S n - Z.to_nat (period * 2)))%nat by lia.
    rewrite seq_S, fold_left_app. cbn [fold_left].
    replace (Z.to_nat (period * 2) + (S n - Z.to_nat (period * 2)))%nat with (S n) by lia.
    unfold Adx.wilder_update at 1.
    fold (Pandas.at_ (Adx.set_at (S n)
            ((Pandas.at_ (fold_left (fun col i => Adx.wilder_update period dx i col)
                                    (seq (Z.to_nat (period * 2)) (S n - Z.to_nat (period * 2)))
                                    (Pandas.rolling_apply Pandas.mean_all w dx)) (S n - 1)
              * of_Z (period - 1) + Pandas.at_ dx (S n)) / of_Z period)%num
            (fold_left (fun col i => Adx.wilder_update period dx i col)
                       (seq (Z.to_nat (period * 2)) (S n - Z.to_nat (period * 2)))
                       (Pandas.rolling_apply Pandas.mean_all w dx))) (S n)).
    rewrite set_at_same by (rewrite wilder_fold_length, rolling_apply_length; lia).
    rewrite Hdx.
    match goal with |- ((?x + NaN) / _)%num = _ => destruct x; reflexivity end. }
  rewrite (iloc_neg_last adx_col (S n) NaN Ladx). cbn [bind ret].
  rewrite (iloc_neg_last plus_di_col (S n) NaN Lp). cbn [bind ret].
  rewrite (iloc_neg_last minus_di_col (S n) NaN Lm). cbn [bind ret].
  rewrite (iloc_neg_prev adx_col n NaN Ladx). cbn [bind ret].
  rewrite (iloc_neg_prev plus_di_col n NaN Lp). cbn [bind ret].
  rewrite (iloc_neg_prev minus_di_col n NaN Lm). cbn [bind ret].
  eexists. split; [reflexivity|].
  cbn [Adx.adx Adx.plus_di Adx.minus_di Adx.trend_strength Adx.trend_direction Adx.signal].
  rewrite Hadx.
  pose proof (Hpdi (S n) ltac:(lia)) as Pp. pose proof (Hmdi (S n) ltac:(lia)) as Pm.
  destruct (nan_or_zero_not_above _ _ Pp Pm) as [G1 G2].
  destruct (nan_or_zero_not_above _ _ Pm Pp) as [G3 _].
  split; [reflexivity|].
  split; [now apply round_nan_or_zero|]. split; [now apply round_nan_or_zero|].
  split; [reflexivity|]. split.
  - unfold Adx.direction_of. now rewrite G1, G3.
  - unfold Adx.signal_of. rewrite G1, G2, !andb_false_r. reflexivity.
Qed.

Lemma adx_without_directional_movement_witness :
  exists r,
    Adx.calculate_adx
      [Examples.ohlc 10 8 9; Examples.ohlc 10 8 8; Examples.ohlc 10 8 10] 1 = inr r /\
    Adx.adx r = NaN /\
    Adx.trend_strength r = "extremely_strong_trend"%string.
Proof.
  destruct (adx_without_directional_movement
              [Examples.ohlc 10 8 9; Examples.ohlc 10 8 8; Examples.ohlc 10 8 10] 1 10 8)
    as (r & Hr & Hadx & _ & _ & Hs & _).
  - lia.
  - vm_compute. discriminate.
  - repeat constructor.
  - repeat constructor.
  - repeat constructor.
  - exists r. repeat split; assumption.
Defined.

(* ================================================================== *)
(** ** MACD with equal periods *)

Lemma map2_minus_self l : Forall (fun p => 0 <= p <= 0) (Pandas.map2 Qminus l l).
Proof.
  unfold Pandas.map2. induction l as [|x l IH]; [constructor|].
  cbn [combine map fst snd]. constructor; [|exact IH]. split; lra.
Qed.

Lemma map2_minus_zero a b :
  Forall (fun p => 0 <= p <= 0) a -> Forall (fun p => 0 <= p <= 0) b ->
  Forall (fun p => 0 <= p <= 0) (Pandas.map2 Qminus a b).
Proof.
  apply Forall_map2. intros x y Hx Hy. split; lra.
Qed.

Lemma crossover_label_zero pm ps ph m s h :
  pm == 0 -> ps == 0 -> ph == 0 -> m == 0 -> s == 0 -> h == 0 ->
  Macd.crossover_label pm ps ph m s h = "neutral"%string.
Proof.
  intros Hpm Hps Hph Hm Hs Hh. unfold Macd.crossover_label.
  rewrite (Qgtb_false m s), (Qltb_false m s), (Qgtb_false h 0), (Qltb_false h 0) by lra.
  now rewrite !andb_false_r.
Qed.

Lemma round_q_zero q n : q == 0 -> round_q q n == 0.
Proof.
  intros H. rewrite (round_q_proper q 0 n H). rewrite round_q_value.
  reflexivity.
Qed.

(** X19: macd.py does not require the fast period to be shorter than the slow
    one.  With fast_period = slow_period both averages coincide: the MACD
    line, its signal line and the histogram are 0 for every series of
    prices and the label is "neutral". *)
Theorem macd_equal_periods (prices : list Q) (period signal_period : Z) :
  (1 <= period)%Z -> (1 <= signal_period)%Z ->
  (period + signal_period <= len prices)%Z ->
  exists r m s h,
    Macd.calculate_macd prices period period signal_period = inr r /\
    Macd.macd r = Fin m /\ Macd.signal r = Fin s /\ Macd.histogram r = Fin h /\
    m == 0 /\ s == 0 /\ h == 0 /\
    Macd.crossover_signal r = "neutral"%string.
Proof.
  intros Hp Hg Hlen.
  destruct (ewm_mean_ok period prices Hp) as (ema & Ee & Le).
  pose proof (map2_minus_self ema) as Hmacd.
  destruct (ewm_mean_bounds signal_period 0 0 (Pandas.map2 Qminus ema ema) Hg Hmacd)
    as (signal_line & Eg & Lg & Hsig).
  pose proof (map2_minus_zero _ _ Hmacd Hsig) as Hhist.
  unfold Macd.calculate_macd.
  replace (len prices <? period + signal_period)%Z with false
    by (symmetry; apply Z.ltb_ge; lia).
  rewrite Ee. cbn [bind ret]. rewrite Eg. cbn [bind ret].
  set (macd_line := Pandas.map2 Qminus ema ema) in *.
  set (histogram := Pandas.map2 Qminus macd_line signal_line) in *.
  assert (Lm : length macd_line = length prices)
    by (unfold macd_line; rewrite map2_length; lia).
  rewrite Lm in Lg.
  assert (Lh : length histogram = length prices)
    by (unfold histogram; rewrite map2_length; lia).
  unfold len in Hlen.
  destruct (length prices) as [|[|n]] eqn:Hl; try lia.
  rewrite (iloc_neg_last macd_line (S n) 0 Lm), (iloc_neg_last signal_line (S n) 0 Lg),
    (iloc_neg_last histogram (S n) 0 Lh), (iloc_neg_prev macd_line n 0 Lm),
    (iloc_neg_prev signal_line n 0 Lg), (iloc_neg_prev histogram n 0 Lh).
  cbn [bind ret].
  assert (Z1 : forall i, (i < S (S n))%nat -> nth i macd_line 0 == 0).
  { intros i Hi. destruct (Forall_nth_lt _ macd_line i 0 Hmacd ltac:(lia)). lra. }
  assert (Z2 : forall i, (i < S (S n))%nat -> nth i signal_line 0 == 0).
  { intros i Hi. destruct (Forall_nth_lt _ signal_line i 0 Hsig ltac:(lia)). lra. }
  assert (Z3 : forall i, (i < S (S n))%nat -> nth i histogram 0 == 0).
  { intros i Hi. destruct (Forall_nth_lt _ histogram i 0 Hhist ltac:(lia)). lra. }
  do 4 eexists. split; [reflexivity|].
  cbn [Macd.macd Macd.signal Macd.histogram Macd.crossover_signal round].
  repeat (split; [reflexivity|]).
  split; [apply round_q_zero, Z1; lia|].
  split; [apply round_q_zero, Z2; lia|].
  split; [apply round_q_zero, Z3; lia|].
  apply crossover_label_zero; auto.
Qed.

Lemma macd_equal_periods_witness :
  exists r,
    Macd.calculate_macd [1; 5; 2; 8] 2 2 2 = inr r /\
    Macd.crossover_signal r = "neutral"%string.
Proof.
  destruct (macd_equal_periods [1; 5; 2; 8] 2 2) as (r & m & s & h & Hr & H);
    try (vm_compute; discriminate).
  exists r. split; [exact Hr|]. apply H.
Defined.

(* ================================================================== *)
(** ** Historical volatility from simple returns *)









